(** * Two-player Minesweeper server: board engine and room state machine

    A shallow embedding of [server/index.js]: the seeded board generator,
    the flood-fill reveal, win detection and progress computation, and the
    socket event handlers that drive a room through its life cycle. *)

From Stdlib Require Import ZArith QArith Qround Lia Bool String SpecFloat.
From stdpp Require Import base option list gmap strings.

Local Open Scope string_scope.
Local Open Scope Z_scope.

(** ** Outcome of running a piece of server code

    [Thrown] is an uncaught JavaScript exception (a property read on
    [undefined], an invalid array length); [Timeout] is the embedding's own
    marker for a loop that was cut off by its fuel. *)
Inductive Res (A : Type) : Type :=
| Ok (a : A)
| Thrown
| Timeout.
Arguments Ok {A} a.
Arguments Thrown {A}.
Arguments Timeout {A}.

Definition bindRes {A B} (m : Res A) (k : A → Res B) : Res B :=
  match m with
  | Ok a => k a
  | Thrown => Thrown
  | Timeout => Timeout
  end.

#[global] Instance Res_ret : MRet Res := λ A a, Ok a.
#[global] Instance Res_bind : MBind Res := λ A B k m, bindRes m k.

(** [x !== undefined] before a property read. *)
Definition defined {A} (o : option A) : Res A :=
  match o with
  | Some a => Ok a
  | None => Thrown
  end.

(** A loop [for (x of l) body] whose body may throw. *)
Fixpoint forEach {A S} (l : list A) (body : A → S → Res S) (s : S) : Res S :=
  match l with
  | [] => Ok s
  | x :: l' => s' ← body x s; forEach l' body s'
  end.

(** ** Cells and boards *)
Record Cell := mkCell {
  isMine : bool;
  isRevealed : bool;
  isFlagged : bool;
  adjacentMines : Z
}.

#[global] Instance Cell_eq_dec : EqDecision Cell.
Proof. solve_decision. Defined.

Abbreviation Board := (list (list Cell)).

Definition blankCell : Cell :=
  {| isMine := false; isRevealed := false; isFlagged := false; adjacentMines := 0 |}.

Definition withMine (cell : Cell) : Cell :=
  {| isMine := true; isRevealed := isRevealed cell;
     isFlagged := isFlagged cell; adjacentMines := adjacentMines cell |}.

Definition withRevealed (cell : Cell) : Cell :=
  {| isMine := isMine cell; isRevealed := true;
     isFlagged := isFlagged cell; adjacentMines := adjacentMines cell |}.

Definition withAdjacent (n : Z) (cell : Cell) : Cell :=
  {| isMine := isMine cell; isRevealed := isRevealed cell;
     isFlagged := isFlagged cell; adjacentMines := n |}.

Definition toggleFlag (cell : Cell) : Cell :=
  {| isMine := isMine cell; isRevealed := isRevealed cell;
     isFlagged := negb (isFlagged cell); adjacentMines := adjacentMines cell |}.

(** [a[i]] on an array: [undefined] (here [None]) outside [0 .. length-1]. *)
Definition jsIndex {A} (l : list A) (i : Z) : option A :=
  if decide (0 ≤ i) then l !! Z.to_nat i else None.

(** [m[r][c]]: [None] when the row is missing (the read of [[c]] throws) or
    when the entry is missing (the next property read throws). *)
Definition at2 {A} (m : list (list A)) (r c : Z) : option A :=
  row ← jsIndex m r; jsIndex row c.

(** In-place update of the entry at [(r, c)], used after a successful read
    of that entry. *)
Definition set2 {A} (f : A → A) (m : list (list A)) (r c : Z) : list (list A) :=
  alter (alter f (Z.to_nat c)) (Z.to_nat r) m.

Definition inBounds (rows cols r c : Z) : bool :=
  (0 <=? r) && (r <? rows) && (0 <=? c) && (c <? cols).

(** Row-major enumeration of [for r < rows, for c < cols]. *)
Definition cells (rows cols : Z) : list (Z * Z) :=
  r ← seqZ 0 rows; c ← seqZ 0 cols; [(r, c)].

(** The nine offsets of [for dr in -1..1, for dc in -1..1], in loop order. *)
Definition offsets9 : list (Z * Z) :=
  dr ← [-1; 0; 1]; dc ← [-1; 0; 1]; [(dr, dc)].

(** The eight offsets that skip [(0, 0)]. *)
Definition offsets8 : list (Z * Z) :=
  filter (λ d, d ≠ (0, 0)) offsets9.

(** ** generateBoardWithSeed *)

(** The safe zone is a [Set] of keys ["r,c"]; for integer coordinates the
    key determines the pair, so the set is kept as a set of pairs. *)
Definition safeZoneOf (rows cols safeR safeC : Z) : gset (Z * Z) :=
  foldl (λ (zone : gset (Z * Z)) d,
           let nr := safeR + d.1 in
           let nc := safeC + d.2 in
           if (0 <=? nr) && (nr <? rows) && (0 <=? nc) && (nc <? cols)
           then zone ∪ {[ (nr, nc) ]} else zone)
        {[ (safeR, safeC) ]} offsets8.

Definition blankBoard (rows cols : Z) : Board :=
  replicate (Z.to_nat rows) (replicate (Z.to_nat cols) blankCell).

(** An integer as the JavaScript number nearest to it: binary64 keeps 53
    significant bits and rounds to nearest, ties to the even significand.
    Integers below [2^53] in size are kept as they are. (Sizes of [2^1024]
    and more, which are no JavaScript numbers, are not considered.) *)
Definition roundDouble (z : Z) : Z :=
  let e := Z.log2 (Z.abs z) - 52 in
  if e <=? 0 then z
  else
    let q := Z.abs z / 2 ^ e in
    let r := Z.abs z mod 2 ^ e in
    let half := 2 ^ (e - 1) in
    let q' := if r <? half then q
              else if half <? r then q + 1
              else if Z.even q then q else q + 1 in
    Z.sgn z * (q' * 2 ^ e).

(** [x + y] on two integers held as numbers. *)
Definition numAdd (x y : Z) : Z := roundDouble (x + y).

(** The value of a counter that started at 0 after [calls] times [++]: it
    grows by one up to [2^53] and stays there, since [2^53 + 1] rounds back
    to [2^53] (see [counterAt_succ]). *)
Definition counterAt (calls : Z) : Z := Z.min calls (2 ^ 53).

Section BoardGenerator.

(** [unitDraw n] stands for [x - Math.floor(x)] with
    [x = Math.sin(n) * 10000]: a double in the unit interval, kept here as
    the rational it denotes. The sine itself is not modelled; what the
    properties need of it is stated as a hypothesis on [unitDraw]. *)
Variable unitDraw : Z → Q.

(** The closure [random(min, max)] at its call number [calls] (the first
    call has number 0): it reads [seed + randomCounter], a sum of doubles,
    where [randomCounter] has been incremented [calls] times. *)
Definition random (seed calls min max : Z) : Z :=
  Qfloor (unitDraw (numAdd seed (counterAt calls)) * inject_Z (max - min + 1))
  + min.

(** The [while (minesPlaced < mines)] loop. *)
Fixpoint placeMines (fuel : nat) (seed rows cols mines : Z)
    (safeZone : gset (Z * Z)) (randomCounter minesPlaced : Z)
    (board : Board) : Res Board :=
  if minesPlaced <? mines then
    match fuel with
    | O => Timeout
    | S fuel' =>
        let r := random seed randomCounter 0 (rows - 1) in
        let c := random seed (randomCounter + 1) 0 (cols - 1) in
        cell ← defined (at2 board r c);
        if negb (isMine cell) && negb (bool_decide ((r, c) ∈ safeZone))
        then placeMines fuel' seed rows cols mines safeZone
               (randomCounter + 2) (minesPlaced + 1) (set2 withMine board r c)
        else placeMines fuel' seed rows cols mines safeZone
               (randomCounter + 2) minesPlaced board
    end
  else Ok board.

(** The inner double loop that counts the mines around [(r, c)]. *)
Definition countAdjacent (board : Board) (rows cols r c : Z) : Res Z :=
  forEach offsets9
    (λ d count,
       if (0 <=? r + d.1) && (r + d.1 <? rows) &&
          (0 <=? c + d.2) && (c + d.2 <? cols)
       then cell ← defined (at2 board (r + d.1) (c + d.2));
            Ok (if isMine cell then count + 1 else count)
       else Ok count)
    0.

(** The "calculate adjacent mines" double loop. *)
Definition fillAdjacent (rows cols : Z) (board : Board) : Res Board :=
  forEach (cells rows cols)
    (λ rc board,
       cell ← defined (at2 board rc.1 rc.2);
       if isMine cell then Ok board
       else count ← countAdjacent board rows cols rc.1 rc.2;
            Ok (set2 (withAdjacent count) board rc.1 rc.2))
    board.

Definition generateBoardWithSeed (fuel : nat)
    (seed rows cols mines safeR safeC : Z) : Res Board :=
  let safeZone := safeZoneOf rows cols safeR safeC in
  let board := blankBoard rows cols in
  board ← placeMines fuel seed rows cols mines safeZone 0 0 board;
  fillAdjacent rows cols board.

End BoardGenerator.

(** ** floodReveal *)

(** [Array.from({ length: rows }, () => Array(cols).fill(false))]:
    [Array(cols)] raises a RangeError for a negative length, once the
    callback runs at all. *)
Definition freshVisited (rows cols : Z) : Res (list (list bool)) :=
  if (0 <? rows) && (cols <? 0) then Thrown
  else Ok (replicate (Z.to_nat rows) (replicate (Z.to_nat cols) false)).

(** The eight [stack.push([cr + dr, cc + dc])]; the head of the list is the
    top of the stack. *)
Definition pushNeighbours (cr cc : Z) (stack : list (Z * Z)) : list (Z * Z) :=
  foldl (λ st d, (cr + d.1, cc + d.2) :: st) stack offsets8.

(** The [while (stack.length > 0)] loop. *)
Fixpoint floodLoop (fuel : nat) (rows cols : Z) (stack : list (Z * Z))
    (visited : list (list bool)) (newBoard : Board) : Res Board :=
  match stack with
  | [] => Ok newBoard
  | (cr, cc) :: stack' =>
      match fuel with
      | O => Timeout
      | S fuel' =>
          if (cr <? 0) || (rows <=? cr) || (cc <? 0) || (cols <=? cc)
          then floodLoop fuel' rows cols stack' visited newBoard
          else
            seen ← defined (at2 visited cr cc);
            if seen : bool then floodLoop fuel' rows cols stack' visited newBoard
            else
              cell ← defined (at2 newBoard cr cc);
              if isRevealed cell || isFlagged cell
              then floodLoop fuel' rows cols stack' visited newBoard
              else
                let visited' := set2 (λ _, true) visited cr cc in
                let newBoard' := set2 withRevealed newBoard cr cc in
                if (adjacentMines cell =? 0) && negb (isMine cell)
                then floodLoop fuel' rows cols (pushNeighbours cr cc stack')
                       visited' newBoard'
                else floodLoop fuel' rows cols stack' visited' newBoard'
      end
  end.

(** Every pop either skips or marks a fresh entry of [visited] and pushes at
    most eight cells, so the loop runs at most [8 * rows * cols + 1] times. *)
Definition floodFuel (rows cols : Z) : nat :=
  S (S (8 * (Z.to_nat rows * Z.to_nat cols))).

Definition floodReveal (board : Board) (r c rows cols : Z) : Res Board :=
  let newBoard := board in
  visited ← freshVisited rows cols;
  floodLoop (floodFuel rows cols) rows cols [(r, c)] visited newBoard.

(** ** checkWin *)
Fixpoint checkWinLoop (board : Board) (rcs : list (Z * Z)) : Res bool :=
  match rcs with
  | [] => Ok true
  | (r, c) :: rcs' =>
      cell ← defined (at2 board r c);
      if negb (isMine cell) && negb (isRevealed cell) then Ok false
      else checkWinLoop board rcs'
  end.

Definition checkWin (board : Board) (rows cols : Z) : Res bool :=
  checkWinLoop board (cells rows cols).

(** ** getPlayerProgress *)

(** A JavaScript number as far as progress needs it. *)
Inductive Percent :=
| Pct (n : Z)
| PctInfinity
| PctNaN.

#[global] Instance Percent_eq_dec : EqDecision Percent.
Proof. solve_decision. Defined.

(** Binary64 arithmetic, as the Standard Library specifies it: 53 bits of
    precision, exponents up to 1024, results rounded to nearest, ties to
    even. *)
Definition toDouble (z : Z) : spec_float := binary_normalize 53 1024 z 0 false.
Definition doubleDiv (x y : spec_float) : spec_float := SFdiv 53 1024 x y.
Definition doubleMul (x y : spec_float) : spec_float := SFmul 53 1024 x y.

(** The rational that a finite double with sign [s], significand [m] and
    exponent [e] stands for. *)
Definition doubleValue (s : bool) (m : positive) (e : Z) : Q :=
  inject_Z (if s then Z.neg m else Z.pos m)
  * (if 0 <=? e then inject_Z (2 ^ e) else / inject_Z (2 ^ (- e))).

(** [Math.round] on the value of a finite double: the nearest integer,
    halves upwards. *)
Definition mathRound (x : Q) : Z := Qfloor (x + (1 # 2)).

(** [Math.round((revealedCells / nonMineCells) * 100)]: the division and
    the multiplication are those of binary64, each with its own rounding;
    [0 / 0] is [NaN] and any other division by zero an infinity, and
    [Math.round] keeps both. *)
Definition percentOf (revealedCells nonMineCells : Z) : Percent :=
  match doubleMul (doubleDiv (toDouble revealedCells) (toDouble nonMineCells))
                  (toDouble 100) with
  | S754_nan => PctNaN
  | S754_infinity _ => PctInfinity
  | S754_zero _ => Pct 0
  | S754_finite s m e => Pct (mathRound (doubleValue s m e))
  end.

Definition countRevealed (board : Board) (rows cols : Z) : Res Z :=
  forEach (cells rows cols)
    (λ rc revealedCells,
       cell ← defined (at2 board rc.1 rc.2);
       Ok (if negb (isMine cell) && isRevealed cell
           then revealedCells + 1 else revealedCells))
    0.

Definition getPlayerProgress (board : Board) (rows cols mines : Z) : Res Percent :=
  let totalCells := rows * cols in
  let nonMineCells := totalCells - mines in
  revealedCells ← countRevealed board rows cols;
  Ok (percentOf revealedCells nonMineCells).

(** ** Difficulty settings *)
Record Settings := mkSettings { rows : Z; cols : Z; mines : Z }.

Definition easy : Settings := mkSettings 8 8 10.
Definition medium : Settings := mkSettings 16 16 40.
Definition hard : Settings := mkSettings 20 20 100.

(** The own properties of the object literal [settings]. *)
Definition settings : gmap string Settings :=
  <["easy" := easy]> (<["medium" := medium]> (<["hard" := hard]> ∅)).

(** The property names every object literal inherits from
    [Object.prototype]; each of them holds a function or an object. *)
Definition objectPrototypeKeys : list string :=
  [ "constructor"; "__defineGetter__"; "__defineSetter__"; "hasOwnProperty";
    "__lookupGetter__"; "__lookupSetter__"; "isPrototypeOf";
    "propertyIsEnumerable"; "toString"; "valueOf"; "__proto__";
    "toLocaleString" ].

(** A truthy value read from [settings]. *)
Inductive Property :=
| Own (s : Settings)          (* one of the three entries *)
| Inherited (key : string).   (* a member of [Object.prototype] *)

(** [settings[key]]: an own entry, else what the prototype holds under
    that name, else [undefined]. *)
Definition getProperty (key : string) : option Property :=
  match settings !! key with
  | Some s => Some (Own s)
  | None =>
      if bool_decide (key ∈ objectPrototypeKeys)
      then Some (Inherited key) else None
  end.

(** [settings[difficulty] || settings.medium] *)
Definition getDifficultySettings (difficulty : string) : Property :=
  match getProperty difficulty with
  | Some v => v
  | None => Own medium
  end.

(** ** Rooms *)
Inductive GameState := Waiting | Ready | Playing | Finished | PostGame.

#[global] Instance GameState_eq_dec : EqDecision GameState.
Proof. solve_decision. Defined.

(** [playerId] is the field [id] of a player, [wantsToPlayAgain] is absent
    (falsy) until [playAgain] sets it. *)
Record Player := mkPlayer {
  playerId : string;
  name : string;
  ready : bool;
  isAdmin : bool;
  wantsToPlayAgain : bool
}.

(** [roomId] is the field [id] of a room. *)
Record Room := mkRoom {
  roomId : string;
  difficulty : string;
  players : list Player;
  gameState : GameState;
  seed : Z;
  gameStartTime : option Z;
  winner : option string
}.

Definition setReady (b : bool) (p : Player) : Player :=
  mkPlayer (playerId p) (name p) b (isAdmin p) (wantsToPlayAgain p).

Definition setWantsToPlayAgain (b : bool) (p : Player) : Player :=
  mkPlayer (playerId p) (name p) (ready p) (isAdmin p) b.

Definition setPlayers (ps : list Player) (room : Room) : Room :=
  mkRoom (roomId room) (difficulty room) ps (gameState room) (seed room)
         (gameStartTime room) (winner room).

Definition setGameState (g : GameState) (room : Room) : Room :=
  mkRoom (roomId room) (difficulty room) (players room) g (seed room)
         (gameStartTime room) (winner room).

Definition setSeed (n : Z) (room : Room) : Room :=
  mkRoom (roomId room) (difficulty room) (players room) (gameState room) n
         (gameStartTime room) (winner room).

Definition setGameStartTime (t : option Z) (room : Room) : Room :=
  mkRoom (roomId room) (difficulty room) (players room) (gameState room)
         (seed room) t (winner room).

Definition setWinner (w : option string) (room : Room) : Room :=
  mkRoom (roomId room) (difficulty room) (players room) (gameState room)
         (seed room) (gameStartTime room) w.

(** [players.find(p => p.id === id)] *)
Definition findPlayer (id : string) (ps : list Player) : option Player :=
  find (λ p, bool_decide (playerId p = id)) ps.

(** [players.find(p => p.id !== id)] *)
Definition findOther (id : string) (ps : list Player) : option Player :=
  find (λ p, bool_decide (playerId p ≠ id)) ps.

(** A field assignment on the object that [find] returned: the first match
    changes, in place. *)
Fixpoint updatePlayer (id : string) (f : Player → Player) (ps : list Player)
    : list Player :=
  match ps with
  | [] => []
  | p :: ps' =>
      if bool_decide (playerId p = id) then f p :: ps'
      else p :: updatePlayer id f ps'
  end.

(** [findIndex] followed by [splice(index, 1)]. *)
Fixpoint removePlayer (id : string) (ps : list Player) : list Player :=
  match ps with
  | [] => []
  | p :: ps' =>
      if bool_decide (playerId p = id) then ps'
      else p :: removePlayer id ps'
  end.

(** [players.every(p => p.ready)] *)
Definition allReady (ps : list Player) : bool := forallb ready ps.

(** [players.every(p => p.wantsToPlayAgain)] *)
Definition allWantToPlayAgain (ps : list Player) : bool :=
  forallb wantsToPlayAgain ps.

(** ** The registry: a [Map] in insertion order *)
Definition mapGet {V} (k : string) (m : list (string * V)) : option V :=
  snd <$> find (λ kv, bool_decide (kv.1 = k)) m.

Fixpoint mapSet {V} (k : string) (v : V) (m : list (string * V))
    : list (string * V) :=
  match m with
  | [] => [(k, v)]
  | kv :: m' =>
      if bool_decide (kv.1 = k) then (k, v) :: m'
      else kv :: mapSet k v m'
  end.

Definition mapDelete {V} (k : string) (m : list (string * V))
    : list (string * V) :=
  filter (λ kv, kv.1 ≠ k) m.

(** ** Events sent to clients *)
Inductive Event :=
| roomCreated (id : string) (room : Room)
| roomJoined (room : Room)
| playerJoined (player : Player)
| playerReadyEvent (id : string)
| gameReady
| gameWaiting
| countdownStarted (countdown : Z) (firstClick : Z * Z)
| countdownUpdate (countdown : Z)
| gameStarted (startTime : Z) (board : Board) (firstClick : Z * Z)
| boardUpdate (board : Board) (lastMove : Z * Z) (progress : Percent)
| progressUpdate (progress : gmap string Percent)
| gameOver (winnerName loserName : string) (winnerId : option string)
           (loserId : string)
| gameOverDisconnected (winnerName : string)
| gameWon (winnerName : string) (winnerId : string)
| gameReset (room : Room)
| playAgainStatus (id : string) (allWant : bool)
| movedToNewRoom (id : string) (room : Room)
| returnedToLobby
| playerLeft (id : string)
| error (message : string).

(** [socket.emit], [io.to(room).emit], [socket.to(room).emit]. *)
Inductive Target :=
| toSocket (id : string)
| toRoom (id : string)
| toOthers (id : string) (except : string).

Abbreviation Emission := (Target * Event)%type.

(** A running [setInterval] callback of [startGame] with what it captured:
    the room id, its own [countdown], the revealed board, the first click,
    the settings, and the room object and the board table themselves.
    The two objects are the ones registered under [cdRoom] until a
    [rooms.set] and [playerBoards.set] put new objects in their place; from
    then on no handler can reach them, and [cdDetached] holds what they keep
    for good: the players of the room and the boards of the table. *)
Record Countdown := mkCountdown {
  cdRoom : string;
  countdown : Z;
  cdBoard : Board;
  cdFirstClick : Z * Z;
  cdSettings : Settings;
  cdDetached : option (list Player * gmap string Board)
}.

Record Server := mkServer {
  rooms : list (string * Room);
  playerBoards : gmap string (gmap string Board);
  timers : list Countdown
}.

Definition initialServer : Server := mkServer [] ∅ [].

(** The players of the room object and the boards of the table registered
    under [id].  A room object that has been deleted from the registry has
    no players: it is deleted when its last player leaves. *)
Definition capturedAt (id : string) (s : Server)
    : list Player * gmap string Board :=
  (match mapGet id (rooms s) with
   | Some room => players room
   | None => []
   end,
   default ∅ (playerBoards s !! id)).

(** What [rooms.set(id, ...)] and [playerBoards.set(id, ...)] mean to the
    running countdowns: those that captured the objects registered under
    [id] until now keep them as [captured] describes them. *)
Definition detachTimers (id : string)
    (captured : list Player * gmap string Board) (ts : list Countdown)
    : list Countdown :=
  map (λ t,
         match cdDetached t with
         | None =>
             if bool_decide (cdRoom t = id)
             then mkCountdown (cdRoom t) (countdown t) (cdBoard t)
                    (cdFirstClick t) (cdSettings t) (Some captured)
             else t
         | Some _ => t
         end) ts.

Definition setRooms (rs : list (string * Room)) (s : Server) : Server :=
  mkServer rs (playerBoards s) (timers s).

Definition setPlayerBoards (pb : gmap string (gmap string Board)) (s : Server)
    : Server :=
  mkServer (rooms s) pb (timers s).

Definition setTimers (ts : list Countdown) (s : Server) : Server :=
  mkServer (rooms s) (playerBoards s) ts.

(** A change to the room object that [rooms.get(key)] returned. *)
Definition putRoom (key : string) (room : Room) (s : Server) : Server :=
  setRooms (mapSet key room (rooms s)) s.

(** A change to the object that [playerBoards.get(key)] returned. *)
Definition putBoards (key : string) (m : gmap string Board) (s : Server)
    : Server :=
  setPlayerBoards (<[key := m]> (playerBoards s)) s.

(** [generateRoomId]: [pick i] is the value of
    [Math.floor(Math.random() * chars.length)] in round [i] of the loop. *)
Definition chars : string := "abcdefghijklmnopqrstuvwxyz0123456789".

Definition charAt (s : string) (i : Z) : string :=
  if decide (0 ≤ i) then
    match String.get (Z.to_nat i) s with
    | Some ch => String ch EmptyString
    | None => EmptyString
    end
  else EmptyString.

Definition generateRoomId (pick : Z → Z) : string :=
  foldl (λ result i, result +:+ charAt chars (pick i)) EmptyString (seqZ 0 4).

(** What [Math.random] and [Date.now] return during one handler. *)
Record Oracle := mkOracle {
  idPick : Z → Z;
  freshSeed : Z;
  now : Z
}.

(** ** Event handlers

    A handler runs to completion on the state it finds and returns the new
    state with what it emitted, oldest first. *)
Abbreviation Step := (Server * list Emission)%type.

(** [x?.name || 'Unknown'] *)
Definition nameOrUnknown (p : option Player) : string :=
  match p with
  | Some q => if bool_decide (name q = EmptyString) then "Unknown" else name q
  | None => "Unknown"
  end.

Definition createRoom (o : Oracle) (socketId difficulty playerName : string)
    (s : Server) : Res Step :=
  let id := generateRoomId (idPick o) in
  let room :=
    mkRoom id difficulty [mkPlayer socketId playerName false true false]
           Waiting (freshSeed o) None None in
  Ok (mkServer (mapSet id room (rooms s)) (<[id := ∅]> (playerBoards s))
               (detachTimers id (capturedAt id s) (timers s)),
      [(toSocket socketId, roomCreated id room)]).

Definition joinRoom (socketId id playerName : string) (s : Server)
    : Res Step :=
  match mapGet id (rooms s) with
  | None => Ok (s, [(toSocket socketId, error "Room not found")])
  | Some room =>
      if (2 <=? length (players room))%nat
      then Ok (s, [(toSocket socketId, error "Room is full")])
      else
        let player := mkPlayer socketId playerName false false false in
        let room' := setPlayers (players room ++ [player]) room in
        Ok (putRoom id room' s,
            [(toSocket socketId, roomJoined room');
             (toOthers id socketId, playerJoined player)])
  end.

Definition playerReady (socketId id : string) (s : Server) : Res Step :=
  match mapGet id (rooms s) with
  | None => Ok (s, [])
  | Some room =>
      match findPlayer socketId (players room) with
      | None => Ok (s, [])
      | Some _ =>
          let room1 :=
            setPlayers (updatePlayer socketId (λ p, setReady (negb (ready p)) p)
                          (players room)) room in
          let sent := (toOthers id socketId, playerReadyEvent socketId) in
          if (2 <=? length (players room1))%nat && allReady (players room1)
          then Ok (putRoom id (setGameState Ready room1) s,
                   [sent; (toRoom id, gameReady)])
          else if bool_decide (gameState room1 = Ready)
          then Ok (putRoom id (setGameState Waiting room1) s,
                   [sent; (toRoom id, gameWaiting)])
          else Ok (putRoom id room1 s, [sent])
      end
  end.

(** [room.players.forEach(player => playerBoardMap[player.id] = copy)] *)
Definition dealBoards (board : Board) (ps : list Player)
    (playerBoardMap : gmap string Board) : gmap string Board :=
  foldl (λ m p, <[playerId p := board]> m) playerBoardMap ps.

(** The progress table built by [room.players.forEach] over the boards
    that exist. *)
Definition progressTable (ps : list Player)
    (playerBoardMap : gmap string Board) (st : Settings)
    : Res (gmap string Percent) :=
  forEach ps
    (λ p table,
       match playerBoardMap !! playerId p with
       | Some pb =>
           progress ← getPlayerProgress pb (rows st) (cols st) (mines st);
           Ok (<[playerId p := progress]> table)
       | None => Ok table
       end)
    ∅.

Section Handlers.

Variable unitDraw : Z → Q.

(** With an inherited member in place of the settings, [rows], [cols] and
    [mines] are [undefined]: the first click is [(NaN, NaN)], the board and
    the [visited] array are empty, and [floodReveal] throws on
    [visited[NaN][NaN]]. *)
Definition startGame (fuel : nat) (o : Oracle) (socketId id : string)
    (s : Server) : Res Step :=
  match mapGet id (rooms s) with
  | None => Ok (s, [])
  | Some room =>
      if (length (players room) <? 2)%nat then Ok (s, [])
      else
        match findPlayer socketId (players room) with
        | None =>
            Ok (s, [(toSocket socketId,
                     error "Only the room admin can start the game")])
        | Some player =>
            if negb (isAdmin player)
            then Ok (s, [(toSocket socketId,
                          error "Only the room admin can start the game")])
            else
              match getDifficultySettings (difficulty room) with
              | Inherited _ => Thrown
              | Own st =>
                  let firstClickRow :=
                    random unitDraw (seed room) 0 0 (rows st - 1) in
                  let firstClickCol :=
                    random unitDraw (seed room) 1 0 (cols st - 1) in
                  roomBoard ← generateBoardWithSeed unitDraw fuel (seed room)
                                (rows st) (cols st) (mines st)
                                firstClickRow firstClickCol;
                  playerBoardMap ← defined (playerBoards s !! id);
                  let playerBoardMap1 :=
                    dealBoards roomBoard (players room) playerBoardMap in
                  let room1 :=
                    setGameStartTime (Some (now o))
                      (setGameState Playing room) in
                  revealedBoard ← floodReveal roomBoard firstClickRow
                                    firstClickCol (rows st) (cols st);
                  let playerBoardMap2 :=
                    dealBoards revealedBoard (players room) playerBoardMap1 in
                  Ok (mkServer (mapSet id room1 (rooms s))
                        (<[id := playerBoardMap2]> (playerBoards s))
                        (timers s ++
                           [mkCountdown id 5 revealedBoard
                              (firstClickRow, firstClickCol) st None]),
                      [(toRoom id,
                        countdownStarted 5 (firstClickRow, firstClickCol))])
              end
        end
  end.

End Handlers.

(** One firing of the [i]-th running interval.  The callback reads the
    players of the room object and the boards of the table it captured:
    the ones registered under its room id while they are registered, what
    [cdDetached] holds once they have been replaced. *)
Definition tick (o : Oracle) (i : nat) (s : Server) : Res Step :=
  match timers s !! i with
  | None => Ok (s, [])
  | Some t =>
      let countdown' := countdown t - 1 in
      let sent := (toRoom (cdRoom t), countdownUpdate countdown') in
      if countdown' <=? 0 then
        let captured := match cdDetached t with
                        | Some kept => kept
                        | None => capturedAt (cdRoom t) s
                        end in
        initialProgress ← progressTable captured.1 captured.2 (cdSettings t);
        Ok (setTimers (delete i (timers s)) s,
            [sent;
             (toRoom (cdRoom t),
              gameStarted (now o) (cdBoard t) (cdFirstClick t));
             (toRoom (cdRoom t), progressUpdate initialProgress)])
      else
        Ok (setTimers
              (<[i := mkCountdown (cdRoom t) countdown' (cdBoard t)
                        (cdFirstClick t) (cdSettings t) (cdDetached t)]>
                 (timers s)) s,
            [sent])
  end.

(** [playerBoard.map(row => row.map(c => c.isMine ? {...c, isRevealed: true} : c))] *)
Definition revealMines (board : Board) : Board :=
  map (map (λ c, if isMine c then withRevealed c else c)) board.

(** With an inherited member in place of the settings, [floodReveal] is
    called with [undefined] bounds and throws on its empty [visited] array;
    the flagged and the mine branch do not use the settings. *)
Definition cellClick (socketId id : string) (row col : Z) (s : Server)
    : Res Step :=
  match mapGet id (rooms s) with
  | None => Ok (s, [])
  | Some room =>
      if negb (bool_decide (gameState room = Playing)) then Ok (s, [])
      else
        match playerBoards s !! id with
        | None => Ok (s, [])
        | Some playerBoardMap =>
            match playerBoardMap !! socketId with
            | None => Ok (s, [])
            | Some playerBoard =>
                cell ← defined (at2 playerBoard row col);
                if isFlagged cell then Ok (s, [])
                else if isMine cell then
                  let playerBoard' := revealMines playerBoard in
                  let otherPlayer := findOther socketId (players room) in
                  let currentPlayer := findPlayer socketId (players room) in
                  let room' :=
                    setWinner (Some (nameOrUnknown otherPlayer))
                      (setGameState Finished room) in
                  Ok (putRoom id room'
                        (putBoards id (<[socketId := playerBoard']> playerBoardMap) s),
                      [(toRoom id,
                        gameOver (nameOrUnknown otherPlayer)
                          (nameOrUnknown currentPlayer)
                          (playerId <$> otherPlayer) socketId)])
                else
                  match getDifficultySettings (difficulty room) with
                  | Inherited _ => Thrown
                  | Own st =>
                      playerBoard' ← floodReveal playerBoard row col
                                       (rows st) (cols st);
                      let playerBoardMap' :=
                        <[socketId := playerBoard']> playerBoardMap in
                      let s' := putBoards id playerBoardMap' s in
                      won ← checkWin playerBoard' (rows st) (cols st);
                      if won : bool then
                        let currentPlayer :=
                          findPlayer socketId (players room) in
                        let room' :=
                          setWinner (Some (nameOrUnknown currentPlayer))
                            (setGameState Finished room) in
                        Ok (putRoom id room' s',
                            [(toRoom id,
                              gameWon (nameOrUnknown currentPlayer) socketId)])
                      else
                        progress ← getPlayerProgress playerBoard' (rows st)
                                     (cols st) (mines st);
                        allProgress ← progressTable (players room)
                                        playerBoardMap' st;
                        Ok (s',
                            app
                              [(toSocket socketId,
                                boardUpdate playerBoard' (row, col) progress);
                               (toRoom id, progressUpdate allProgress)]
                              (if bool_decide (allProgress = ∅) then []
                               else [(toRoom id, progressUpdate allProgress)]))
                  end
            end
        end
  end.

(** With an inherited member in place of the settings,
    [getPlayerProgress] runs no loop and rounds [0 / NaN]. *)
Definition cellFlag (socketId id : string) (row col : Z) (s : Server)
    : Res Step :=
  match mapGet id (rooms s) with
  | None => Ok (s, [])
  | Some room =>
      if negb (bool_decide (gameState room = Playing)) then Ok (s, [])
      else
        match playerBoards s !! id with
        | None => Ok (s, [])
        | Some playerBoardMap =>
            match playerBoardMap !! socketId with
            | None => Ok (s, [])
            | Some playerBoard =>
                cell ← defined (at2 playerBoard row col);
                if isRevealed cell then Ok (s, [])
                else
                  let playerBoard' := set2 toggleFlag playerBoard row col in
                  progress ←
                    match getDifficultySettings (difficulty room) with
                    | Own st => getPlayerProgress playerBoard' (rows st)
                                  (cols st) (mines st)
                    | Inherited _ => Ok PctNaN
                    end;
                  Ok (putBoards id (<[socketId := playerBoard']> playerBoardMap) s,
                      [(toSocket socketId,
                        boardUpdate playerBoard' (row, col) progress)])
            end
        end
  end.

Definition playAgain (o : Oracle) (socketId id : string) (s : Server)
    : Res Step :=
  match mapGet id (rooms s) with
  | None => Ok (s, [])
  | Some room =>
      match findPlayer socketId (players room) with
      | None => Ok (s, [])
      | Some _ =>
          let room1 :=
            setPlayers (updatePlayer socketId (setWantsToPlayAgain true)
                          (players room)) room in
          let all := allWantToPlayAgain (players room1) in
          let sent := (toRoom id, playAgainStatus socketId all) in
          if all then
            let room2 :=
              setSeed (freshSeed o)
                (setGameStartTime None
                   (setWinner None
                      (setGameState Waiting
                         (setPlayers
                            (map (λ p, setWantsToPlayAgain false (setReady false p))
                                 (players room1)) room1)))) in
            Ok (putRoom id room2
                  (setPlayerBoards (alter (λ _, ∅) id (playerBoards s)) s),
                [sent; (toRoom id, gameReset room2)])
          else Ok (putRoom id room1 s, [sent])
      end
  end.

(** The shared tail of the two branches of [returnToLobby]: take the player
    out of the room object, and drop the registry entry once that object has
    no players. [registered] tells whether the registry still holds the
    object under [id]; it does not when the new room took that very id. *)
Definition leaveRoom (registered : bool) (socketId id : string) (room : Room)
    (s : Server) : Step :=
  match findPlayer socketId (players room) with
  | None => (s, [])
  | Some _ =>
      let room' := setPlayers (removePlayer socketId (players room)) room in
      let s1 := setPlayerBoards (alter (delete socketId) id (playerBoards s))
                  (if registered then putRoom id room' s else s) in
      let s2 := if bool_decide (players room' = [])
                then mkServer (mapDelete id (rooms s1))
                       (delete id (playerBoards s1)) (timers s1)
                else s1 in
      (s2, [(toOthers id socketId, playerLeft socketId)])
  end.

Definition returnToLobby (o : Oracle) (socketId id : string) (s : Server)
    : Res Step :=
  match mapGet id (rooms s) with
  | None => Ok (s, [])
  | Some room =>
      match findPlayer socketId (players room) with
      | None => Ok (s, [])
      | Some currentPlayer =>
          if wantsToPlayAgain currentPlayer
             && bool_decide (gameState room = PostGame)
          then
            let newRoomId := generateRoomId (idPick o) in
            let newRoom :=
              mkRoom newRoomId (difficulty room)
                [mkPlayer socketId (name currentPlayer) false true false]
                Waiting (freshSeed o) None None in
            let captured :=
              if bool_decide (newRoomId = id)
              then (removePlayer socketId (players room),
                    default ∅ (playerBoards s !! id))
              else capturedAt newRoomId s in
            let s1 := mkServer (mapSet newRoomId newRoom (rooms s))
                        (<[newRoomId := ∅]> (playerBoards s))
                        (detachTimers newRoomId captured (timers s)) in
            let '(s2, sent) :=
              leaveRoom (bool_decide (newRoomId ≠ id)) socketId id room s1 in
            Ok (s2, app sent [(toSocket socketId,
                               movedToNewRoom newRoomId newRoom)])
          else
            let '(s1, sent) := leaveRoom true socketId id room s in
            Ok (s1, app sent [(toSocket socketId, returnedToLobby)])
      end
  end.

(** The body of the [disconnect] loop for the first room, in insertion
    order, that lists the socket. *)
Definition disconnectFrom (o : Oracle) (socketId id : string) (room : Room)
    (s : Server) : Step :=
  let room' := setPlayers (removePlayer socketId (players room)) room in
  let s1 := setPlayerBoards (alter (delete socketId) id (playerBoards s))
              (putRoom id room' s) in
  let left := (toOthers id socketId, playerLeft socketId) in
  if bool_decide (players room' = []) then
    (mkServer (mapDelete id (rooms s1)) (delete id (playerBoards s1))
       (timers s1), [left])
  else if bool_decide (gameState room' = Playing) then
    let winnerName := nameOrUnknown (head (players room')) in
    (putRoom id (setWinner (Some winnerName) (setGameState Finished room')) s1,
     [left; (toRoom id, gameOverDisconnected winnerName)])
  else if bool_decide (gameState room' = PostGame) then
    match head (players room') with
    | Some remainingPlayer =>
        if wantsToPlayAgain remainingPlayer then
          let newRoomId := generateRoomId (idPick o) in
          let newRoom :=
            mkRoom newRoomId (difficulty room')
              [mkPlayer (playerId remainingPlayer) (name remainingPlayer)
                 false true false]
              Waiting (freshSeed o) None None in
          (mkServer (mapSet newRoomId newRoom (rooms s1))
             (<[newRoomId := ∅]> (playerBoards s1))
             (detachTimers newRoomId (capturedAt newRoomId s1) (timers s1)),
           [left; (toSocket (playerId remainingPlayer),
                   movedToNewRoom newRoomId newRoom)])
        else (s1, [left])
    | None => (s1, [left])
    end
  else (s1, [left]).

Definition disconnect (o : Oracle) (socketId : string) (s : Server)
    : Res Step :=
  match find (λ kv : string * Room,
                bool_decide (is_Some (findPlayer socketId (players kv.2))))
             (rooms s) with
  | Some (id, room) => Ok (disconnectFrom o socketId id room s)
  | None => Ok (s, [])
  end.

(** ** The event loop: one input at a time, each run to completion *)
Inductive Input :=
| onCreateRoom (socketId difficulty playerName : string)
| onJoinRoom (socketId id playerName : string)
| onPlayerReady (socketId id : string)
| onStartGame (fuel : nat) (socketId id : string)
| onCellClick (socketId id : string) (row col : Z)
| onCellFlag (socketId id : string) (row col : Z)
| onPlayAgain (socketId id : string)
| onReturnToLobby (socketId id : string)
| onDisconnect (socketId : string)
| onInterval (i : nat).

Definition handle (unitDraw : Z → Q) (o : Oracle) (i : Input) (s : Server)
    : Res Step :=
  match i with
  | onCreateRoom socketId difficulty playerName =>
      createRoom o socketId difficulty playerName s
  | onJoinRoom socketId id playerName => joinRoom socketId id playerName s
  | onPlayerReady socketId id => playerReady socketId id s
  | onStartGame fuel socketId id => startGame unitDraw fuel o socketId id s
  | onCellClick socketId id row col => cellClick socketId id row col s
  | onCellFlag socketId id row col => cellFlag socketId id row col s
  | onPlayAgain socketId id => playAgain o socketId id s
  | onReturnToLobby socketId id => returnToLobby o socketId id s
  | onDisconnect socketId => disconnect o socketId s
  | onInterval n => tick o n s
  end.

(** The server after a sequence of inputs, each with its own oracle. *)
Fixpoint run (unitDraw : Z → Q) (inputs : list (Oracle * Input)) (s : Server)
    : Res Server :=
  match inputs with
  | [] => Ok s
  | (o, i) :: rest =>
      step ← handle unitDraw o i s;
      run unitDraw rest step.1
  end.

Definition reachable (unitDraw : Z → Q) (s : Server) : Prop :=
  ∃ inputs, run unitDraw inputs initialServer = Ok s.

(** ** Vocabulary of the properties *)

(** A [rows] by [cols] rectangle. *)
Definition hasDims {A} (rows cols : Z) (m : list (list A)) : Prop :=
  0 ≤ rows ∧ 0 ≤ cols ∧
  length m = Z.to_nat rows ∧ Forall (λ row, length row = Z.to_nat cols) m.

#[global] Instance hasDims_dec {A} rows cols (m : list (list A)) :
  Decision (hasDims rows cols m).
Proof. unfold hasDims. apply _. Defined.

(** The sum of a weight over a list, and over a grid. *)
Definition sumOver {A} (w : A → nat) (l : list A) : nat :=
  foldr (λ x acc, (w x + acc)%nat) 0%nat l.

Definition countCells {A} (p : A → bool) (m : list (list A)) : nat :=
  sumOver (sumOver (λ x, if p x then 1%nat else 0%nat)) m.

Definition isSafeRevealed (cell : Cell) : bool :=
  negb (isMine cell) && isRevealed cell.

Definition isSafeHidden (cell : Cell) : bool :=
  negb (isMine cell) && negb (isRevealed cell).

(** Every cell that is not a mine is revealed. *)
Definition allSafeRevealed (board : Board) : Prop :=
  ∀ r c cell, at2 board r c = Some cell →
              isMine cell = false → isRevealed cell = true.

(** The [i]-th pair of draws of the mine placement loop, and the cells that
    the first [n] pairs name. *)
Definition drawPair (unitDraw : Z → Q) (seed rows cols i : Z) : Z * Z :=
  (random unitDraw seed (2 * i) 0 (rows - 1),
   random unitDraw seed (2 * i + 1) 0 (cols - 1)).

Definition drawnCells (unitDraw : Z → Q) (seed rows cols from : Z) (n : nat)
    : gset (Z * Z) :=
  list_to_set (map (drawPair unitDraw seed rows cols) (seqZ from (Z.of_nat n))).

(** What is known of [x - Math.floor(x)]: it lies in the unit interval. *)
Definition inUnitInterval (unitDraw : Z → Q) : Prop :=
  ∀ n, (0 <= unitDraw n)%Q ∧ (unitDraw n < 1)%Q.

(** A draw source in the unit interval, to run the generator on. *)
Definition sampleDraw (n : Z) : Q :=
  Qmake ((n * n * 37 + n * 11 + 5) `mod` 101) 101.

(** Two boards that differ at most in their flags. *)
Definition sameUpToFlags (board board' : Board) : Prop :=
  Forall2 (Forall2 (λ cell cell',
             isMine cell' = isMine cell ∧ isRevealed cell' = isRevealed cell ∧
             adjacentMines cell' = adjacentMines cell)) board board'.

(** The number of safe cells of a table. *)
Definition safeCells (st : Settings) : Z := rows st * cols st - mines st.

(** The nearest integer, halves upwards, to the exact percentage
    [100 * a / b], for [b] positive. *)
Definition exactPercent (a b : Z) : Z := (200 * a + b) `div` (2 * b).

(** A board of five rows and eight columns without mines, its first 23
    cells in row-major order revealed. *)
Definition fiveByEight : Board :=
  map (λ r, map (λ c, mkCell false (8 * r + c <? 23) false 0) (seqZ 0 8))
      (seqZ 0 5).




(** A two by two board with one mine and one safe cell still hidden. *)
Definition tinyBoard : Board :=
  [ [ mkCell true false true 0; mkCell false true false 1 ];
    [ mkCell false true false 1; mkCell false false false 1 ] ].

(** What a reveal may do to a cell: nothing but turn [isRevealed] on. *)
Definition cellGrows (x y : Cell) : Prop :=
  isMine y = isMine x ∧ isFlagged y = isFlagged x ∧
  adjacentMines y = adjacentMines x ∧
  (isRevealed x = true → isRevealed y = true).

(** What the adjacency pass keeps of a board: its shape, and which cells
    are mines. *)
Definition sameMines rows cols (board board' : Board) : Prop :=
  hasDims rows cols board' ∧
  countCells isMine board' = countCells isMine board ∧
  ∀ r c y, at2 board' r c = Some y →
           ∃ x, at2 board r c = Some x ∧ isMine y = isMine x.

(** ** A sample session

    Alice creates room "aaaa" and is its admin, Bob joins, both mark
    themselves ready, Alice starts the game. *)
Definition sampleOracle : Oracle := mkOracle (λ _, 0) 7 1000.

Definition lobbyTrace (difficulty : string) : list (Oracle * Input) :=
  [ (sampleOracle, onCreateRoom "alice" difficulty "Alice");
    (sampleOracle, onJoinRoom "bob" "aaaa" "Bob");
    (sampleOracle, onPlayerReady "alice" "aaaa");
    (sampleOracle, onPlayerReady "bob" "aaaa") ].

Definition startTrace (difficulty : string) : list (Oracle * Input) :=
  app (lobbyTrace difficulty) [ (sampleOracle, onStartGame 400 "alice" "aaaa") ].

(** The game runs through its countdown, Bob steps on the mine at row 5,
    column 6, and Alice, the winner, asks for a rematch. *)
Definition rematchTrace : list (Oracle * Input) :=
  app (startTrace "easy")
    [ (sampleOracle, onInterval 0%nat); (sampleOracle, onInterval 0%nat);
      (sampleOracle, onInterval 0%nat); (sampleOracle, onInterval 0%nat);
      (sampleOracle, onInterval 0%nat);
      (sampleOracle, onCellClick "bob" "aaaa" 5 6);
      (sampleOracle, onPlayAgain "alice" "aaaa") ].

(** The state a trace leads to, for use where the trace is known to run. *)
Definition stateAfter (inputs : list (Oracle * Input)) : Server :=
  match run sampleDraw inputs initialServer with
  | Ok s => s
  | _ => initialServer
  end.

(** The emissions of [k] firings of the [i]-th interval, in order. *)
Fixpoint tickTimes (o : Oracle) (i k : nat) (s : Server) : Res Step :=
  match k with
  | O => Ok (s, [])
  | S k' =>
      step ← tick o i s;
      rest ← tickTimes o i k' step.1;
      Ok (rest.1, app step.2 rest.2)
  end.

Definition isGameStarted (e : Emission) : bool :=
  match e.2 with
  | gameStarted _ _ _ => true
  | _ => false
  end.

Definition isMovedToNewRoom (e : Emission) : bool :=
  match e.2 with
  | movedToNewRoom _ _ => true
  | _ => false
  end.

(** Every room is out of the state [post_game] and has at most two
    players. *)
Definition roomOk (kv : string * Room) : Prop :=
  gameState kv.2 ≠ PostGame ∧ (length (players kv.2) ≤ 2)%nat.

Definition roomsInvariant (s : Server) : Prop := Forall roomOk (rooms s).

(** What [Math.random] returns to a later handler. *)
Definition laterOracle : Oracle := mkOracle (λ _, 1) 8 2000.


(** ** Vocabulary of the further properties *)

(** Whether [(r, c)] is a cell of the board that holds a mine. *)
Definition mineAt (board : Board) (r c : Z) : bool :=
  match at2 board r c with
  | Some cell => isMine cell
  | None => false
  end.

(** The number of mines on the eight cells around [(r, c)]. *)
Definition neighbourMines (board : Board) (r c : Z) : Z :=
  Z.of_nat (length (filter (λ d : Z * Z, mineAt board (r + d.1) (c + d.2) = true)
                           offsets8)).

(** Every safe cell shows the number of mines around it, every mine the
    zero it was created with. *)
Definition adjacencyCorrect (board : Board) : Prop :=
  ∀ r c cell, at2 board r c = Some cell →
              adjacentMines cell
              = if isMine cell then 0 else neighbourMines board r c.

(** A cell as [generateBoardWithSeed] leaves it: neither revealed nor
    flagged. *)
Definition untouched (board : Board) : Prop :=
  ∀ r c cell, at2 board r c = Some cell →
              isRevealed cell = false ∧ isFlagged cell = false.

(** A cell that is revealed or flagged: one the flood fill passes over. *)
Definition isClosed (cell : Cell) : bool := isRevealed cell || isFlagged cell.

(** What the adjacency pass has done to a board once the cells of [done]
    are behind it. *)
Definition adjacencyFilled rows cols (board : Board) (done : list (Z * Z))
    (board' : Board) : Prop :=
  hasDims rows cols board' ∧
  ∀ r c x, at2 board r c = Some x →
    ∃ y, at2 board' r c = Some y ∧
         isMine y = isMine x ∧ isRevealed y = isRevealed x ∧
         isFlagged y = isFlagged x ∧
         adjacentMines y
         = if bool_decide ((r, c) ∈ done) && negb (isMine x)
           then neighbourMines board r c else adjacentMines x.

(** The check of [adjacencyCorrect] at one position. *)
Definition adjacencyOk (board : Board) (p : Z * Z) : bool :=
  match at2 board p.1 p.2 with
  | Some cell =>
      bool_decide (adjacentMines cell
                   = if isMine cell then 0 else neighbourMines board p.1 p.2)
  | None => true
  end.

(** The cell at [(r, c)] shows the number 0 and is no mine. *)
Definition isZeroSafe (cell : Cell) : bool :=
  (adjacentMines cell =? 0) && negb (isMine cell).

(** A fresh 3 by 3 board with its one mine in the far corner. *)
Definition cornerMineBoard : Board :=
  [ [ mkCell false false false 0; mkCell false false false 0;
      mkCell false false false 0 ];
    [ mkCell false false false 0; mkCell false false false 1;
      mkCell false false false 1 ];
    [ mkCell false false false 0; mkCell false false false 1;
      mkCell true false false 0 ] ].

(** No mine of the board is revealed. *)
Definition noMineShown (board : Board) : Prop :=
  ∀ r c cell, at2 board r c = Some cell → isMine cell = true →
              isRevealed cell = false.

(** A board as a game under the settings [st] needs it: the shape, the
    number of mines and the numbers are right. *)
Definition boardSound (st : Settings) (board : Board) : Prop :=
  hasDims (rows st) (cols st) board ∧
  countCells isMine board = Z.to_nat (mines st) ∧
  adjacencyCorrect board.

(** The board table of a room: every board belongs to a player listed in
    the room, is sound for the room's difficulty, and shows no mine while
    the room is playing. *)
Definition roomBoardsOk (room : Room) (boards : gmap string Board) : Prop :=
  ∀ sock board, boards !! sock = Some board →
    (∃ p, p ∈ players room ∧ playerId p = sock) ∧
    ∃ st, getDifficultySettings (difficulty room) = Own st ∧
          boardSound st board ∧
          (gameState room = Playing → noMineShown board).

(** A registry entry: the room is stored under its own id, is not in state
    [post_game], and has one or two players. *)
Definition roomWf (kv : string * Room) : Prop :=
  roomId kv.2 = kv.1 ∧ gameState kv.2 ≠ PostGame ∧
  (1 ≤ length (players kv.2) ≤ 2)%nat.

Definition serverWf (s : Server) : Prop :=
  NoDup (rooms s).*1 ∧ Forall roomWf (rooms s) ∧
  ∀ id room, mapGet id (rooms s) = Some room →
    ∃ boards, playerBoards s !! id = Some boards ∧ roomBoardsOk room boards.

(** The first click that [startGame] draws for a room under the settings
    [st]: the first two values of the room's seeded generator. *)
Definition firstClickOf (unitDraw : Z → Q) (room : Room) (st : Settings)
    : Z * Z :=
  (random unitDraw (seed room) 0 0 (rows st - 1),
   random unitDraw (seed room) 1 0 (cols st - 1)).

(** The room of the sample session once both players are ready. *)
Definition readyRoom : Room :=
  mkRoom "aaaa" "easy"
    [mkPlayer "alice" "Alice" true true false;
     mkPlayer "bob" "Bob" true false false]
    Ready 7 None None.

(** The sample session right after the admin has started the game: the
    server, the room, its board table and the board both players hold. *)
Definition sampleGame : Server := stateAfter (startTrace "easy").

Definition playingRoom : Room :=
  mkRoom "aaaa" "easy"
    [mkPlayer "alice" "Alice" true true false;
     mkPlayer "bob" "Bob" true false false]
    Playing 7 (Some 1000) None.

Definition sampleBoards : gmap string Board :=
  default ∅ (playerBoards sampleGame !! "aaaa").

Definition sampleBoard : Board := default [] (sampleBoards !! "bob").

(** The progress of a board of the right shape, as one number. *)
Definition progressOf (st : Settings) (board : Board) : Percent :=
  percentOf (Z.of_nat (countCells isSafeRevealed board))
            (rows st * cols st - mines st).

(** A player as a reset for a rematch leaves it. *)
Definition rematchPlayer (p : Player) : Player :=
  mkPlayer (playerId p) (name p) false (isAdmin p) false.


(** The integer that a double holds, for a double that holds one. *)
Definition integerOf (x : spec_float) : Z :=
  match x with
  | S754_finite s m e =>
      let z := if s then Z.neg m else Z.pos m in
      if 0 <=? e then z * 2 ^ e else z `div` 2 ^ (- e)
  | _ => 0
  end.

(** * Properties *)

(** ** Reads and writes on grids *)
Lemma jsIndex_Some {A} (l : list A) i x :
  jsIndex l i = Some x ↔ 0 ≤ i ∧ l !! Z.to_nat i = Some x.
Proof.
  unfold jsIndex. case_decide; split.
  - intros H'. done.
  - intros [_ H']. exact H'.
  - discriminate.
  - intros [Hi _]. lia.
Qed.

Lemma jsIndex_in_range {A} (l : list A) i :
  0 ≤ i < Z.of_nat (length l) → is_Some (jsIndex l i).
Proof.
  intros Hi. unfold jsIndex. rewrite decide_True by lia.
  apply lookup_lt_is_Some. lia.
Qed.

(** ** Weighted counts *)
Lemma sumOver_cons {A} (w : A → nat) x (l : list A) :
  sumOver w (x :: l) = (w x + sumOver w l)%nat.
Proof. reflexivity. Qed.

Lemma sumOver_alter {A} (w : A → nat) f (l : list A) i x :
  l !! i = Some x →
  (sumOver w (alter f i l) + w x = sumOver w l + w (f x))%nat.
Proof.
  revert i. induction l as [|a l IH]; intros [|i] H; try done.
  - injection H as ->. cbn [alter list_alter]. rewrite !sumOver_cons. lia.
  - cbn [alter list_alter]. rewrite !sumOver_cons.
    specialize (IH i H). lia.
Qed.

Lemma sumOver_replicate {A} (w : A → nat) n x :
  sumOver w (replicate n x) = (n * w x)%nat.
Proof.
  induction n as [|n IH]; [done|].
  cbn [replicate]. rewrite sumOver_cons, IH. lia.
Qed.

Lemma sumOver_app {A} (w : A → nat) (l k : list A) :
  sumOver w (l ++ k) = (sumOver w l + sumOver w k)%nat.
Proof.
  induction l as [|a l IH]; [done|].
  cbn [app]. rewrite !sumOver_cons, IH. lia.
Qed.

Section Grids.
Context {A : Type}.
Implicit Types (m : list (list A)) (row : list A) (r c : Z).

Lemma at2_Some m r c x :
  at2 m r c = Some x ↔
  0 ≤ r ∧ 0 ≤ c ∧
  ∃ row, m !! Z.to_nat r = Some row ∧ row !! Z.to_nat c = Some x.
Proof.
  unfold at2. split.
  - intros H. apply bind_Some in H as (row & Hr & Hc).
    apply jsIndex_Some in Hr as [? ?]. apply jsIndex_Some in Hc as [? ?].
    eauto 6.
  - intros (Hr & Hc & row & Hrow & Hx). apply bind_Some. exists row.
    split; apply jsIndex_Some; auto.
Qed.

Lemma at2_set2_eq f m r c x :
  at2 m r c = Some x → at2 (set2 f m r c) r c = Some (f x).
Proof.
  rewrite !at2_Some. intros (Hr & Hc & row & Hrow & Hx).
  split; [done|]. split; [done|]. exists (alter f (Z.to_nat c) row).
  unfold set2. by rewrite !list_lookup_alter_eq, Hrow, Hx.
Qed.

Lemma at2_set2_ne f m r c r' c' :
  0 ≤ r → 0 ≤ c → (r, c) ≠ (r', c') →
  at2 (set2 f m r c) r' c' = at2 m r' c'.
Proof.
  intros Hr Hc Hne. unfold at2, jsIndex, set2.
  destruct (decide (0 ≤ r')) as [Hr'|]; [|done].
  destruct (decide (r = r')) as [->|Hrr].
  - rewrite list_lookup_alter_eq.
    destruct (m !! Z.to_nat r') as [row|]; [|done]. cbn.
    destruct (decide (0 ≤ c')); [|done].
    apply list_lookup_alter_ne. intros Heq.
    apply Hne. f_equal. lia.
  - rewrite list_lookup_alter_ne by lia. done.
Qed.

(** A write keeps every entry readable, and readable as before when the
    written value agrees on the observation [obs]. *)
Lemma at2_set2_obs {B} (obs : A → B) f m r c r' c' x y :
  at2 m r c = Some x → obs (f x) = obs x →
  at2 m r' c' = Some y →
  ∃ y', at2 (set2 f m r c) r' c' = Some y' ∧ obs y' = obs y.
Proof.
  intros Hx Hobs Hy.
  destruct (decide ((r, c) = (r', c'))) as [Heq|Hne].
  - inversion Heq; subst r' c'. exists (f x).
    rewrite (at2_set2_eq _ _ _ _ _ Hx). split; [done|]. congruence.
  - exists y. apply at2_Some in Hx as (? & ? & _).
    rewrite at2_set2_ne by done. done.
Qed.

Lemma hasDims_set2 f rows cols m r c :
  hasDims rows cols m → hasDims rows cols (set2 f m r c).
Proof.
  intros (Hr & Hc & Hlen & Hall). unfold set2.
  split; [done|]. split; [done|]. split.
  - by rewrite length_alter.
  - apply Forall_alter; [done|]. intros row _ Hrow.
    by rewrite length_alter.
Qed.

Lemma hasDims_at2 rows cols m r c :
  hasDims rows cols m → inBounds rows cols r c = true →
  is_Some (at2 m r c).
Proof.
  intros (Hr & Hc & Hlen & Hall) Hin. unfold inBounds in Hin.
  repeat (apply andb_prop in Hin as [Hin ?]).
  destruct (jsIndex_in_range m r) as [row Hrow]; [lia|].
  unfold at2. rewrite Hrow. cbn.
  apply jsIndex_in_range.
  apply jsIndex_Some in Hrow as [_ Hrow].
  rewrite Forall_lookup in Hall. rewrite (Hall _ _ Hrow). lia.
Qed.

Lemma at2_hasDims rows cols m r c x :
  hasDims rows cols m → at2 m r c = Some x →
  inBounds rows cols r c = true.
Proof.
  intros (Hr & Hc & Hlen & Hall) Hx.
  apply at2_Some in Hx as (? & ? & row & Hrow & Hcell).
  rewrite Forall_lookup in Hall. pose proof (Hall _ _ Hrow) as Hl.
  apply lookup_lt_Some in Hrow, Hcell. unfold inBounds.
  repeat (apply andb_true_intro; split); lia.
Qed.

Lemma hasDims_replicate rows cols (x : A) :
  0 ≤ rows → 0 ≤ cols →
  hasDims rows cols (replicate (Z.to_nat rows) (replicate (Z.to_nat cols) x)).
Proof.
  intros Hr Hc. split; [done|]. split; [done|]. split.
  - by rewrite length_replicate.
  - apply Forall_replicate. by rewrite length_replicate.
Qed.

Lemma at2_replicate rows cols (x y : A) r c :
  at2 (replicate (Z.to_nat rows) (replicate (Z.to_nat cols) x)) r c = Some y →
  y = x.
Proof.
  intros H. apply at2_Some in H as (_ & _ & row & Hrow & Hy).
  apply lookup_replicate in Hrow as [-> _].
  apply lookup_replicate in Hy as [-> _]. done.
Qed.

Lemma countCells_set2 (p : A → bool) f m r c x :
  at2 m r c = Some x →
  (countCells p (set2 f m r c) + (if p x then 1 else 0)
   = countCells p m + (if p (f x) then 1 else 0))%nat.
Proof.
  intros H. apply at2_Some in H as (_ & _ & row & Hrow & Hx).
  unfold countCells, set2.
  pose proof (sumOver_alter (sumOver (λ x, if p x then 1%nat else 0%nat))
                (alter f (Z.to_nat c)) m _ _ Hrow) as H1.
  pose proof (sumOver_alter (λ x, if p x then 1%nat else 0%nat)
                f row _ _ Hx) as H2.
  cbn beta in H1, H2. lia.
Qed.

End Grids.

(** ** Loops in the error monad *)
Ltac res_simpl := cbn [mbind Res_bind bindRes defined mret Res_ret].

Lemma bindRes_Ok {A B} (m : Res A) (k : A → Res B) b :
  (x ← m; k x) = Ok b ↔ ∃ a, m = Ok a ∧ k a = Ok b.
Proof.
  unfold mbind, Res_bind, bindRes. destruct m as [a| |]; split.
  - intros Hk. eauto.
  - intros (a' & [= <-] & Hk). done.
  - done.
  - intros (a' & Hm & _). done.
  - done.
  - intros (a' & Hm & _). done.
Qed.

(** A loop whose body succeeds and keeps the invariant on every element
    succeeds and ends in the invariant. *)
Lemma forEach_invariant {A S} (I : S → Prop) (l : list A)
    (body : A → S → Res S) (s : S) :
  I s →
  (∀ x s, x ∈ l → I s → ∃ s', body x s = Ok s' ∧ I s') →
  ∃ s', forEach l body s = Ok s' ∧ I s'.
Proof.
  revert s. induction l as [|x l IH]; intros s Hs Hbody; cbn.
  - eauto.
  - destruct (Hbody x s) as (s1 & Hb & Hs1); [left|done|].
    rewrite Hb. cbn. apply IH; [done|].
    intros y s2 Hy. apply Hbody. by right.
Qed.

Lemma forEach_runs {A S} (l : list A) (body : A → S → Res S) (s : S) :
  (∀ x s, x ∈ l → ∃ s', body x s = Ok s') →
  ∃ s', forEach l body s = Ok s'.
Proof.
  intros Hbody.
  destruct (forEach_invariant (λ _, True) l body s I) as (s' & Hrun & _).
  - intros x s0 Hx _. destruct (Hbody x s0 Hx) as [s' Hs']. eauto.
  - eauto.
Qed.

Lemma elem_of_cells rows cols r c :
  (r, c) ∈ cells rows cols ↔ inBounds rows cols r c = true.
Proof.
  unfold cells, inBounds. rewrite list_elem_of_bind. split.
  - intros (r' & Hin & Hr). apply list_elem_of_bind in Hin as (c' & Hin & Hc).
    apply list_elem_of_singleton in Hin. injection Hin as -> ->.
    apply elem_of_seqZ in Hr, Hc.
    repeat (apply andb_true_intro; split); lia.
  - intros H. repeat (apply andb_prop in H as [H ?]).
    exists r. split; [|apply elem_of_seqZ; lia].
    apply list_elem_of_bind. exists c. split; [by left|].
    apply elem_of_seqZ; lia.
Qed.

(** ** The row-major scan of a rectangular grid reads its cells in order *)
Lemma jsIndex_seqZ {A} (l : list A) :
  jsIndex l <$> seqZ 0 (Z.of_nat (length l)) = Some <$> l.
Proof.
  apply list_eq. intros i. rewrite !list_lookup_fmap.
  destruct (l !! i) as [x|] eqn:Hx.
  - pose proof (lookup_lt_Some _ _ _ Hx).
    rewrite lookup_seqZ_lt by lia. cbn.
    f_equal. apply jsIndex_Some. split; [lia|].
    by rewrite Z.add_0_l, Nat2Z.id.
  - apply lookup_ge_None in Hx.
    rewrite lookup_seqZ_ge by lia. done.
Qed.

Lemma bind_singleton {A B} (f : A → B) (l : list A) :
  l ≫= (λ x, [f x]) = f <$> l.
Proof. induction l as [|x l IH]; [done|]. cbn. by rewrite IH. Qed.

Lemma cells_cons rows cols k :
  0 < rows →
  (r ← seqZ k rows; c ← seqZ 0 cols; [(r, c)]) =
  ((pair k <$> seqZ 0 cols) ++
   (r ← seqZ (Z.succ k) (Z.pred rows); c ← seqZ 0 cols; [(r, c)]))%list.
Proof.
  intros Hrows. rewrite (seqZ_cons k rows) by done.
  cbn [mbind list_bind]. by rewrite bind_singleton.
Qed.

Lemma scan_rows {A} cols (pre m : list (list A)) :
  0 ≤ cols →
  Forall (λ row, length row = Z.to_nat cols) m →
  (λ rc, at2 (pre ++ m)%list rc.1 rc.2) <$>
    (r ← seqZ (Z.of_nat (length pre)) (Z.of_nat (length m));
     c ← seqZ 0 cols; [(r, c)])
  = Some <$> mjoin m.
Proof.
  intros Hcols. revert pre. induction m as [|row m IH]; intros pre Hall.
  - done.
  - apply Forall_cons in Hall as [Hrow Hall].
    rewrite cells_cons by (cbn [length]; lia).
    rewrite fmap_app. cbn [mjoin list_join]. rewrite fmap_app. f_equal.
    + rewrite <- list_fmap_compose.
      replace cols with (Z.of_nat (length row)) by lia.
      rewrite <- jsIndex_seqZ. apply list_fmap_ext. intros _ c _. cbn.
      unfold at2.
      assert (jsIndex (pre ++ row :: m)%list (Z.of_nat (length pre)) = Some row)
        as ->; [|done].
      apply jsIndex_Some. split; [lia|].
      rewrite Nat2Z.id. by rewrite list_lookup_middle.
    + specialize (IH (pre ++ [row])%list Hall).
      rewrite <- app_assoc in IH. cbn [app] in IH.
      rewrite length_app in IH. cbn [length] in IH.
      replace (Z.succ (Z.of_nat (length pre)))
        with (Z.of_nat (length pre + 1)) by lia.
      replace (Z.pred (Z.of_nat (length (row :: m))))
        with (Z.of_nat (length m)) by (cbn [length]; lia).
      exact IH.
Qed.

Lemma scan_cells {A} rows cols (m : list (list A)) :
  hasDims rows cols m →
  (λ rc, at2 m rc.1 rc.2) <$> cells rows cols = Some <$> mjoin m.
Proof.
  intros (Hr & Hc & Hlen & Hall).
  pose proof (scan_rows cols [] m Hc Hall) as H.
  cbn [app length] in H. unfold cells.
  replace rows with (Z.of_nat (length m)) by lia. exact H.
Qed.

(** A loop that only reads the cells it scans is a fold over them. *)
Lemma forEach_reads {A S} (m : list (list A)) (g : A → S → S)
    (rcs : list (Z * Z)) (xs : list A) (s : S) :
  (λ rc, at2 m rc.1 rc.2) <$> rcs = Some <$> xs →
  forEach rcs (λ rc acc, x ← defined (at2 m rc.1 rc.2); Ok (g x acc)) s
  = Ok (foldl (λ acc x, g x acc) s xs).
Proof.
  revert xs s. induction rcs as [|rc rcs IH]; intros [|x xs] s H; try done.
  cbn in H. injection H as Hx H.
  cbn [forEach]. rewrite Hx. cbn. by apply IH.
Qed.

Lemma checkWinLoop_reads (board : Board) (rcs : list (Z * Z)) (xs : list Cell) :
  (λ rc, at2 board rc.1 rc.2) <$> rcs = Some <$> xs →
  checkWinLoop board rcs = Ok (forallb (λ x, negb (isSafeHidden x)) xs).
Proof.
  revert xs. induction rcs as [|[r c] rcs IH]; intros [|x xs] H; try done.
  cbn in H. injection H as Hx H.
  cbn [checkWinLoop forallb]. rewrite Hx. cbn.
  unfold isSafeHidden.
  destruct (negb (isMine x) && negb (isRevealed x)); cbn; [done|].
  by apply IH.
Qed.

(** ** Counting over the flattened grid *)
Lemma countCells_join {A} (p : A → bool) (m : list (list A)) :
  countCells p m = sumOver (λ x, if p x then 1%nat else 0%nat) (mjoin m).
Proof.
  unfold countCells. induction m as [|row m IH]; [done|].
  change (mjoin (row :: m)) with (row ++ mjoin m)%list.
  rewrite sumOver_cons, sumOver_app, IH. done.
Qed.

Lemma foldl_count {A} (p : A → bool) (xs : list A) (a : Z) :
  foldl (λ acc x, if p x then acc + 1 else acc) a xs
  = a + Z.of_nat (sumOver (λ x, if p x then 1%nat else 0%nat) xs).
Proof.
  revert a. induction xs as [|x xs IH]; intros a; cbn [foldl].
  - cbn. lia.
  - rewrite IH, sumOver_cons. destruct (p x); lia.
Qed.

Lemma length_join_dims {A} rows cols (m : list (list A)) :
  hasDims rows cols m → Z.of_nat (length (mjoin m)) = rows * cols.
Proof.
  intros (Hr & Hc & Hlen & Hall).
  assert (length (mjoin m) = (length m * Z.to_nat cols)%nat) as ->.
  { clear Hlen. induction Hall as [|row m Hrow Hall IH]; [done|].
    change (mjoin (row :: m)) with (row ++ mjoin m)%list.
    rewrite length_app, IH, Hrow. cbn [length]. lia. }
  rewrite Hlen. lia.
Qed.

(** Each cell is a mine, a revealed safe cell or a hidden safe cell. *)
Lemma cells_partition (xs : list Cell) :
  (sumOver (λ x, if isMine x then 1 else 0) xs
   + sumOver (λ x, if isSafeRevealed x then 1 else 0) xs
   + sumOver (λ x, if isSafeHidden x then 1 else 0) xs = length xs)%nat.
Proof.
  induction xs as [|x xs IH]; [done|].
  rewrite !sumOver_cons. cbn [length]. unfold isSafeRevealed, isSafeHidden in *.
  destruct (isMine x), (isRevealed x); cbn; lia.
Qed.

Lemma forallb_no_hidden (xs : list Cell) :
  forallb (λ x, negb (isSafeHidden x)) xs = true ↔
  sumOver (λ x, if isSafeHidden x then 1%nat else 0%nat) xs = 0%nat.
Proof.
  induction xs as [|x xs IH]; [done|].
  cbn [forallb]. rewrite sumOver_cons, andb_true_iff, IH.
  destruct (isSafeHidden x); cbn; split; try lia; intuition discriminate.
Qed.

Lemma elem_of_join_at2 {A} (m : list (list A)) (x : A) :
  x ∈ mjoin m ↔ ∃ r c, at2 m r c = Some x.
Proof.
  rewrite list_elem_of_join. split.
  - intros (row & Hx & Hrow).
    apply list_elem_of_lookup in Hx as [j Hj].
    apply list_elem_of_lookup in Hrow as [i Hi].
    exists (Z.of_nat i), (Z.of_nat j). apply at2_Some.
    split; [lia|]. split; [lia|]. exists row. by rewrite !Nat2Z.id.
  - intros (r & c & H). apply at2_Some in H as (_ & _ & row & Hrow & Hx).
    exists row. split; eapply list_elem_of_lookup_2; eauto.
Qed.

Lemma forallb_allSafeRevealed (board : Board) :
  forallb (λ x, negb (isSafeHidden x)) (mjoin board) = true ↔
  allSafeRevealed board.
Proof.
  rewrite forallb_forall. unfold allSafeRevealed. split.
  - intros H r c cell Hcell Hmine.
    assert (cell ∈ mjoin board) as Hin by (apply elem_of_join_at2; eauto).
    apply list_elem_of_In in Hin. specialize (H _ Hin).
    unfold isSafeHidden in H. rewrite Hmine in H.
    destruct (isRevealed cell); [done|discriminate].
  - intros H cell Hin. apply list_elem_of_In, elem_of_join_at2 in Hin
      as (r & c & Hcell).
    specialize (H r c cell Hcell). unfold isSafeHidden.
    destruct (isMine cell); [done|]. by rewrite H.
Qed.

(** ** checkWin and getPlayerProgress on a rectangular board *)
Lemma checkWin_scan (board : Board) rows cols :
  hasDims rows cols board →
  checkWin board rows cols
  = Ok (forallb (λ x, negb (isSafeHidden x)) (mjoin board)).
Proof.
  intros Hdims. unfold checkWin.
  apply checkWinLoop_reads, (scan_cells rows cols), Hdims.
Qed.

Lemma countRevealed_scan (board : Board) rows cols :
  hasDims rows cols board →
  countRevealed board rows cols
  = Ok (Z.of_nat (countCells isSafeRevealed board)).
Proof.
  intros Hdims. unfold countRevealed.
  rewrite (forEach_reads board
             (λ cell acc, if negb (isMine cell) && isRevealed cell
                          then acc + 1 else acc)
             (cells rows cols) (mjoin board) 0)
    by apply (scan_cells rows cols), Hdims.
  f_equal. rewrite (foldl_count isSafeRevealed), countCells_join. lia.
Qed.

Lemma getPlayerProgress_scan (board : Board) rows cols mines :
  hasDims rows cols board →
  getPlayerProgress board rows cols mines
  = Ok (percentOf (Z.of_nat (countCells isSafeRevealed board))
          (rows * cols - mines)).
Proof.
  intros Hdims. unfold getPlayerProgress.
  by rewrite countRevealed_scan.
Qed.

(** The cells of the three kinds add up to the whole board. *)
Lemma board_partition (board : Board) rows cols :
  hasDims rows cols board →
  Z.of_nat (countCells isMine board)
  + Z.of_nat (countCells isSafeRevealed board)
  + Z.of_nat (countCells isSafeHidden board) = rows * cols.
Proof.
  intros Hdims. rewrite <- (length_join_dims rows cols board Hdims).
  rewrite !countCells_join.
  pose proof (cells_partition (mjoin board)). lia.
Qed.

Lemma won_iff_no_hidden (board : Board) :
  forallb (λ x, negb (isSafeHidden x)) (mjoin board) = true ↔
  countCells isSafeHidden board = 0%nat.
Proof. rewrite countCells_join. apply forallb_no_hidden. Qed.

Lemma sameUpToFlags_join (board board' : Board) :
  sameUpToFlags board board' →
  Forall2 (λ cell cell', isMine cell' = isMine cell ∧
                         isRevealed cell' = isRevealed cell)
          (mjoin board) (mjoin board').
Proof.
  induction 1 as [|row row' board board' Hrow _ IH]; [constructor|].
  change (mjoin (row :: board)) with (row ++ mjoin board)%list.
  change (mjoin (row' :: board')) with (row' ++ mjoin board')%list.
  apply Forall2_app; [|exact IH].
  eapply Forall2_impl; [exact Hrow|]. cbn. tauto.
Qed.

Lemma sameUpToFlags_dims rows cols (board board' : Board) :
  sameUpToFlags board board' → hasDims rows cols board →
  hasDims rows cols board'.
Proof.
  intros Hsame (Hr & Hc & Hlen & Hall).
  split; [done|]. split; [done|]. split.
  - by rewrite <- (Forall2_length _ _ _ Hsame).
  - clear Hlen. induction Hsame as [|row row' board board' Hrow _ IH].
    + constructor.
    + apply Forall_cons in Hall as [Hl Hall]. constructor; [|by apply IH].
      by rewrite <- (Forall2_length _ _ _ Hrow).
Qed.

Lemma sameUpToFlags_won (board board' : Board) :
  sameUpToFlags board board' →
  forallb (λ x, negb (isSafeHidden x)) (mjoin board')
  = forallb (λ x, negb (isSafeHidden x)) (mjoin board).
Proof.
  intros Hsame. apply sameUpToFlags_join in Hsame.
  induction Hsame as [|x x' l l' [Hm Hr] _ IH]; [done|].
  cbn [forallb]. rewrite IH. unfold isSafeHidden. by rewrite Hm, Hr.
Qed.

(** C6: on a rows by cols board, checkWin returns true exactly when every
    cell that is not a mine is revealed, that is when the number of revealed
    safe cells equals rows * cols minus the number of mines; it returns
    false for any smaller number of revealed safe cells (zero included), and
    the result is the same on every board that differs only in its flags. *)
Theorem checkWin_iff_all_safe_revealed (board : Board) rows cols :
  hasDims rows cols board →
  ∃ won,
    checkWin board rows cols = Ok won ∧
    (won = true ↔ allSafeRevealed board) ∧
    (won = true ↔
       Z.of_nat (countCells isSafeRevealed board)
       = rows * cols - Z.of_nat (countCells isMine board)) ∧
    (Z.of_nat (countCells isSafeRevealed board)
     < rows * cols - Z.of_nat (countCells isMine board) → won = false) ∧
    (∀ board', sameUpToFlags board board' →
               checkWin board' rows cols = Ok won).
Proof.
  intros Hdims. eexists. split; [apply checkWin_scan, Hdims|].
  pose proof (board_partition board rows cols Hdims) as Hsum.
  pose proof (won_iff_no_hidden board) as Hwon.
  split; [apply forallb_allSafeRevealed|].
  split; [rewrite Hwon; lia|].
  split.
  - intros Hlt.
    destruct (forallb _ (mjoin board)) eqn:Hb; [|done].
    assert (countCells isSafeHidden board = 0%nat) by (by apply Hwon). lia.
  - intros board' Hsame.
    rewrite (checkWin_scan board' rows cols)
      by (eapply sameUpToFlags_dims; eauto).
    by rewrite (sameUpToFlags_won board board').
Qed.

Lemma checkWin_iff_all_safe_revealed_witness :
  ∃ won,
    checkWin tinyBoard 2 2 = Ok won ∧
    (won = true ↔ allSafeRevealed tinyBoard) ∧
    (won = true ↔
       Z.of_nat (countCells isSafeRevealed tinyBoard)
       = 2 * 2 - Z.of_nat (countCells isMine tinyBoard)) ∧
    (Z.of_nat (countCells isSafeRevealed tinyBoard)
     < 2 * 2 - Z.of_nat (countCells isMine tinyBoard) → won = false) ∧
    (∀ board', sameUpToFlags tinyBoard board' →
               checkWin board' 2 2 = Ok won).
Proof.
  apply (checkWin_iff_all_safe_revealed tinyBoard 2 2).
  apply (bool_decide_unpack _). vm_compute. exact I.
Defined.



(** ** The three tables *)
Lemma getDifficultySettings_Own key st :
  getDifficultySettings key = Own st → st = easy ∨ st = medium ∨ st = hard.
Proof.
  unfold getDifficultySettings, getProperty, settings.
  destruct (decide (key = "easy")) as [->|He];
    [rewrite lookup_insert_eq; intros [= <-]; auto|].
  rewrite lookup_insert_ne by done.
  destruct (decide (key = "medium")) as [->|Hm];
    [rewrite lookup_insert_eq; intros [= <-]; auto|].
  rewrite lookup_insert_ne by done.
  destruct (decide (key = "hard")) as [->|Hh];
    [rewrite lookup_insert_eq; intros [= <-]; auto|].
  rewrite lookup_insert_ne, lookup_empty by done.
  destruct (bool_decide (key ∈ objectPrototypeKeys)); [done|].
  intros [= <-]. auto.
Qed.

(** On a board of one of the three tables the two roundings of binary64
    never carry the product across a half: whatever the number of revealed
    cells, the result is the nearest integer to the exact percentage. Each
    table is checked count by count. *)
Lemma percentOf_checked st :
  forallb (λ a, bool_decide (percentOf a (safeCells st)
                             = Pct (exactPercent a (safeCells st))))
          (seqZ 0 (rows st * cols st + 1)) = true →
  ∀ a, 0 ≤ a ≤ rows st * cols st →
       percentOf a (safeCells st) = Pct (exactPercent a (safeCells st)).
Proof.
  intros Hall a Ha. rewrite forallb_forall in Hall.
  assert (In a (seqZ 0 (rows st * cols st + 1))) as Hin
    by (apply list_elem_of_In, elem_of_seqZ; lia).
  pose proof (Hall a Hin) as Ha'. cbn beta in Ha'.
  by apply bool_decide_eq_true in Ha'.
Qed.

Lemma percentOf_tables st a :
  st = easy ∨ st = medium ∨ st = hard →
  0 ≤ a ≤ rows st * cols st →
  percentOf a (safeCells st) = Pct (exactPercent a (safeCells st)).
Proof.
  intros [-> | [-> | ->]]; apply percentOf_checked; vm_compute; reflexivity.
Qed.


Lemma revealed_le_cells (board : Board) rows cols :
  hasDims rows cols board →
  0 ≤ Z.of_nat (countCells isSafeRevealed board) ≤ rows * cols.
Proof. intros Hd. pose proof (board_partition board rows cols Hd). lia. Qed.

(** The progress of a board of one of the three tables. *)
Lemma getPlayerProgress_table (board : Board) st :
  st = easy ∨ st = medium ∨ st = hard →
  hasDims (rows st) (cols st) board →
  getPlayerProgress board (rows st) (cols st) (mines st)
  = Ok (Pct (exactPercent (Z.of_nat (countCells isSafeRevealed board))
                          (safeCells st))).
Proof.
  intros Hst Hd. rewrite getPlayerProgress_scan by done.
  fold (safeCells st). f_equal. apply percentOf_tables; [done|].
  by apply revealed_le_cells.
Qed.

(** Off the three tables the rounding of binary64 shows: with 23 of 40
    safe cells revealed the quotient is rounded to a double below 0.575,
    the product to 57.49999999999999, and the progress is 57, where the
    exact percentage 57.5 rounds to 58. *)
Lemma progress_off_tables_differs :
  hasDims 5 8 fiveByEight ∧
  countCells isMine fiveByEight = 0%nat ∧
  countCells isSafeRevealed fiveByEight = 23%nat ∧
  getPlayerProgress fiveByEight 5 8 0 = Ok (Pct 57) ∧
  exactPercent 23 (5 * 8 - 0) = 58.
Proof.
  split; [apply (bool_decide_unpack _); vm_compute; exact I|].
  repeat split; vm_compute; reflexivity.
Qed.




(** ** floodReveal *)
Lemma offsets8_eq :
  offsets8 = [(-1, -1); (-1, 0); (-1, 1); (0, -1); (0, 1); (1, -1); (1, 0); (1, 1)].
Proof. reflexivity. Qed.

Lemma length_pushNeighbours cr cc stack :
  length (pushNeighbours cr cc stack) = (8 + length stack)%nat.
Proof. unfold pushNeighbours. rewrite offsets8_eq. reflexivity. Qed.

Lemma flood_bounds rows cols cr cc :
  (cr <? 0) || (rows <=? cr) || (cc <? 0) || (cols <=? cc) = false →
  inBounds rows cols cr cc = true.
Proof.
  intros H. repeat (apply orb_false_elim in H as [H ?]).
  unfold inBounds. repeat (apply andb_true_intro; split); lia.
Qed.

Lemma cellGrows_refl x : cellGrows x x.
Proof. by repeat split. Qed.

Lemma cellGrows_trans x y z : cellGrows x y → cellGrows y z → cellGrows x z.
Proof.
  intros (? & ? & ? & ?) (? & ? & ? & ?).
  repeat split; try congruence. auto.
Qed.

Lemma cellGrows_withRevealed x : cellGrows x (withRevealed x).
Proof. by repeat split. Qed.

Lemma at2_reveal_grows (board : Board) cr cc r c cell x :
  at2 board cr cc = Some cell → at2 board r c = Some x →
  ∃ y, at2 (set2 withRevealed board cr cc) r c = Some y ∧ cellGrows x y.
Proof.
  intros Hcell Hx.
  destruct (decide ((cr, cc) = (r, c))) as [Heq|Hne].
  - inversion Heq; subst r c. exists (withRevealed cell).
    rewrite (at2_set2_eq _ _ _ _ _ Hcell). split; [done|].
    assert (x = cell) as -> by congruence. apply cellGrows_withRevealed.
  - exists x. apply at2_Some in Hcell as (? & ? & _).
    rewrite at2_set2_ne by done. split; [done|apply cellGrows_refl].
Qed.

(** The loop never takes a reveal back. *)
Lemma floodLoop_grows fuel rows cols stack visited (board board' : Board) r c x :
  floodLoop fuel rows cols stack visited board = Ok board' →
  at2 board r c = Some x →
  ∃ y, at2 board' r c = Some y ∧ cellGrows x y.
Proof.
  revert stack visited board x.
  induction fuel as [|fuel IH]; intros [|[cr cc] stack] visited board x;
    cbn [floodLoop]; try done.
  - intros [= <-] Hx. eauto using cellGrows_refl.
  - intros [= <-] Hx. eauto using cellGrows_refl.
  - destruct ((cr <? 0) || (rows <=? cr) || (cc <? 0) || (cols <=? cc));
      [by apply IH|].
    destruct (at2 visited cr cc) as [[|]|]; cbn; [by apply IH| |done].
    destruct (at2 board cr cc) as [cell|] eqn:Hcell; cbn; [|done].
    destruct (isRevealed cell || isFlagged cell); [by apply IH|].
    intros Hrun Hx.
    destruct (at2_reveal_grows board cr cc r c cell x Hcell Hx)
      as (y1 & Hy1 & Hg1).
    destruct ((adjacentMines cell =? 0) && negb (isMine cell));
      destruct (IH _ _ _ _ Hrun Hy1) as (y & Hy & Hg);
      exists y; eauto using cellGrows_trans.
Qed.

(** Every pass of the loop shortens the stack or marks a fresh cell. *)
Lemma floodLoop_runs fuel rows cols stack visited (board : Board) :
  hasDims rows cols visited → hasDims rows cols board →
  (8 * countCells negb visited + length stack < fuel)%nat →
  ∃ board', floodLoop fuel rows cols stack visited board = Ok board' ∧
            hasDims rows cols board'.
Proof.
  revert stack visited board.
  induction fuel as [|fuel IH]; intros [|[cr cc] stack] visited board Hv Hb Hfuel;
    cbn [floodLoop]; cbn [length] in Hfuel; eauto; try lia.
  destruct ((cr <? 0) || (rows <=? cr) || (cc <? 0) || (cols <=? cc)) eqn:Hout;
    [apply IH; [done|done|lia]|].
  apply flood_bounds in Hout.
  destruct (hasDims_at2 _ _ _ _ _ Hv Hout) as [seen Hseen].
  destruct (hasDims_at2 _ _ _ _ _ Hb Hout) as [cell Hcell].
  rewrite Hseen. res_simpl. destruct seen; [apply IH; [done|done|lia]|].
  rewrite Hcell. res_simpl.
  destruct (isRevealed cell || isFlagged cell); [apply IH; [done|done|lia]|].
  pose proof (countCells_set2 negb (λ _, true) visited cr cc false Hseen) as Hcount.
  cbn in Hcount.
  destruct ((adjacentMines cell =? 0) && negb (isMine cell));
    (apply IH; [by apply hasDims_set2|by apply hasDims_set2|]).
  - rewrite length_pushNeighbours. lia.
  - lia.
Qed.

Lemma countCells_fresh rows cols :
  countCells negb (replicate (Z.to_nat rows) (replicate (Z.to_nat cols) false))
  = (Z.to_nat rows * Z.to_nat cols)%nat.
Proof.
  unfold countCells. rewrite !sumOver_replicate. cbn. lia.
Qed.

(** On a rectangular board floodReveal returns a board of the same shape. *)
Lemma floodReveal_runs (board : Board) r c rows cols :
  hasDims rows cols board →
  ∃ board', floodReveal board r c rows cols = Ok board' ∧
            hasDims rows cols board'.
Proof.
  intros Hb. pose proof Hb as (Hr & Hc & _).
  unfold floodReveal, freshVisited.
  replace ((0 <? rows) && (cols <? 0)) with false
    by (symmetry; apply andb_false_intro2; lia).
  res_simpl. apply floodLoop_runs; [by apply hasDims_replicate|done|].
  rewrite countCells_fresh. unfold floodFuel. cbn [length]. lia.
Qed.

Lemma floodLoop_nil fuel rows cols visited (board : Board) :
  floodLoop fuel rows cols [] visited board = Ok board.
Proof. by destruct fuel. Qed.

(** A second reveal from the same origin finds it revealed or flagged and
    stops. *)
Lemma floodReveal_again (board board' : Board) r c rows cols :
  floodReveal board r c rows cols = Ok board' →
  floodReveal board' r c rows cols = Ok board'.
Proof.
  unfold floodReveal, freshVisited.
  destruct ((0 <? rows) && (cols <? 0)); [done|]. res_simpl.
  unfold floodFuel. generalize (S (8 * (Z.to_nat rows * Z.to_nat cols))).
  intros n. set (visited := replicate _ _). cbn [floodLoop].
  destruct ((r <? 0) || (rows <=? r) || (c <? 0) || (cols <=? c)).
  { rewrite !floodLoop_nil. by intros [= <-]. }
  destruct (at2 visited r c) as [seen|] eqn:Hseen; res_simpl; [|done].
  apply at2_replicate in Hseen as ->.
  destruct (at2 board r c) as [cell|] eqn:Hcell; res_simpl; [|done].
  destruct (isRevealed cell || isFlagged cell) eqn:Hskip.
  { rewrite !floodLoop_nil. intros [= <-]. rewrite Hcell. res_simpl.
    by rewrite Hskip. }
  intros Hrun.
  assert (∃ y, at2 board' r c = Some y ∧ isRevealed y = true) as (y & Hy & Hrev).
  { pose proof (at2_set2_eq withRevealed board r c cell Hcell) as H1.
    destruct ((adjacentMines cell =? 0) && negb (isMine cell));
      destruct (floodLoop_grows _ _ _ _ _ _ _ r c _ Hrun H1)
        as (y & Hy & (_ & _ & _ & Hg)); exists y; auto. }
  rewrite Hy. res_simpl. by rewrite Hrev, floodLoop_nil.
Qed.

(** C5: on a rows by cols board floodReveal returns a board, and revealing
    again from the same origin returns that board unchanged; this holds for
    every origin, inside the board or not. *)
Theorem floodReveal_idempotent (board : Board) r c rows cols :
  hasDims rows cols board →
  ∃ board',
    floodReveal board r c rows cols = Ok board' ∧
    floodReveal board' r c rows cols = Ok board'.
Proof.
  intros Hb. destruct (floodReveal_runs board r c rows cols Hb)
    as (board' & Hrun & _).
  exists board'. split; [done|]. by apply (floodReveal_again board).
Qed.

Lemma floodReveal_idempotent_witness :
  ∃ board',
    floodReveal tinyBoard 1 1 2 2 = Ok board' ∧
    floodReveal board' 1 1 2 2 = Ok board'.
Proof.
  apply (floodReveal_idempotent tinyBoard 1 1 2 2).
  apply (bool_decide_unpack _). vm_compute. exact I.
Defined.

(** ** The seeded draws *)
Lemma random_range unitDraw seed randomCounter min max :
  inUnitInterval unitDraw → min ≤ max →
  min ≤ random unitDraw seed randomCounter min max ≤ max.
Proof.
  intros Hunit Hle. unfold random.
  destruct (Hunit (numAdd seed (counterAt randomCounter))) as [H0 H1].
  set (u := unitDraw (numAdd seed (counterAt randomCounter))) in *.
  set (w := max - min + 1).
  assert (0 < inject_Z w)%Q as Hw
    by (change 0%Q with (inject_Z 0); rewrite <- Zlt_Qlt; unfold w; lia).
  assert (0 ≤ Qfloor (u * inject_Z w)) as Hlow.
  { change 0 with (Qfloor (inject_Z 0)) at 1. apply Qfloor_resp_le.
    apply Qmult_le_0_compat; [exact H0|]. by apply Qlt_le_weak. }
  assert (Qfloor (u * inject_Z w) < w) as Hhigh.
  { rewrite Zlt_Qlt. eapply Qle_lt_trans; [apply Qfloor_le|].
    rewrite <- (Qmult_1_l (inject_Z w)) at 2.
    by apply Qmult_lt_compat_r. }
  generalize dependent (Qfloor (u * inject_Z w)). unfold w. intros. lia.
Qed.

Lemma sampleDraw_unit : inUnitInterval sampleDraw.
Proof.
  intros n. unfold sampleDraw, Qle, Qlt. cbn [Qnum Qden].
  pose proof (Z.mod_pos_bound (n * n * 37 + n * 11 + 5) 101 ltac:(lia)).
  lia.
Qed.

Lemma drawPair_inBounds unitDraw seed rows cols i :
  inUnitInterval unitDraw → 0 < rows → 0 < cols →
  inBounds rows cols (drawPair unitDraw seed rows cols i).1
                     (drawPair unitDraw seed rows cols i).2 = true.
Proof.
  intros Hunit Hr Hc. unfold drawPair, inBounds. cbn [fst snd].
  pose proof (random_range unitDraw seed (2 * i) 0 (rows - 1) Hunit ltac:(lia)).
  pose proof (random_range unitDraw seed (2 * i + 1) 0 (cols - 1) Hunit ltac:(lia)).
  repeat (apply andb_true_intro; split); lia.
Qed.

Lemma drawnCells_S unitDraw seed rows cols i n :
  drawnCells unitDraw seed rows cols i (S n)
  = {[ drawPair unitDraw seed rows cols i ]}
    ∪ drawnCells unitDraw seed rows cols (i + 1) n.
Proof.
  unfold drawnCells. rewrite seqZ_cons by lia.
  replace (Z.pred (Z.of_nat (S n))) with (Z.of_nat n) by lia.
  replace (Z.succ i) with (i + 1) by lia.
  cbn [map]. by rewrite list_to_set_cons.
Qed.

Lemma drawnCells_0 unitDraw seed rows cols i :
  drawnCells unitDraw seed rows cols i 0 = ∅.
Proof. reflexivity. Qed.

(** ** The safe zone *)
Lemma elem_of_zone_fold (rows cols safeR safeC : Z) (l : list (Z * Z))
    (zone : gset (Z * Z)) (p : Z * Z) :
  p ∈ foldl (λ (zone : gset (Z * Z)) d,
               let nr := safeR + d.1 in
               let nc := safeC + d.2 in
               if (0 <=? nr) && (nr <? rows) && (0 <=? nc) && (nc <? cols)
               then zone ∪ {[ (nr, nc) ]} else zone) zone l
  ↔ p ∈ zone ∨
    ∃ d, d ∈ l ∧ p = (safeR + d.1, safeC + d.2) ∧
         inBounds rows cols p.1 p.2 = true.
Proof.
  revert zone. induction l as [|d l IH]; intros zone; cbn [foldl].
  - split; [auto|]. intros [H|(d & Hd & _)]; [done|]. by apply elem_of_nil in Hd.
  - rewrite IH. clear IH. cbn zeta.
    fold (inBounds rows cols (safeR + d.1) (safeC + d.2)).
    destruct (inBounds rows cols (safeR + d.1) (safeC + d.2)) eqn:Hin.
    + rewrite elem_of_union, elem_of_singleton. split.
      * intros [[H| ->]|(d' & Hd' & Hp)].
        -- by left.
        -- right. exists d. split; [by left|done].
        -- right. exists d'. split; [by right|done].
      * intros [H|(d' & Hd' & Hp & Hb)]; [by left; left|].
        apply elem_of_cons in Hd' as [->|Hd']; [by left; right|].
        right. eauto.
    + split.
      * intros [H|(d' & Hd' & Hp)]; [by left|].
        right. exists d'. split; [by right|done].
      * intros [H|(d' & Hd' & Hp & Hb)]; [by left|].
        apply elem_of_cons in Hd' as [->|Hd'].
        -- subst p. cbn [fst snd] in Hb. congruence.
        -- right. eauto.
Qed.

Lemma elem_of_offsets8 (dr dc : Z) :
  (dr, dc) ∈ offsets8 ↔
  Z.abs dr ≤ 1 ∧ Z.abs dc ≤ 1 ∧ (dr, dc) ≠ (0, 0).
Proof.
  rewrite offsets8_eq. split.
  - intros H.
    repeat (apply elem_of_cons in H as [Heq|H];
            [injection Heq as -> ->; split; [lia|split; [lia|done]]|]).
    by apply elem_of_nil in H.
  - intros (Hr & Hc & Hne).
    assert (dr = -1 ∨ dr = 0 ∨ dr = 1) as [-> | [-> | ->]] by lia;
      assert (dc = -1 ∨ dc = 0 ∨ dc = 1) as [-> | [-> | ->]] by lia;
      try done; repeat first [by left | right].
Qed.

(** The safe zone is the safe cell and the cells of the board at Chebyshev
    distance one from it. *)
Lemma elem_of_safeZoneOf rows cols safeR safeC r c :
  (r, c) ∈ safeZoneOf rows cols safeR safeC ↔
  (r = safeR ∧ c = safeC) ∨
  (inBounds rows cols r c = true ∧
   Z.abs (r - safeR) ≤ 1 ∧ Z.abs (c - safeC) ≤ 1).
Proof.
  unfold safeZoneOf. rewrite elem_of_zone_fold, elem_of_singleton. split.
  - intros [Heq|([dr dc] & Hd & Heq & Hb)]; injection Heq as -> ->; [by left|].
    right. apply elem_of_offsets8 in Hd as (? & ? & _).
    cbn [fst snd] in *. split; [done|]. lia.
  - intros [[-> ->]|(Hb & Hr & Hc)]; [by left|].
    destruct (decide ((r, c) = (safeR, safeC))) as [Heq|Hne]; [by left|].
    right. exists (r - safeR, c - safeC). cbn [fst snd]. split.
    + apply elem_of_offsets8. split; [done|]. split; [done|].
      intros [= H1 H2]. apply Hne. f_equal; lia.
    + split; [f_equal; lia|done].
Qed.

(** ** The placement loop *)
Lemma placeMines_done unitDraw fuel seed rows cols mines safeZone counter
    placed (board : Board) :
  mines ≤ placed →
  placeMines unitDraw fuel seed rows cols mines safeZone counter placed board
  = Ok board.
Proof.
  intros Hle. destruct fuel; cbn [placeMines];
    by destruct (Z.ltb_spec placed mines); [lia|].
Qed.

Lemma placeMines_step unitDraw fuel seed rows cols mines safeZone counter
    placed (board : Board) :
  placed < mines →
  placeMines unitDraw (S fuel) seed rows cols mines safeZone counter placed board
  = (let r := random unitDraw seed counter 0 (rows - 1) in
     let c := random unitDraw seed (counter + 1) 0 (cols - 1) in
     cell ← defined (at2 board r c);
     if negb (isMine cell) && negb (bool_decide ((r, c) ∈ safeZone))
     then placeMines unitDraw fuel seed rows cols mines safeZone
            (counter + 2) (placed + 1) (set2 withMine board r c)
     else placeMines unitDraw fuel seed rows cols mines safeZone
            (counter + 2) placed board).
Proof.
  intros Hlt. cbn [placeMines].
  by destruct (Z.ltb_spec placed mines); [|lia].
Qed.


Section Placement.
Context (unitDraw : Z → Q) (seed rows cols mines : Z)
        (safeZone : gset (Z * Z)).
Hypothesis Hunit : inUnitInterval unitDraw.
Hypothesis Hrows : 0 < rows.
Hypothesis Hcols : 0 < cols.

(** If the next [n] pairs of draws name enough cells that are neither
    safe nor mined yet, the loop ends within [n] rounds, with [mines]
    mines and none of them in the safe zone. [M] is the set of mined
    cells. *)
Lemma placeMines_places (n : nat) :
  ∀ (i placed : Z) (board : Board) (M : gset (Z * Z)),
    hasDims rows cols board →
    (∀ r c cell, at2 board r c = Some cell →
                 (isMine cell = true ↔ (r, c) ∈ M)) →
    M ## safeZone →
    Z.of_nat (countCells isMine board) = placed →
    (Z.to_nat (mines - placed)
     ≤ size (drawnCells unitDraw seed rows cols i n ∖ (safeZone ∪ M)))%nat →
    ∃ board' : Board,
      (∀ fuel, (n ≤ fuel)%nat →
         placeMines unitDraw fuel seed rows cols mines safeZone
           (2 * i) placed board = Ok board') ∧
      hasDims rows cols board' ∧
      Z.of_nat (countCells isMine board') = Z.max placed mines ∧
      (∀ r c cell, at2 board' r c = Some cell → isMine cell = true →
                   (r, c) ∉ safeZone).
Proof.
  induction n as [|n IH]; intros i placed board M Hdims HM Hdisj Hcount Hsize.
  - assert (mines ≤ placed) as Hge.
    { rewrite drawnCells_0 in Hsize.
      replace (∅ ∖ (safeZone ∪ M)) with (∅ : gset (Z * Z)) in Hsize
        by set_solver.
      rewrite size_empty in Hsize. lia. }
    exists board. split; [intros; by apply placeMines_done|].
    split; [done|]. split; [lia|].
    intros r c cell Hcell Hmine Hsafe. apply (HM _ _ _ Hcell) in Hmine.
    set_solver.
  - destruct (Z.ltb_spec placed mines) as [Hlt|Hge].
    2:{ exists board. split; [intros; by apply placeMines_done|].
        split; [done|]. split; [lia|].
        intros r c cell Hcell Hmine Hsafe. apply (HM _ _ _ Hcell) in Hmine.
        set_solver. }
    pose proof (drawPair_inBounds unitDraw seed rows cols i Hunit Hrows Hcols)
      as Hin.
    destruct (hasDims_at2 _ _ _ _ _ Hdims Hin) as [cell Hcell].
    rewrite drawnCells_S in Hsize.
    set (p := drawPair unitDraw seed rows cols i) in *.
    set (D := drawnCells unitDraw seed rows cols (i + 1) n) in *.
    assert (∀ fuel board',
              placeMines unitDraw fuel seed rows cols mines safeZone
                (2 * i) placed board = Ok board' ↔
              ∃ fuel0, fuel = S fuel0 ∧
                (if negb (isMine cell) && negb (bool_decide (p ∈ safeZone))
                 then placeMines unitDraw fuel0 seed rows cols mines safeZone
                        (2 * (i + 1)) (placed + 1)
                        (set2 withMine board p.1 p.2)
                 else placeMines unitDraw fuel0 seed rows cols mines safeZone
                        (2 * (i + 1)) placed board) = Ok board') as Hstep.
    { intros [|fuel0] board'.
      - cbn [placeMines]. destruct (Z.ltb_spec placed mines); [|lia].
        split; [done|]. by intros (? & ? & _).
      - rewrite placeMines_step by done. cbn zeta.
        change (random unitDraw seed (2 * i) 0 (rows - 1)) with p.1.
        change (random unitDraw seed (2 * i + 1) 0 (cols - 1)) with p.2.
        rewrite Hcell. res_simpl.
        replace (2 * i + 2) with (2 * (i + 1)) by lia.
        rewrite <- (surjective_pairing p).
        split; [eauto|]. by intros (? & [= <-] & ?). }
    destruct (negb (isMine cell) && negb (bool_decide (p ∈ safeZone)))
      eqn:Hfree.
    + apply andb_prop in Hfree as [Hnm Hns].
      apply negb_true_iff in Hnm.
      apply negb_true_iff, bool_decide_eq_false in Hns.
      assert (p ∉ M) as HpM.
      { intros HpM. rewrite (surjective_pairing p) in HpM.
        apply (HM _ _ _ Hcell) in HpM. congruence. }
      destruct (IH (i + 1) (placed + 1) (set2 withMine board p.1 p.2)
                  (M ∪ {[ p ]})) as (board' & Hrun & Hd' & Hc' & Hs').
      * by apply hasDims_set2.
      * intros r c cell' Hcell'.
        destruct (decide ((p.1, p.2) = (r, c))) as [Heq|Hne].
        -- injection Heq as <- <-.
           rewrite (at2_set2_eq _ _ _ _ _ Hcell) in Hcell'.
           injection Hcell' as <-. unfold withMine. cbn [isMine].
           split; [intros _|done].
           apply elem_of_union_r, elem_of_singleton. reflexivity.
        -- apply at2_Some in Hcell as Hpos. destruct Hpos as (? & ? & _).
           rewrite at2_set2_ne in Hcell' by done.
           rewrite (HM _ _ _ Hcell').
           rewrite <- (surjective_pairing p) in Hne. set_solver.
      * set_solver.
      * pose proof (countCells_set2 isMine withMine board p.1 p.2 cell Hcell)
          as Hadd.
        change (isMine (withMine cell)) with true in Hadd.
        rewrite Hnm in Hadd. cbv iota in Hadd. lia.
      * assert (({[p]} ∪ D) ∖ (safeZone ∪ M)
                ⊆ {[p]} ∪ D ∖ (safeZone ∪ (M ∪ {[p]}))) as Hsub.
        { intros q. destruct (decide (q = p)); set_solver. }
        apply subseteq_size in Hsub.
        pose proof (size_union_alt {[p]} (D ∖ (safeZone ∪ (M ∪ {[p]})))) as Hu.
        rewrite size_singleton in Hu.
        pose proof (subseteq_size
                      ((D ∖ (safeZone ∪ (M ∪ {[p]}))) ∖ {[p]})
                      (D ∖ (safeZone ∪ (M ∪ {[p]}))) ltac:(set_solver)).
        fold D. lia.
      * exists board'. split; [|split; [done|split; [lia|done]]].
        intros [|fuel] Hfuel; [lia|]. apply Hstep.
        exists fuel. split; [done|]. apply Hrun. lia.
    + assert (p ∈ safeZone ∪ M) as Hp.
      { apply andb_false_iff in Hfree as [Hm|Hs].
        - apply negb_false_iff in Hm. apply elem_of_union_r.
          rewrite (surjective_pairing p). by apply (HM _ _ _ Hcell).
        - apply negb_false_iff, bool_decide_eq_true in Hs.
          by apply elem_of_union_l. }
      destruct (IH (i + 1) placed board M) as (board' & Hrun & Hrest);
        [done|done|done|done| |].
      * replace (({[p]} ∪ D) ∖ (safeZone ∪ M)) with (D ∖ (safeZone ∪ M))
          in Hsize by set_solver.
        done.
      * exists board'. split; [|done].
        intros [|fuel] Hfuel; [lia|]. apply Hstep.
        exists fuel. split; [done|]. apply Hrun. lia.
Qed.

End Placement.

(** ** The adjacency pass *)
Lemma countAdjacent_runs (board : Board) rows cols r c :
  hasDims rows cols board →
  ∃ count, countAdjacent board rows cols r c = Ok count.
Proof.
  intros Hdims. unfold countAdjacent. apply forEach_runs.
  intros d count _.
  destruct ((0 <=? r + d.1) && (r + d.1 <? rows) &&
            (0 <=? c + d.2) && (c + d.2 <? cols)) eqn:Hin; [|eauto].
  destruct (hasDims_at2 rows cols board (r + d.1) (c + d.2) Hdims Hin)
    as [cell Hcell].
  rewrite Hcell. res_simpl. eauto.
Qed.

Lemma fillAdjacent_runs (board : Board) rows cols :
  hasDims rows cols board →
  ∃ board', fillAdjacent rows cols board = Ok board' ∧
            sameMines rows cols board board'.
Proof.
  intros Hdims. unfold fillAdjacent.
  apply (forEach_invariant (sameMines rows cols board)).
  { unfold sameMines. eauto. }
  intros [r c] b Hin (Hd & Hn & Hm). apply elem_of_cells in Hin.
  cbn [fst snd].
  destruct (hasDims_at2 rows cols b r c Hd Hin) as [cell Hcell].
  rewrite Hcell. res_simpl.
  destruct (isMine cell) eqn:Hmine; [by exists b|].
  destruct (countAdjacent_runs b rows cols r c Hd) as [count Hcount].
  rewrite Hcount. res_simpl. eexists. split; [done|].
  split; [by apply hasDims_set2|]. split.
  - pose proof (countCells_set2 isMine (withAdjacent count) b r c cell Hcell)
      as Hadd.
    change (isMine (withAdjacent count cell)) with (isMine cell) in Hadd. lia.
  - intros r' c' y Hy.
    assert (∃ x, at2 b r' c' = Some x ∧ isMine y = isMine x) as (x & Hx & Hxy).
    { destruct (decide ((r, c) = (r', c'))) as [Heq|Hne].
      - injection Heq as <- <-.
        rewrite (at2_set2_eq _ _ _ _ _ Hcell) in Hy. injection Hy as <-.
        eauto.
      - apply at2_Some in Hcell as Hpos. destruct Hpos as (? & ? & _).
        rewrite at2_set2_ne in Hy by done. eauto. }
    destruct (Hm _ _ _ Hx) as (x0 & Hx0 & Hxx0). exists x0.
    split; [done|]. congruence.
Qed.

Lemma blankBoard_no_mines rows cols :
  countCells isMine (blankBoard rows cols) = 0%nat.
Proof.
  unfold countCells, blankBoard. rewrite !sumOver_replicate. cbn. lia.
Qed.


(** The generator on a positive grid: termination from enough distinct
    eligible draws, the number of mines, the safe zone. *)
Lemma generateBoardWithSeed_runs unitDraw seed rows cols mines safeR safeC
    (n : nat) :
  inUnitInterval unitDraw → 0 < rows → 0 < cols → 0 ≤ mines →
  (Z.to_nat mines
   ≤ size (drawnCells unitDraw seed rows cols 0 n
           ∖ safeZoneOf rows cols safeR safeC))%nat →
  ∃ board : Board,
    (∀ fuel, (n ≤ fuel)%nat →
       generateBoardWithSeed unitDraw fuel seed rows cols mines safeR safeC
       = Ok board) ∧
    hasDims rows cols board ∧
    Z.of_nat (countCells isMine board) = mines ∧
    (∀ r c cell, at2 board r c = Some cell →
                 (r, c) ∈ safeZoneOf rows cols safeR safeC →
                 isMine cell = false).
Proof.
  intros Hunit Hrows Hcols Hmines Hsize.
  destruct (placeMines_places unitDraw seed rows cols mines
              (safeZoneOf rows cols safeR safeC) Hunit Hrows Hcols n
              0 0 (blankBoard rows cols) ∅)
    as (placed & Hrun & Hdims & Hcount & Hsafe).
  - apply hasDims_replicate; lia.
  - intros r c cell Hcell. apply at2_replicate in Hcell as ->.
    cbn. split; [done|]. intros H. by apply not_elem_of_empty in H.
  - set_solver.
  - by rewrite blankBoard_no_mines.
  - replace (safeZoneOf rows cols safeR safeC ∪ ∅)
      with (safeZoneOf rows cols safeR safeC) by set_solver.
    by rewrite Z.sub_0_r.
  - destruct (fillAdjacent_runs placed rows cols Hdims)
      as (board & Hfill & Hd & Hn & Hm).
    exists board. split; [|split; [done|split]].
    + intros fuel Hfuel. unfold generateBoardWithSeed. cbn zeta.
      change (2 * 0) with 0 in Hrun. rewrite (Hrun fuel Hfuel). res_simpl.
      exact Hfill.
    + rewrite Hn. lia.
    + intros r c cell Hcell Hzone.
      destruct (Hm _ _ _ Hcell) as (x & Hx & Heq). rewrite Heq.
      destruct (isMine x) eqn:Hmine; [|done].
      by destruct (Hsafe _ _ _ Hx Hmine).
Qed.



(** ** Sums of doubles *)

(** Below [2^53] a sum of integers is exact. *)
Lemma roundDouble_exact (z : Z) : Z.abs z < 2 ^ 53 → roundDouble z = z.
Proof.
  intros Hz. unfold roundDouble.
  destruct (Z.leb_spec (Z.log2 (Z.abs z) - 52) 0) as [_|He]; [done|].
  exfalso. assert (0 < Z.abs z) as Hpos.
  { destruct (Z.abs z) eqn:E; [cbn in He; lia|lia|lia]. }
  pose proof (Z.log2_lt_pow2 (Z.abs z) 53 Hpos) as [Hlog _].
  specialize (Hlog Hz). lia.
Qed.

Lemma numAdd_exact (x y : Z) : Z.abs (x + y) < 2 ^ 53 → numAdd x y = x + y.
Proof. apply roundDouble_exact. Qed.

(** [numAdd] is the binary64 sum: checked against the IEEE addition of the
    Standard Library at the sums the development relies on and at ties on
    both sides of an even significand. *)
Lemma numAdd_is_double_sum :
  Forall (λ xy : Z * Z,
            integerOf (SpecFloat.SFadd 53 1024 (toDouble xy.1) (toDouble xy.2))
            = numAdd xy.1 xy.2)
    [(0, 0); (123456, 7); (999999, 200); (2 ^ 53 - 1, 1); (2 ^ 53, 1);
     (2 ^ 53, 2); (2 ^ 53 + 2, 1); (2 ^ 53 + 2, 3); (2 ^ 60, 128);
     (2 ^ 60, 129); (2 ^ 60 + 256, 128); (2 ^ 60 + 256, 127);
     (2 ^ 200, 0); (2 ^ 200, 1); (2 ^ 200, 2 ^ 53); (2 ^ 200, 2 ^ 147);
     (- 2 ^ 53, -1); (- 2 ^ 53 - 2, -1)].
Proof. repeat constructor. Qed.

(** The closed form of the counter is what [++] computes: one more up to
    [2^53], and [2^53] again from there. *)
Lemma counterAt_succ (calls : Z) :
  0 ≤ calls → counterAt (calls + 1) = numAdd (counterAt calls) 1.
Proof.
  intros Hc. unfold counterAt.
  destruct (Z.le_gt_cases (2 ^ 53) calls) as [Hbig|Hsmall].
  - rewrite !Z.min_r by lia. vm_compute. reflexivity.
  - rewrite (Z.min_l calls) by lia.
    destruct (Z.eq_dec (calls + 1) (2 ^ 53)) as [Heq|Hne].
    + unfold numAdd. rewrite Heq. vm_compute. reflexivity.
    + rewrite Z.min_l by lia. symmetry. apply numAdd_exact. lia.
Qed.




(** ** The registry *)
Lemma mapGet_mapSet_eq {V} k (v : V) m : mapGet k (mapSet k v m) = Some v.
Proof.
  unfold mapGet. induction m as [|[k' v'] m IH]; cbn.
  - by rewrite bool_decide_eq_true_2.
  - destruct (decide (k' = k)) as [->|Hne].
    + rewrite bool_decide_eq_true_2 by done. cbn.
      by rewrite bool_decide_eq_true_2.
    + rewrite bool_decide_eq_false_2 by done. cbn.
      by rewrite bool_decide_eq_false_2.
Qed.

Lemma mapGet_mapSet_ne {V} k k' (v : V) m :
  k ≠ k' → mapGet k' (mapSet k v m) = mapGet k' m.
Proof.
  intros Hne. unfold mapGet. induction m as [|[k0 v0] m IH]; cbn.
  - by rewrite bool_decide_eq_false_2.
  - destruct (decide (k0 = k)) as [->|Hne0].
    + rewrite bool_decide_eq_true_2 by done. cbn.
      by rewrite !bool_decide_eq_false_2.
    + rewrite bool_decide_eq_false_2 by done. cbn.
      destruct (bool_decide (k0 = k')); [done|exact IH].
Qed.

Lemma elem_of_mapSet {V} k (v : V) m kv :
  kv ∈ mapSet k v m → kv = (k, v) ∨ kv ∈ m.
Proof.
  induction m as [|[k0 v0] m IH]; cbn.
  - intros H. apply list_elem_of_singleton in H. by left.
  - destruct (bool_decide (k0 = k)).
    + intros H. apply elem_of_cons in H as [->|H]; [by left|].
      right. by right.
    + intros H. apply elem_of_cons in H as [->|H]; [right; by left|].
      destruct (IH H) as [->|H']; [by left|right; by right].
Qed.

Lemma mapGet_elem_of {V} k (v : V) m : mapGet k m = Some v → (k, v) ∈ m.
Proof.
  unfold mapGet. intros H. apply fmap_Some in H as ([k' v'] & Hfind & ->).
  apply find_some in Hfind as [Hin Hk]. cbn in Hk.
  apply bool_decide_eq_true in Hk as <-. by apply list_elem_of_In.
Qed.

(** ** Players *)
Lemma length_updatePlayer id f ps :
  length (updatePlayer id f ps) = length ps.
Proof.
  induction ps as [|p ps IH]; [done|]. cbn.
  destruct (bool_decide (playerId p = id)); cbn; [done|by rewrite IH].
Qed.



(** ** getDifficultySettings *)
Lemma getDifficultySettings_known :
  getDifficultySettings "easy" = Own easy ∧
  getDifficultySettings "medium" = Own medium ∧
  getDifficultySettings "hard" = Own hard.
Proof. by vm_compute. Qed.

(** A name that is neither an entry of the table nor a member of
    [Object.prototype] falls back to the medium settings. *)
Lemma getDifficultySettings_fallback (key : string) :
  key ≠ "easy" → key ≠ "medium" → key ≠ "hard" →
  key ∉ objectPrototypeKeys →
  getDifficultySettings key = Own medium.
Proof.
  intros He Hm Hh Hproto. unfold getDifficultySettings, getProperty, settings.
  rewrite !lookup_insert_ne, lookup_empty by done.
  by rewrite bool_decide_eq_false_2.
Qed.

Lemma getDifficultySettings_inherited (key : string) :
  key ∈ objectPrototypeKeys → getDifficultySettings key = Inherited key.
Proof.
  intros Hproto. unfold getDifficultySettings, getProperty.
  assert (settings !! key = None) as ->.
  { unfold settings. unfold objectPrototypeKeys in Hproto.
    repeat (apply elem_of_cons in Hproto as [->|Hproto]; [by vm_compute|]).
    by apply elem_of_nil in Hproto. }
  by rewrite bool_decide_eq_true_2.
Qed.

(** C10, at the input where the code departs from it: the difficulty
    "constructor" is neither easy, medium nor hard, createRoom stores it as
    it is, but getDifficultySettings returns the member that every object
    inherits under that name instead of the medium settings, and starting
    the game in such a room throws instead of dealing a medium board. *)
Theorem getDifficultySettings_constructor :
  getDifficultySettings "constructor" = Inherited "constructor" ∧
  (difficulty <$> mapGet "aaaa" (rooms (stateAfter (lobbyTrace "constructor"))))
  = Some "constructor" ∧
  run sampleDraw (startTrace "constructor") initialServer = Thrown.
Proof. split; [|split]; vm_compute; reflexivity. Qed.

(** An unknown difficulty outside [Object.prototype] is played on a medium
    board. *)
Lemma unknown_difficulty_plays_medium :
  (difficulty <$> mapGet "aaaa" (rooms (stateAfter (startTrace "expert"))))
  = Some "expert" ∧
  (cdSettings <$> head (timers (stateAfter (startTrace "expert"))))
  = Some medium.
Proof. split; vm_compute; reflexivity. Qed.

(** ** playerReady *)



(** ** cellClick and cellFlag *)
Lemma at2_map {A B} (f : A → B) (m : list (list A)) r c :
  at2 (map (map f) m) r c = f <$> at2 m r c.
Proof.
  unfold at2, jsIndex. destruct (decide (0 ≤ r)); [|done].
  change (map (map f) m) with (map f <$> m). rewrite list_lookup_fmap.
  destruct (m !! Z.to_nat r) as [row|]; [|done]. cbn.
  destruct (decide (0 ≤ c)); [|done].
  change (map f row) with (f <$> row). by rewrite list_lookup_fmap.
Qed.

Lemma at2_out_of_bounds {A} rows cols (m : list (list A)) r c :
  hasDims rows cols m → inBounds rows cols r c = false → at2 m r c = None.
Proof.
  intros Hdims Hout. destruct (at2 m r c) as [x|] eqn:Hx; [|done].
  apply (at2_hasDims rows cols) in Hx; [congruence|done].
Qed.

Lemma findOther_two id p1 p2 :
  playerId p1 ≠ playerId p2 →
  (id = playerId p1 → findOther id [p1; p2] = Some p2 ∧
                      findPlayer id [p1; p2] = Some p1) ∧
  (id = playerId p2 → findOther id [p1; p2] = Some p1 ∧
                      findPlayer id [p1; p2] = Some p2).
Proof.
  intros Hne. unfold findOther, findPlayer. split; intros ->; cbn.
  - rewrite (bool_decide_eq_false_2 (playerId p1 ≠ playerId p1)) by tauto.
    rewrite (bool_decide_eq_true_2 (playerId p2 ≠ playerId p1)) by congruence.
    by rewrite bool_decide_eq_true_2.
  - rewrite (bool_decide_eq_true_2 (playerId p1 ≠ playerId p2)) by done.
    rewrite (bool_decide_eq_false_2 (playerId p1 = playerId p2)) by done.
    by rewrite bool_decide_eq_true_2.
Qed.

(** C4: in a playing room of two players with distinct ids, a click by one
    of them on an unflagged mine of their board reveals every mine of that
    board and changes no other cell of it, leaves every other board of the
    room as it was, puts the room in state finished, and sends one gameOver
    whose winnerId is the opponent's id and whose loserId is the
    clicker's. *)
Theorem cellClick_mine_ends_game (s : Server) socketId id row col
    room (boards : gmap string Board) (board : Board) cell me opponent :
  mapGet id (rooms s) = Some room →
  gameState room = Playing →
  playerBoards s !! id = Some boards →
  boards !! socketId = Some board →
  at2 board row col = Some cell →
  isFlagged cell = false →
  isMine cell = true →
  playerId me = socketId →
  playerId opponent ≠ socketId →
  (players room = [me; opponent] ∨ players room = [opponent; me]) →
  ∃ s' room' (boards' : gmap string Board) (board' : Board),
    cellClick socketId id row col s
    = Ok (s', [(toRoom id,
                gameOver (nameOrUnknown (Some opponent))
                         (nameOrUnknown (Some me))
                         (Some (playerId opponent)) socketId)]) ∧
    playerBoards s' !! id = Some boards' ∧
    boards' !! socketId = Some board' ∧
    (∀ r c x, at2 board r c = Some x →
       ∃ y, at2 board' r c = Some y ∧
            isMine y = isMine x ∧ isFlagged y = isFlagged x ∧
            adjacentMines y = adjacentMines x ∧
            (isMine x = true → isRevealed y = true) ∧
            (isMine x = false → y = x)) ∧
    (∀ r c, at2 board r c = None → at2 board' r c = None) ∧
    (∀ other, other ≠ socketId → boards' !! other = boards !! other) ∧
    boards' !! playerId opponent = boards !! playerId opponent ∧
    mapGet id (rooms s') = Some room' ∧
    gameState room' = Finished ∧
    players room' = players room.
Proof.
  intros Hroom Hplaying Hboards Hboard Hcell Hflag Hmine Hme Hopp Hplayers.
  assert (findOther socketId (players room) = Some opponent ∧
          findPlayer socketId (players room) = Some me) as [Hother Hcurrent].
  { destruct Hplayers as [-> | ->].
    - apply (findOther_two socketId me opponent); congruence.
    - apply (findOther_two socketId opponent me); congruence. }
  unfold cellClick. rewrite Hroom, Hplaying.
  rewrite bool_decide_eq_true_2 by done. cbn [negb].
  rewrite Hboards, Hboard, Hcell. res_simpl. rewrite Hflag, Hmine.
  rewrite Hother, Hcurrent.
  eexists _, _, _, _. split; [reflexivity|].
  unfold putRoom, putBoards, setRooms, setPlayerBoards.
  cbn [rooms playerBoards].
  split; [apply lookup_insert_eq|]. split; [apply lookup_insert_eq|].
  split.
  { intros r c x Hx. unfold revealMines. rewrite at2_map, Hx. cbn [fmap option_fmap option_map].
    eexists. split; [reflexivity|].
    destruct (isMine x) eqn:Hm; cbn; rewrite ?Hm; done. }
  split; [intros r c Hnone; unfold revealMines; by rewrite at2_map, Hnone|].
  split; [intros other Hne; by rewrite lookup_insert_ne|].
  split; [by rewrite lookup_insert_ne|].
  split; [apply mapGet_mapSet_eq|]. done.
Qed.

Lemma cellClick_mine_ends_game_witness :
  ∃ s' room' (boards' : gmap string Board) (board' : Board),
    cellClick "bob" "aaaa" 5 6 (stateAfter (startTrace "easy"))
    = Ok (s', [(toRoom "aaaa",
                gameOver (nameOrUnknown (Some (mkPlayer "alice" "Alice" true true false)))
                         (nameOrUnknown (Some (mkPlayer "bob" "Bob" true false false)))
                         (Some (playerId (mkPlayer "alice" "Alice" true true false)))
                         "bob")]) ∧
    playerBoards s' !! "aaaa" = Some boards' ∧
    boards' !! "bob" = Some board' ∧
    (∀ r c x,
       at2 (default [] (default ∅ (playerBoards
               (stateAfter (startTrace "easy")) !! "aaaa") !! "bob")) r c
       = Some x →
       ∃ y, at2 board' r c = Some y ∧
            isMine y = isMine x ∧ isFlagged y = isFlagged x ∧
            adjacentMines y = adjacentMines x ∧
            (isMine x = true → isRevealed y = true) ∧
            (isMine x = false → y = x)) ∧
    (∀ r c,
       at2 (default [] (default ∅ (playerBoards
               (stateAfter (startTrace "easy")) !! "aaaa") !! "bob")) r c
       = None → at2 board' r c = None) ∧
    (∀ other, other ≠ "bob" →
       boards' !! other
       = default ∅ (playerBoards (stateAfter (startTrace "easy")) !! "aaaa")
           !! other) ∧
    boards' !! playerId (mkPlayer "alice" "Alice" true true false)
    = default ∅ (playerBoards (stateAfter (startTrace "easy")) !! "aaaa")
        !! playerId (mkPlayer "alice" "Alice" true true false) ∧
    mapGet "aaaa" (rooms s') = Some room' ∧
    gameState room' = Finished ∧
    players room' = players (default (mkRoom EmptyString EmptyString [] Waiting 0 None None)
                               (mapGet "aaaa" (rooms (stateAfter (startTrace "easy"))))).
Proof.
  apply (cellClick_mine_ends_game (stateAfter (startTrace "easy")) "bob" "aaaa"
           5 6 _ _ _ (mkCell true false false 0)
           (mkPlayer "bob" "Bob" true false false)
           (mkPlayer "alice" "Alice" true true false)).
  - vm_compute. reflexivity.
  - vm_compute. reflexivity.
  - vm_compute. reflexivity.
  - vm_compute. reflexivity.
  - vm_compute. reflexivity.
  - reflexivity.
  - reflexivity.
  - reflexivity.
  - vm_compute. intros H. discriminate H.
  - right. vm_compute. reflexivity.
Defined.

Lemma progressTable_runs ps (boards : gmap string Board) st :
  (∀ p b, p ∈ ps → boards !! playerId p = Some b →
          hasDims (rows st) (cols st) b) →
  ∃ table, progressTable ps boards st = Ok table.
Proof.
  intros Hall. unfold progressTable. apply forEach_runs.
  intros p table Hp.
  destruct (boards !! playerId p) as [pb|] eqn:Hpb; [|eauto].
  rewrite (getPlayerProgress_scan pb) by apply (Hall _ _ Hp Hpb).
  res_simpl. eauto.
Qed.

(** C9: in a playing room whose boards have the shape of its settings, a
    cellClick or a cellFlag of a player who holds a board throws exactly
    when the coordinates lie outside the board: the handlers read
    board[row][col] unguarded, and coordinates inside the board are what
    makes them safe. *)
Theorem cell_handlers_throw_iff_out_of_bounds (s : Server) socketId id row col
    room (boards : gmap string Board) (board : Board) st :
  mapGet id (rooms s) = Some room →
  gameState room = Playing →
  playerBoards s !! id = Some boards →
  boards !! socketId = Some board →
  getDifficultySettings (difficulty room) = Own st →
  map_Forall (λ _ b, hasDims (rows st) (cols st) b) boards →
  (cellClick socketId id row col s = Thrown ↔
   inBounds (rows st) (cols st) row col = false) ∧
  (cellFlag socketId id row col s = Thrown ↔
   inBounds (rows st) (cols st) row col = false) ∧
  (inBounds (rows st) (cols st) row col = true →
   (∃ step, cellClick socketId id row col s = Ok step) ∧
   (∃ step, cellFlag socketId id row col s = Ok step)).
Proof.
  intros Hroom Hplaying Hboards Hboard Hst Hall.
  pose proof (Hall _ _ Hboard) as Hdims. cbn beta in Hdims.
  assert (inBounds (rows st) (cols st) row col = false →
          cellClick socketId id row col s = Thrown ∧
          cellFlag socketId id row col s = Thrown) as Hout.
  { intros Hout. apply (at2_out_of_bounds _ _ board) in Hout; [|done].
    unfold cellClick, cellFlag. rewrite Hroom, Hplaying.
    rewrite bool_decide_eq_true_2 by done. cbn [negb].
    by rewrite Hboards, Hboard, Hout. }
  assert (inBounds (rows st) (cols st) row col = true →
          (∃ step, cellClick socketId id row col s = Ok step) ∧
          (∃ step, cellFlag socketId id row col s = Ok step)) as Hin.
  { intros Hin. destruct (hasDims_at2 _ _ _ _ _ Hdims Hin) as [cell Hcell].
    unfold cellClick, cellFlag. rewrite Hroom, Hplaying.
    rewrite bool_decide_eq_true_2 by done. cbn [negb].
    rewrite Hboards, Hboard, Hcell, Hst. res_simpl. split.
    - destruct (isFlagged cell); [eauto|].
      destruct (isMine cell); [eauto|].
      destruct (floodReveal_runs board row col _ _ Hdims)
        as (board' & Hflood & Hdims').
      rewrite Hflood. res_simpl.
      rewrite (checkWin_scan board') by done. res_simpl.
      destruct (forallb _ (mjoin board')); [eauto|].
      rewrite (getPlayerProgress_scan board') by done. res_simpl.
      destruct (progressTable_runs (players room)
                  (<[socketId := board']> boards) st) as [table Htable].
      { intros p b _.
        apply (map_Forall_insert_2
                 (λ (_ : string) b, hasDims (rows st) (cols st) b)
                 boards socketId board' Hdims' Hall). }
      rewrite Htable. res_simpl. eauto.
    - destruct (isRevealed cell); [eauto|].
      rewrite (getPlayerProgress_scan (set2 toggleFlag board row col))
        by (by apply hasDims_set2).
      res_simpl. eauto. }
  split; [|split; [|exact Hin]].
  - split; [|by intros H; apply Hout].
    intros Hthrown. destruct (inBounds _ _ row col) eqn:Hb; [|done].
    destruct (Hin eq_refl) as [[step Hstep] _]. congruence.
  - split; [|by intros H; apply Hout].
    intros Hthrown. destruct (inBounds _ _ row col) eqn:Hb; [|done].
    destruct (Hin eq_refl) as [_ [step Hstep]]. congruence.
Qed.

Lemma cell_handlers_throw_iff_out_of_bounds_witness :
  (cellClick "bob" "aaaa" 8 0 (stateAfter (startTrace "easy")) = Thrown ↔
   inBounds (rows easy) (cols easy) 8 0 = false) ∧
  (cellFlag "bob" "aaaa" 8 0 (stateAfter (startTrace "easy")) = Thrown ↔
   inBounds (rows easy) (cols easy) 8 0 = false) ∧
  (inBounds (rows easy) (cols easy) 8 0 = true →
   (∃ step, cellClick "bob" "aaaa" 8 0 (stateAfter (startTrace "easy")) = Ok step) ∧
   (∃ step, cellFlag "bob" "aaaa" 8 0 (stateAfter (startTrace "easy")) = Ok step)).
Proof.
  eapply (cell_handlers_throw_iff_out_of_bounds
            (stateAfter (startTrace "easy")) "bob" "aaaa" 8 0 _
            (default ∅ (playerBoards (stateAfter (startTrace "easy")) !! "aaaa"))).
  - vm_compute. reflexivity.
  - vm_compute. reflexivity.
  - vm_compute. reflexivity.
  - vm_compute. reflexivity.
  - vm_compute. reflexivity.
  - apply (bool_decide_unpack _). vm_compute. exact I.
Defined.

(** ** startGame and its countdown *)
Lemma dealBoards_keeps (board : Board) ps (m : gmap string Board) k :
  m !! k = Some board → dealBoards board ps m !! k = Some board.
Proof.
  unfold dealBoards. revert m. induction ps as [|p ps IH]; intros m Hk; [done|].
  cbn [foldl]. apply IH.
  destruct (decide (playerId p = k)) as [->|Hne].
  - apply lookup_insert_eq.
  - by rewrite lookup_insert_ne.
Qed.

Lemma dealBoards_lookup (board : Board) ps (m : gmap string Board) p :
  p ∈ ps → dealBoards board ps m !! playerId p = Some board.
Proof.
  revert m. induction ps as [|q ps IH]; intros m Hp.
  - by apply elem_of_nil in Hp.
  - apply elem_of_cons in Hp as [->|Hp].
    + apply (dealBoards_keeps board ps). apply lookup_insert_eq.
    + by apply IH.
Qed.

Lemma forallb_app_true {A} (f : A → bool) (l k : list A) :
  forallb f l = true → forallb f k = true → forallb f (l ++ k)%list = true.
Proof. intros Hl Hk. rewrite forallb_app, Hl, Hk. done. Qed.

Lemma findPlayer_Some id ps p :
  findPlayer id ps = Some p → p ∈ ps ∧ playerId p = id.
Proof.
  unfold findPlayer. intros H. apply find_some in H as [Hin Hid].
  apply bool_decide_eq_true in Hid. split; [|done]. by apply list_elem_of_In.
Qed.

Lemma findPlayer_None id ps p :
  findPlayer id ps = None → p ∈ ps → playerId p ≠ id.
Proof.
  unfold findPlayer. intros H Hin Hid.
  apply list_elem_of_In in Hin.
  pose proof (find_none _ _ H p Hin) as Hf. cbn in Hf.
  by apply bool_decide_eq_false in Hf.
Qed.


(** ** The progress table *)
Lemma progressTable_fold ps (boards : gmap string Board) st
    (table0 : gmap string Percent) :
  (∀ p b, p ∈ ps → boards !! playerId p = Some b →
          hasDims (rows st) (cols st) b) →
  ∃ table,
    forEach ps
      (λ p table,
         match boards !! playerId p with
         | Some pb =>
             progress ← getPlayerProgress pb (rows st) (cols st) (mines st);
             Ok (<[playerId p := progress]> table)
         | None => Ok table
         end) table0 = Ok table ∧
    ∀ k, table !! k
         = match findPlayer k ps, boards !! k with
           | Some _, Some b => Some (progressOf st b)
           | _, _ => table0 !! k
           end.
Proof.
  revert table0. induction ps as [|p ps IH]; intros table0 Hdims.
  - exists table0. split; [done|]. intros k. cbn. by destruct (boards !! k).
  - cbn [forEach].
    assert (∀ q b, q ∈ ps → boards !! playerId q = Some b →
                   hasDims (rows st) (cols st) b) as Hdims'
      by (intros q b Hq; apply Hdims; by right).
    destruct (boards !! playerId p) as [pb|] eqn:Hpb.
    + rewrite (getPlayerProgress_scan pb) by (apply (Hdims p); [by left|done]).
      res_simpl. fold (progressOf st pb).
      destruct (IH (<[playerId p := progressOf st pb]> table0) Hdims')
        as (table & Hrun & Htable).
      exists table. split; [done|]. intros k. rewrite Htable.
      unfold findPlayer. cbn [find].
      destruct (decide (playerId p = k)) as [<-|Hne].
      * rewrite bool_decide_eq_true_2 by done. rewrite Hpb.
        fold (findPlayer (playerId p) ps).
        destruct (findPlayer (playerId p) ps); [done|].
        apply lookup_insert_eq.
      * rewrite bool_decide_eq_false_2 by done.
        fold (findPlayer k ps).
        destruct (findPlayer k ps), (boards !! k); try done;
          by rewrite lookup_insert_ne.
    + res_simpl. destruct (IH table0 Hdims') as (table & Hrun & Htable).
      exists table. split; [done|]. intros k. rewrite Htable.
      unfold findPlayer. cbn [find].
      destruct (decide (playerId p = k)) as [<-|Hne].
      * rewrite bool_decide_eq_true_2 by done. rewrite Hpb.
        fold (findPlayer (playerId p) ps).
        by destruct (findPlayer (playerId p) ps).
      * rewrite bool_decide_eq_false_2 by done. done.
Qed.

Lemma progressTable_lookup ps (boards : gmap string Board) st :
  map_Forall (λ _ b, hasDims (rows st) (cols st) b) boards →
  ∃ table,
    progressTable ps boards st = Ok table ∧
    ∀ k, table !! k
         = match findPlayer k ps with
           | Some _ => progressOf st <$> boards !! k
           | None => None
           end.
Proof.
  intros Hall.
  destruct (progressTable_fold ps boards st ∅) as (table & Hrun & Htable).
  { intros p b _ Hb. by apply (Hall _ _ Hb). }
  exists table. split; [done|]. intros k. rewrite Htable.
  destruct (findPlayer k ps), (boards !! k); by rewrite ?lookup_empty.
Qed.





Section Countdown.
Context (o : Oracle) (i : nat).




End Countdown.







(** The handlers do not wait for the countdown: two ticks in, Bob steps on
    the mine at row 5, column 6, and the room is finished while its
    countdown stands at 3; the three ticks left still send gameStarted, to a
    room that stays finished. *)
Lemma cellClick_ends_game_during_countdown :
  ∃ s2 sent2 s3 sent3 s4 sent4,
    tickTimes sampleOracle 0 2 (stateAfter (startTrace "easy")) = Ok (s2, sent2) ∧
    cellClick "bob" "aaaa" 5 6 s2 = Ok (s3, sent3) ∧
    (gameState <$> mapGet "aaaa" (rooms s3)) = Some Finished ∧
    (countdown <$> head (timers s3)) = Some 3 ∧
    tickTimes sampleOracle 0 3 s3 = Ok (s4, sent4) ∧
    existsb isGameStarted sent4 = true ∧
    (gameState <$> mapGet "aaaa" (rooms s4)) = Some Finished.
Proof.
  eexists _, _, _, _, _, _.
  split; [vm_compute; reflexivity|].
  split; [vm_compute; reflexivity|].
  split; [vm_compute; reflexivity|].
  split; [vm_compute; reflexivity|].
  split; [vm_compute; reflexivity|].
  split; vm_compute; reflexivity.
Qed.

(** ** returnToLobby *)

(** C8, at the input where the code departs from it: the game has ended
    (Bob stepped on a mine, the room is in state finished) and Alice has
    asked to play again; her returnToLobby only takes her out of the room
    and answers returnedToLobby. No room is created and no movedToNewRoom
    is sent, because the handler tests for the state post_game. *)
Theorem returnToLobby_after_game_only_leaves :
  run sampleDraw rematchTrace initialServer = Ok (stateAfter rematchTrace) ∧
  (gameState <$> mapGet "aaaa" (rooms (stateAfter rematchTrace)))
  = Some Finished ∧
  (mapGet "aaaa" (rooms (stateAfter rematchTrace))
     ≫= λ room, wantsToPlayAgain <$> findPlayer "alice" (players room))
  = Some true ∧
  ∃ s',
    returnToLobby laterOracle "alice" "aaaa" (stateAfter rematchTrace)
    = Ok (s', [(toOthers "aaaa" "alice", playerLeft "alice");
               (toSocket "alice", returnedToLobby)]) ∧
    (fst <$> rooms s') = ["aaaa"] ∧
    (mapGet "aaaa" (rooms s') ≫= λ room, Some (playerId <$> players room))
    = Some ["bob"].
Proof.
  split; [vm_compute; reflexivity|].
  split; [vm_compute; reflexivity|].
  split; [vm_compute; reflexivity|].
  eexists. split; [vm_compute; reflexivity|].
  split; vm_compute; reflexivity.
Qed.

(** ** What every reachable state keeps *)
Lemma Forall_mapSet {V} (P : string * V → Prop) k v m :
  Forall P m → P (k, v) → Forall P (mapSet k v m).
Proof.
  intros Hm Hv. apply Forall_forall. intros kv Hin.
  apply elem_of_mapSet in Hin as [->|Hin]; [done|].
  by apply (proj1 (Forall_forall P m) Hm).
Qed.

Lemma Forall_mapDelete {V} (P : string * V → Prop) k (m : list (string * V)) :
  Forall P m → Forall P (mapDelete k m).
Proof.
  intros Hm. unfold mapDelete. apply Forall_forall. intros kv Hin.
  apply list_elem_of_filter in Hin as [_ Hin].
  by apply (proj1 (Forall_forall P m) Hm).
Qed.

Lemma roomsInvariant_get s id room :
  roomsInvariant s → mapGet id (rooms s) = Some room →
  gameState room ≠ PostGame ∧ (length (players room) ≤ 2)%nat.
Proof.
  intros Hinv Hget. apply mapGet_elem_of in Hget.
  apply (proj1 (Forall_forall _ _) Hinv _ Hget).
Qed.

Lemma length_removePlayer id ps :
  (length (removePlayer id ps) ≤ length ps)%nat.
Proof.
  induction ps as [|p ps IH]; [done|]. cbn.
  destruct (bool_decide (playerId p = id)); cbn; lia.
Qed.

Ltac res_inv H :=
  repeat match type of H with
         | (mbind _ _) = Ok _ =>
             let x := fresh "x" in
             let Hx := fresh "Hx" in
             apply bindRes_Ok in H as (x & Hx & H)
         end.

Lemma createRoom_invariant o socketId diff playerName s step :
  roomsInvariant s →
  createRoom o socketId diff playerName s = Ok step → roomsInvariant step.1.
Proof.
  intros Hinv [= <-]. apply Forall_mapSet; [done|]. unfold roomOk. cbn. split; [done|lia].
Qed.

Lemma joinRoom_invariant socketId id playerName s step :
  roomsInvariant s →
  joinRoom socketId id playerName s = Ok step → roomsInvariant step.1.
Proof.
  intros Hinv. unfold joinRoom.
  destruct (mapGet id (rooms s)) as [room|] eqn:Hroom; [|by intros [= <-]].
  destruct (roomsInvariant_get _ _ _ Hinv Hroom) as [Hstate Hlen].
  destruct (Nat.leb_spec 2 (length (players room))); intros [= <-]; [done|].
  apply Forall_mapSet; [done|]. unfold roomOk. cbn. split; [done|].
  rewrite length_app. cbn. lia.
Qed.

Lemma playerReady_invariant socketId id s step :
  roomsInvariant s →
  playerReady socketId id s = Ok step → roomsInvariant step.1.
Proof.
  intros Hinv. unfold playerReady.
  destruct (mapGet id (rooms s)) as [room|] eqn:Hroom; [|by intros [= <-]].
  destruct (roomsInvariant_get _ _ _ Hinv Hroom) as [Hstate Hlen].
  destruct (findPlayer socketId (players room)); [|by intros [= <-]].
  cbn [players setPlayers gameState].
  destruct (_ && _); [|destruct (bool_decide _)]; intros [= <-];
    (apply Forall_mapSet; [done|]); unfold roomOk; cbn; rewrite length_updatePlayer;
    split; done.
Qed.

Lemma startGame_invariant unitDraw fuel o socketId id s step :
  roomsInvariant s →
  startGame unitDraw fuel o socketId id s = Ok step → roomsInvariant step.1.
Proof.
  intros Hinv. unfold startGame.
  destruct (mapGet id (rooms s)) as [room|] eqn:Hroom; [|by intros [= <-]].
  destruct (roomsInvariant_get _ _ _ Hinv Hroom) as [Hstate Hlen].
  destruct (_ <? _)%nat; [by intros [= <-]|].
  destruct (findPlayer socketId (players room)) as [player|];
    [|by intros [= <-]].
  destruct (negb (isAdmin player)); [by intros [= <-]|].
  destruct (getDifficultySettings (difficulty room)) as [st|key]; [|done].
  intros H. res_inv H. injection H as <-.
  apply Forall_mapSet; [done|]. unfold roomOk. cbn. split; done.
Qed.

Lemma tick_invariant o i s step :
  roomsInvariant s → tick o i s = Ok step → roomsInvariant step.1.
Proof.
  intros Hinv. unfold tick.
  destruct (timers s !! i) as [t|]; [|by intros [= <-]].
  destruct (_ <=? _); [|by intros [= <-]].
  intros H. res_inv H. by injection H as <-.
Qed.

Lemma cellClick_invariant socketId id row col s step :
  roomsInvariant s →
  cellClick socketId id row col s = Ok step → roomsInvariant step.1.
Proof.
  intros Hinv. unfold cellClick.
  destruct (mapGet id (rooms s)) as [room|] eqn:Hroom; [|by intros [= <-]].
  destruct (roomsInvariant_get _ _ _ Hinv Hroom) as [Hstate Hlen].
  destruct (negb _); [by intros [= <-]|].
  destruct (playerBoards s !! id) as [boards|]; [|by intros [= <-]].
  destruct (boards !! socketId) as [board|]; [|by intros [= <-]].
  intros H. res_inv H.
  destruct (isFlagged _); [by injection H as <-|].
  destruct (isMine _).
  { injection H as <-. apply Forall_mapSet; [done|]. unfold roomOk. cbn. split; done. }
  destruct (getDifficultySettings (difficulty room)) as [st|key]; [|done].
  res_inv H. destruct x1.
  - injection H as <-. apply Forall_mapSet; [done|]. unfold roomOk. cbn. split; done.
  - res_inv H. by injection H as <-.
Qed.

Lemma cellFlag_invariant socketId id row col s step :
  roomsInvariant s →
  cellFlag socketId id row col s = Ok step → roomsInvariant step.1.
Proof.
  intros Hinv. unfold cellFlag.
  destruct (mapGet id (rooms s)) as [room|] eqn:Hroom; [|by intros [= <-]].
  destruct (negb _); [by intros [= <-]|].
  destruct (playerBoards s !! id) as [boards|]; [|by intros [= <-]].
  destruct (boards !! socketId) as [board|]; [|by intros [= <-]].
  intros H. res_inv H.
  destruct (isRevealed _); [by injection H as <-|].
  res_inv H. by injection H as <-.
Qed.

Lemma playAgain_invariant o socketId id s step :
  roomsInvariant s →
  playAgain o socketId id s = Ok step → roomsInvariant step.1.
Proof.
  intros Hinv. unfold playAgain.
  destruct (mapGet id (rooms s)) as [room|] eqn:Hroom; [|by intros [= <-]].
  destruct (roomsInvariant_get _ _ _ Hinv Hroom) as [Hstate Hlen].
  destruct (findPlayer socketId (players room)); [|by intros [= <-]].
  cbn [players setPlayers].
  destruct (allWantToPlayAgain _); intros [= <-];
    (apply Forall_mapSet; [done|]); unfold roomOk; cbn;
    rewrite ?length_map, length_updatePlayer; split; done.
Qed.

Lemma leaveRoom_invariant registered socketId id room s :
  roomsInvariant s →
  gameState room ≠ PostGame → (length (players room) ≤ 2)%nat →
  roomsInvariant (leaveRoom registered socketId id room s).1.
Proof.
  intros Hinv Hstate Hlen. unfold leaveRoom.
  destruct (findPlayer socketId (players room)); [|done].
  pose proof (length_removePlayer socketId (players room)).
  assert (Forall roomOk
            (rooms (setPlayerBoards
                      (alter (delete socketId) id (playerBoards s))
                      (if registered
                       then putRoom id
                              (setPlayers (removePlayer socketId (players room))
                                 room) s
                       else s)))) as Hinv'.
  { destruct registered; cbn; [|done].
    apply Forall_mapSet; [done|]. unfold roomOk. cbn. split; [done|lia]. }
  cbn [players setPlayers].
  destruct (bool_decide _); cbn [fst rooms]; [|done].
  by apply Forall_mapDelete.
Qed.

Lemma returnToLobby_invariant o socketId id s step :
  roomsInvariant s →
  returnToLobby o socketId id s = Ok step → roomsInvariant step.1.
Proof.
  intros Hinv. unfold returnToLobby.
  destruct (mapGet id (rooms s)) as [room|] eqn:Hroom; [|by intros [= <-]].
  destruct (roomsInvariant_get _ _ _ Hinv Hroom) as [Hstate Hlen].
  destruct (findPlayer socketId (players room)) as [p|]; [|by intros [= <-]].
  destruct (_ && _).
  - destruct (leaveRoom _ _ _ _ _) as [s2 sent] eqn:Hleave.
    intros [= <-]. cbn [fst].
    change s2 with (s2, sent).1. rewrite <- Hleave.
    apply leaveRoom_invariant; [|done|done].
    apply Forall_mapSet; [done|]. unfold roomOk. cbn. split; [done|lia].
  - destruct (leaveRoom _ _ _ _ _) as [s1 sent] eqn:Hleave.
    intros [= <-]. cbn [fst].
    change s1 with (s1, sent).1. rewrite <- Hleave.
    by apply leaveRoom_invariant.
Qed.

Lemma disconnect_invariant o socketId s step :
  roomsInvariant s →
  disconnect o socketId s = Ok step → roomsInvariant step.1.
Proof.
  intros Hinv. unfold disconnect.
  destruct (find _ (rooms s)) as [[id room]|] eqn:Hfind; [|by intros [= <-]].
  intros [= <-].
  apply find_some in Hfind as [Hin _]. apply list_elem_of_In in Hin.
  destruct (proj1 (Forall_forall _ _) Hinv _ Hin) as [Hstate Hlen].
  cbn [snd] in Hstate, Hlen.
  pose proof (length_removePlayer socketId (players room)).
  unfold disconnectFrom. cbn [players setPlayers gameState].
  assert (Forall roomOk
            (mapSet id (setPlayers (removePlayer socketId (players room)) room)
               (rooms s))) as Hinv1.
  { apply Forall_mapSet; [done|]. unfold roomOk. cbn. split; [done|lia]. }
  destruct (bool_decide (removePlayer socketId (players room) = [])).
  { cbn. by apply Forall_mapDelete. }
  destruct (bool_decide (gameState room = Playing)).
  { cbn. apply Forall_mapSet; [done|]. unfold roomOk. cbn. split; [done|lia]. }
  destruct (bool_decide (gameState room = PostGame)); [|done].
  destruct (head _) as [remaining|]; [|done].
  destruct (wantsToPlayAgain remaining); [|done].
  cbn. apply Forall_mapSet; [done|]. unfold roomOk. cbn. split; [done|lia].
Qed.

Lemma handle_invariant unitDraw o i s step :
  roomsInvariant s → handle unitDraw o i s = Ok step → roomsInvariant step.1.
Proof.
  destruct i; cbn [handle];
    eauto using createRoom_invariant, joinRoom_invariant,
      playerReady_invariant, startGame_invariant, cellClick_invariant,
      cellFlag_invariant, playAgain_invariant, returnToLobby_invariant,
      disconnect_invariant, tick_invariant.
Qed.

Lemma run_invariant unitDraw inputs :
  ∀ s s', roomsInvariant s → run unitDraw inputs s = Ok s' → roomsInvariant s'.
Proof.
  induction inputs as [|[o i] inputs IH]; intros s s' Hinv; cbn [run].
  - by intros [= <-].
  - intros H. apply bindRes_Ok in H as (step & Hstep & H).
    eapply IH; [|exact H]. by eapply handle_invariant.
Qed.

(** No reachable room is in state post_game, and no reachable room has more
    than two players. *)
Lemma reachable_invariant unitDraw s :
  reachable unitDraw s → roomsInvariant s.
Proof.
  intros [inputs Hrun]. eapply run_invariant; [|exact Hrun]. constructor.
Qed.

(** In a reachable state returnToLobby never moves the player to a new
    room: the branch that would is dead. *)
Lemma returnToLobby_never_moves unitDraw o socketId id s step :
  reachable unitDraw s →
  returnToLobby o socketId id s = Ok step →
  existsb isMovedToNewRoom step.2 = false.
Proof.
  intros Hreach. apply reachable_invariant in Hreach. unfold returnToLobby.
  destruct (mapGet id (rooms s)) as [room|] eqn:Hroom; [|by intros [= <-]].
  destruct (roomsInvariant_get _ _ _ Hreach Hroom) as [Hstate _].
  destruct (findPlayer socketId (players room)) as [p|]; [|by intros [= <-]].
  rewrite (bool_decide_eq_false_2 (gameState room = PostGame)) by done.
  rewrite andb_false_r.
  unfold leaveRoom. destruct (findPlayer socketId (players room));
    by intros [= <-].
Qed.

(** * Further properties of the board engine *)

(** ** The adjacency pass counts the mines around each safe cell *)
Lemma mineAt_out_of_bounds (board : Board) rows cols r c :
  hasDims rows cols board → inBounds rows cols r c = false →
  mineAt board r c = false.
Proof.
  intros Hd Hout. unfold mineAt.
  by rewrite (at2_out_of_bounds rows cols board r c Hd Hout).
Qed.

Lemma countAdjacent_fold (board : Board) rows cols r c (l : list (Z * Z)) acc :
  hasDims rows cols board →
  forEach l
    (λ d count,
       if (0 <=? r + d.1) && (r + d.1 <? rows) &&
          (0 <=? c + d.2) && (c + d.2 <? cols)
       then cell ← defined (at2 board (r + d.1) (c + d.2));
            Ok (if isMine cell then count + 1 else count)
       else Ok count)
    acc
  = Ok (acc + Z.of_nat (length (filter (λ d : Z * Z,
                                   mineAt board (r + d.1) (c + d.2) = true) l))).
Proof.
  intros Hd. revert acc. induction l as [|d l IH]; intros acc.
  - cbn. f_equal. lia.
  - cbn [forEach]. cbn beta. rewrite filter_cons.
    fold (inBounds rows cols (r + d.1) (c + d.2)).
    destruct (inBounds rows cols (r + d.1) (c + d.2)) eqn:Hin.
    + destruct (hasDims_at2 _ _ _ _ _ Hd Hin) as [cell Hcell].
      rewrite Hcell. res_simpl. rewrite IH.
      assert (mineAt board (r + d.1) (c + d.2) = isMine cell) as ->
        by (unfold mineAt; by rewrite Hcell).
      destruct (isMine cell).
      * rewrite decide_True by done. cbn [length]. f_equal. lia.
      * rewrite decide_False by done. done.
    + res_simpl. rewrite IH.
      rewrite (mineAt_out_of_bounds board rows cols _ _ Hd Hin).
      rewrite decide_False by done. done.
Qed.

Lemma countAdjacent_neighbours (board : Board) rows cols r c :
  hasDims rows cols board → mineAt board r c = false →
  countAdjacent board rows cols r c = Ok (neighbourMines board r c).
Proof.
  intros Hd Hsafe. unfold countAdjacent.
  rewrite (countAdjacent_fold board rows cols r c offsets9 0 Hd).
  f_equal. unfold neighbourMines. rewrite offsets8_eq.
  change offsets9 with ([(-1, -1); (-1, 0); (-1, 1); (0, -1)] ++
                        (0, 0) :: [(0, 1); (1, -1); (1, 0); (1, 1)])%list.
  change [(-1, -1); (-1, 0); (-1, 1); (0, -1); (0, 1); (1, -1); (1, 0); (1, 1)]
    with ([(-1, -1); (-1, 0); (-1, 1); (0, -1)] ++
          [(0, 1); (1, -1); (1, 0); (1, 1)])%list.
  rewrite !filter_app.
  assert (filter (λ d : Z * Z, mineAt board (r + d.1) (c + d.2) = true)
            [(0, 0); (0, 1); (1, -1); (1, 0); (1, 1)]
          = filter (λ d : Z * Z, mineAt board (r + d.1) (c + d.2) = true)
              [(0, 1); (1, -1); (1, 0); (1, 1)]) as ->; [|done].
  apply filter_cons_False. cbn [fst snd]. rewrite !Z.add_0_r, Hsafe. done.
Qed.

(** What the passes of the generator do to a cell. *)
Lemma placeMines_only_mines unitDraw fuel seed rows cols mines safeZone counter
    placed (board board' : Board) :
  placeMines unitDraw fuel seed rows cols mines safeZone counter placed board
  = Ok board' →
  ∀ r c y, at2 board' r c = Some y →
           ∃ x, at2 board r c = Some x ∧ (y = x ∨ y = withMine x).
Proof.
  revert counter placed board.
  induction fuel as [|fuel IH]; intros counter placed board.
  - cbn [placeMines]. destruct (placed <? mines); [done|].
    intros [= <-] r c y Hy. eauto.
  - destruct (Z.ltb_spec placed mines) as [Hlt|Hge].
    2:{ rewrite placeMines_done by done. intros [= <-] r c y Hy. eauto. }
    rewrite placeMines_step by done. cbn zeta.
    destruct (at2 board _ _) as [cell|] eqn:Hcell; res_simpl; [|done].
    destruct (negb (isMine cell) && negb _); [|by apply IH].
    intros Hrun r c y Hy.
    destruct (IH _ _ _ Hrun r c y Hy) as (x1 & Hx1 & Hy1).
    set (r0 := random unitDraw seed counter 0 (rows - 1)) in *.
    set (c0 := random unitDraw seed (counter + 1) 0 (cols - 1)) in *.
    destruct (decide ((r0, c0) = (r, c))) as [Heq|Hne].
    + injection Heq as <- <-.
      rewrite (at2_set2_eq _ _ _ _ _ Hcell) in Hx1. injection Hx1 as <-.
      exists cell. split; [done|]. right.
      destruct Hy1 as [-> | ->]; done.
    + apply at2_Some in Hcell as Hpos. destruct Hpos as (? & ? & _).
      rewrite at2_set2_ne in Hx1 by done. eauto.
Qed.

Lemma hasDims_lookup_dims {A} rows cols (m m' : list (list A)) :
  hasDims rows cols m →
  length m' = length m →
  (∀ i row', m' !! i = Some row' →
             ∃ row, m !! i = Some row ∧ length row' = length row) →
  hasDims rows cols m'.
Proof.
  intros (Hr & Hc & Hlen & Hall) Hlen' Hrows.
  split; [done|]. split; [done|]. split; [lia|].
  apply Forall_lookup. intros i row' Hrow'.
  destruct (Hrows i row' Hrow') as (row & Hrow & ->).
  by apply (proj1 (Forall_lookup _ _) Hall i row).
Qed.

Lemma placeMines_dims unitDraw fuel seed rows cols mines safeZone counter
    placed (board board' : Board) :
  hasDims rows cols board →
  placeMines unitDraw fuel seed rows cols mines safeZone counter placed board
  = Ok board' →
  hasDims rows cols board'.
Proof.
  revert counter placed board.
  induction fuel as [|fuel IH]; intros counter placed board Hd.
  - cbn [placeMines]. destruct (placed <? mines); [done|]. by intros [= <-].
  - destruct (Z.ltb_spec placed mines) as [Hlt|Hge].
    2:{ rewrite placeMines_done by done. by intros [= <-]. }
    rewrite placeMines_step by done. cbn zeta.
    destruct (at2 board _ _) as [cell|]; res_simpl; [|done].
    destruct (negb (isMine cell) && negb _); apply IH; [|done].
    by apply hasDims_set2.
Qed.

(** A loop whose invariant may speak of the elements already visited. *)
Lemma forEach_prefix {A S} (I : list A → S → Prop) (l : list A)
    (body : A → S → Res S) (s : S) :
  I [] s →
  (∀ pre x post s, l = (pre ++ x :: post)%list → I pre s →
                   ∃ s', body x s = Ok s' ∧ I (pre ++ [x])%list s') →
  ∃ s', forEach l body s = Ok s' ∧ I l s'.
Proof.
  revert I s. induction l as [|x l IH]; intros I s H0 Hstep.
  - cbn. eauto.
  - destruct (Hstep [] x l s eq_refl H0) as (s1 & Hb & H1).
    cbn [forEach]. rewrite Hb. res_simpl.
    apply (IH (λ pre, I (x :: pre))); [exact H1|].
    intros pre y post s2 -> H2.
    apply (Hstep (x :: pre) y post s2); done.
Qed.

Lemma neighbourMines_ext (board board' : Board) r c :
  (∀ r c, mineAt board' r c = mineAt board r c) →
  neighbourMines board' r c = neighbourMines board r c.
Proof.
  intros Hsame. unfold neighbourMines. do 2 f_equal.
  apply list_filter_iff. intros d. by rewrite Hsame.
Qed.

Lemma mineAt_hasDims_ext rows cols (board board' : Board) :
  hasDims rows cols board → hasDims rows cols board' →
  (∀ r c x, at2 board r c = Some x →
            ∃ y, at2 board' r c = Some y ∧ isMine y = isMine x) →
  ∀ r c, mineAt board' r c = mineAt board r c.
Proof.
  intros Hd Hd' Hrel r c. unfold mineAt.
  destruct (at2 board r c) as [x|] eqn:Hx.
  - destruct (Hrel _ _ _ Hx) as (y & -> & Hy). done.
  - destruct (at2 board' r c) as [y|] eqn:Hy; [|done].
    apply (at2_hasDims rows cols) in Hy; [|done].
    destruct (hasDims_at2 _ _ _ _ _ Hd Hy) as [x' Hx']. congruence.
Qed.

Lemma bool_decide_snoc_ne (p q : Z * Z) (pre : list (Z * Z)) :
  p ≠ q → bool_decide (p ∈ (pre ++ [q])%list) = bool_decide (p ∈ pre).
Proof.
  intros Hne. apply bool_decide_ext.
  rewrite elem_of_app, list_elem_of_singleton. tauto.
Qed.

Lemma fillAdjacent_fills (board : Board) rows cols :
  hasDims rows cols board →
  ∃ board', fillAdjacent rows cols board = Ok board' ∧
            adjacencyFilled rows cols board (cells rows cols) board'.
Proof.
  intros Hd. unfold fillAdjacent.
  apply (forEach_prefix (adjacencyFilled rows cols board)).
  { split; [done|]. intros r c x Hx. exists x. split; [done|].
    repeat split; done. }
  intros pre [r0 c0] post b Hcells (Hdb & Hrel).
  assert (inBounds rows cols r0 c0 = true) as Hin.
  { apply elem_of_cells. rewrite Hcells. apply elem_of_app. right. by left. }
  cbn [fst snd].
  destruct (hasDims_at2 _ _ _ _ _ Hd Hin) as [x0 Hx0].
  destruct (Hrel _ _ _ Hx0) as (cell & Hcell & Hm0 & Hr0 & Hf0 & Ha0).
  rewrite Hcell. res_simpl.
  destruct (isMine cell) eqn:Hmine.
  - exists b. split; [done|]. split; [done|].
    intros r c x Hx. destruct (Hrel _ _ _ Hx) as (y & Hy & Hm & Hr & Hf & Ha).
    exists y. split; [done|]. repeat split; try done. rewrite Ha.
    destruct (decide ((r, c) = (r0, c0))) as [Heq|Hne].
    + injection Heq as -> ->.
      assert (isMine x = true) as -> by congruence.
      by rewrite !andb_false_r.
    + by rewrite bool_decide_snoc_ne.
  - assert (∀ r c, mineAt b r c = mineAt board r c) as Hsame.
    { apply (mineAt_hasDims_ext rows cols); [done|done|].
      intros r c x Hx. destruct (Hrel _ _ _ Hx) as (y & Hy & Hm & _). eauto. }
    rewrite (countAdjacent_neighbours b rows cols r0 c0 Hdb)
      by (unfold mineAt; by rewrite Hcell).
    res_simpl. eexists. split; [reflexivity|].
    split; [by apply hasDims_set2|].
    intros r c x Hx. destruct (Hrel _ _ _ Hx) as (y & Hy & Hm & Hr & Hf & Ha).
    destruct (decide ((r0, c0) = (r, c))) as [Heq|Hne].
    + injection Heq as <- <-.
      exists (withAdjacent (neighbourMines b r0 c0) cell).
      rewrite (at2_set2_eq _ _ _ _ _ Hcell). split; [done|].
      assert (y = cell) as -> by congruence.
      assert (x = x0) as -> by congruence.
      repeat split; try done. cbn [adjacentMines withAdjacent].
      rewrite bool_decide_eq_true_2
        by (apply elem_of_app; right; by left).
      rewrite <- Hm0. cbn. by apply neighbourMines_ext.
    + exists y. apply at2_Some in Hcell as Hpos. destruct Hpos as (? & ? & _).
      rewrite at2_set2_ne by done. split; [done|].
      repeat split; try done. rewrite Ha.
      by rewrite bool_decide_snoc_ne by congruence.
Qed.

(** A board that the generator returns: nothing is revealed or flagged, and
    the numbers are those of the mines around each safe cell. *)
Lemma generateBoardWithSeed_numbers unitDraw fuel seed rows cols mines
    safeR safeC (board : Board) :
  0 ≤ rows → 0 ≤ cols →
  generateBoardWithSeed unitDraw fuel seed rows cols mines safeR safeC
  = Ok board →
  adjacencyCorrect board ∧ untouched board.
Proof.
  intros Hr Hc. unfold generateBoardWithSeed. cbn zeta.
  intros H. apply bindRes_Ok in H as (placed & Hplaced & Hfill).
  pose proof (hasDims_replicate rows cols blankCell Hr Hc) as Hblank.
  fold (blankBoard rows cols) in Hblank.
  pose proof (placeMines_dims _ _ _ _ _ _ _ _ _ _ _ Hblank Hplaced) as Hd.
  pose proof (placeMines_only_mines _ _ _ _ _ _ _ _ _ _ _ Hplaced) as Honly.
  destruct (fillAdjacent_fills placed rows cols Hd)
    as (board' & Hfill' & Hd' & Hrel).
  assert (board' = board) as -> by congruence.
  assert (∀ r c, mineAt board r c = mineAt placed r c) as Hsame.
  { apply (mineAt_hasDims_ext rows cols); [done|done|].
    intros r c x Hx. destruct (Hrel _ _ _ Hx) as (y & Hy & Hm & _). eauto. }
  assert (∀ r c y, at2 board r c = Some y →
            ∃ x, at2 placed r c = Some x ∧
                 isMine y = isMine x ∧ isRevealed y = false ∧
                 isFlagged y = false ∧
                 adjacentMines y
                 = if isMine x then 0 else neighbourMines placed r c) as Hcells.
  { intros r c y Hy.
    pose proof (at2_hasDims _ _ _ _ _ _ Hd' Hy) as Hin.
    destruct (hasDims_at2 _ _ _ _ _ Hd Hin) as [x Hx].
    destruct (Hrel _ _ _ Hx) as (y' & Hy' & Hm & Hrv & Hf & Ha).
    assert (y' = y) as -> by congruence.
    destruct (Honly _ _ _ Hx) as (x0 & Hx0 & Hxx0).
    apply at2_replicate in Hx0 as ->.
    exists x. split; [done|]. split; [done|].
    rewrite Hrv, Hf, Ha.
    rewrite bool_decide_eq_true_2 by (by apply elem_of_cells).
    destruct Hxx0 as [-> | ->]; done. }
  split.
  - intros r c y Hy. destruct (Hcells _ _ _ Hy) as (x & _ & Hm & _ & _ & Ha).
    rewrite Ha, Hm. destruct (isMine x); [done|].
    symmetry. by apply neighbourMines_ext.
  - intros r c y Hy. destruct (Hcells _ _ _ Hy) as (x & _ & _ & Hrv & Hf & _).
    done.
Qed.

Lemma filter_length_zero {A} (P : A → Prop) `{∀ x, Decision (P x)} (l : list A) :
  length (filter P l) = 0%nat ↔ ∀ x, x ∈ l → ¬ P x.
Proof.
  induction l as [|a l IH].
  - split; [|done]. intros _ x Hx. by apply elem_of_nil in Hx.
  - rewrite filter_cons. destruct (decide (P a)) as [Ha|Ha].
    + split; [done|]. intros Hall. destruct (Hall a); [by left|done].
    + rewrite IH. split.
      * intros Hall x Hx. apply elem_of_cons in Hx as [->|Hx]; auto.
      * intros Hall x Hx. apply Hall. by right.
Qed.

Lemma neighbourMines_zero (board : Board) r c :
  neighbourMines board r c = 0 ↔
  ∀ d, d ∈ offsets8 → mineAt board (r + d.1) (c + d.2) = false.
Proof.
  unfold neighbourMines.
  assert (∀ k : nat, Z.of_nat k = 0 ↔ k = 0%nat) as -> by (intros k; lia).
  rewrite filter_length_zero.
  split; intros Hall d Hd; specialize (Hall d Hd).
  - by destruct (mineAt board _ _).
  - by rewrite Hall.
Qed.

(** X1: under the hypotheses of the generator's termination (draws in the
    unit interval that name enough distinct cells outside the safe zone
    within n rounds), the board that generateBoardWithSeed returns has no
    cell revealed or flagged, every cell that is not a mine carries the
    number of mines among its up to eight neighbours, every mine carries 0,
    and the safe cell, when it is on the board, is a safe cell with
    number 0. *)
Theorem generateBoardWithSeed_numbers_correct
    unitDraw seed rows cols mines safeR safeC (n : nat) :
  inUnitInterval unitDraw → 0 < rows → 0 < cols → 0 ≤ mines →
  (Z.to_nat mines
   ≤ size (drawnCells unitDraw seed rows cols 0 n
           ∖ safeZoneOf rows cols safeR safeC))%nat →
  ∃ board : Board,
    (∀ fuel, (n ≤ fuel)%nat →
       generateBoardWithSeed unitDraw fuel seed rows cols mines safeR safeC
       = Ok board) ∧
    untouched board ∧
    adjacencyCorrect board ∧
    (∀ cell, at2 board safeR safeC = Some cell →
             isMine cell = false ∧ adjacentMines cell = 0).
Proof.
  intros Hunit Hrows Hcols Hmines Hsize.
  destruct (generateBoardWithSeed_runs unitDraw seed rows cols mines safeR
              safeC n Hunit Hrows Hcols Hmines Hsize)
    as (board & Hrun & Hdims & _ & Hsafe).
  destruct (generateBoardWithSeed_numbers unitDraw n seed rows cols mines
              safeR safeC board) as [Hadj Hfresh]; [lia|lia|by apply Hrun|].
  exists board. split; [done|]. split; [done|]. split; [done|].
  intros cell Hcell.
  assert (isMine cell = false) as Hmine.
  { apply (Hsafe _ _ _ Hcell). apply elem_of_safeZoneOf. by left. }
  split; [done|]. rewrite (Hadj _ _ _ Hcell), Hmine.
  apply neighbourMines_zero. intros [dr dc] Hd. cbn [fst snd]. unfold mineAt.
  destruct (at2 board (safeR + dr) (safeC + dc)) as [y|] eqn:Hy; [|done].
  apply (Hsafe _ _ _ Hy). apply elem_of_safeZoneOf. right.
  apply elem_of_offsets8 in Hd as (? & ? & _).
  split; [by eapply at2_hasDims|]. lia.
Qed.

Lemma generateBoardWithSeed_numbers_correct_witness :
  ∃ board : Board,
    (∀ fuel, (10 ≤ fuel)%nat →
       generateBoardWithSeed sampleDraw fuel 0 3 3 2 0 0 = Ok board) ∧
    untouched board ∧
    adjacencyCorrect board ∧
    (∀ cell, at2 board 0 0 = Some cell →
             isMine cell = false ∧ adjacentMines cell = 0).
Proof.
  apply (generateBoardWithSeed_numbers_correct sampleDraw 0 3 3 2 0 0 10).
  - exact sampleDraw_unit.
  - lia.
  - lia.
  - lia.
  - vm_compute. lia.
Defined.

Ltac res_simpl_in H :=
  cbn [mbind Res_bind bindRes defined mret Res_ret] in H.

(** ** What the flood fill changes *)
Lemma floodLoop_step fuel rows cols cr cc stack visited (board : Board) :
  floodLoop (S fuel) rows cols ((cr, cc) :: stack) visited board
  = if (cr <? 0) || (rows <=? cr) || (cc <? 0) || (cols <=? cc)
    then floodLoop fuel rows cols stack visited board
    else
      seen ← defined (at2 visited cr cc);
      if seen : bool then floodLoop fuel rows cols stack visited board
      else
        cell ← defined (at2 board cr cc);
        if isRevealed cell || isFlagged cell
        then floodLoop fuel rows cols stack visited board
        else
          if (adjacentMines cell =? 0) && negb (isMine cell)
          then floodLoop fuel rows cols (pushNeighbours cr cc stack)
                 (set2 (λ _, true) visited cr cc)
                 (set2 withRevealed board cr cc)
          else floodLoop fuel rows cols stack
                 (set2 (λ _, true) visited cr cc)
                 (set2 withRevealed board cr cc).
Proof. reflexivity. Qed.

Lemma elem_of_pushNeighbours cr cc stack (q : Z * Z) :
  q ∈ pushNeighbours cr cc stack ↔
  q ∈ stack ∨ ∃ d, d ∈ offsets8 ∧ q = (cr + d.1, cc + d.2).
Proof.
  unfold pushNeighbours. generalize offsets8. intros l. revert stack.
  induction l as [|d l IH]; intros stack; cbn [foldl].
  - split; [auto|]. intros [H|(d & Hd & _)]; [done|]. by apply elem_of_nil in Hd.
  - rewrite IH, elem_of_cons. split.
    + intros [[-> | H]|(d' & Hd' & ->)].
      * right. exists d. split; [by left|done].
      * by left.
      * right. exists d'. split; [by right|done].
    + intros [H|(d' & Hd' & ->)]; [left; by right|].
      apply elem_of_cons in Hd' as [->|Hd']; [left; by left|].
      right. eauto.
Qed.

(** A cell after a reveal of [(cr, cc)]. *)
Lemma at2_reveal_inv (board : Board) cr cc cell r c y :
  at2 board cr cc = Some cell →
  at2 (set2 withRevealed board cr cc) r c = Some y →
  ∃ x, at2 board r c = Some x ∧
       (y = x ∨ ((r, c) = (cr, cc) ∧ x = cell ∧ y = withRevealed cell)).
Proof.
  intros Hcell Hy. destruct (decide ((cr, cc) = (r, c))) as [Heq|Hne].
  - injection Heq as <- <-.
    rewrite (at2_set2_eq _ _ _ _ _ Hcell) in Hy. injection Hy as <-.
    exists cell. split; [done|]. by right.
  - apply at2_Some in Hcell as Hpos. destruct Hpos as (? & ? & _).
    rewrite at2_set2_ne in Hy by done. eauto.
Qed.

Lemma mineAt_reveal (board : Board) cr cc cell r c :
  at2 board cr cc = Some cell →
  mineAt (set2 withRevealed board cr cc) r c = mineAt board r c.
Proof.
  intros Hcell. unfold mineAt.
  destruct (decide ((cr, cc) = (r, c))) as [Heq|Hne].
  - injection Heq as <- <-.
    by rewrite (at2_set2_eq _ _ _ _ _ Hcell), Hcell.
  - apply at2_Some in Hcell as Hpos. destruct Hpos as (? & ? & _).
    by rewrite at2_set2_ne.
Qed.

(** The loop leaves a cell as it was or reveals it, and it reveals only
    cells that were neither revealed nor flagged. *)
Lemma floodLoop_reveals fuel rows cols stack visited (board board' : Board)
    r c x :
  floodLoop fuel rows cols stack visited board = Ok board' →
  at2 board r c = Some x →
  ∃ y, at2 board' r c = Some y ∧
       (y = x ∨ (y = withRevealed x ∧ isClosed x = false)).
Proof.
  revert stack visited board x.
  induction fuel as [|fuel IH]; intros [|[cr cc] stack] visited board x;
    try (rewrite floodLoop_nil; intros [= <-] Hx; by eauto);
    [done|]. rewrite floodLoop_step.
  destruct ((cr <? 0) || (rows <=? cr) || (cc <? 0) || (cols <=? cc));
    [by apply IH|].
  destruct (at2 visited cr cc) as [[|]|]; res_simpl; [by apply IH| |done].
  destruct (at2 board cr cc) as [cell|] eqn:Hcell; res_simpl; [|done].
  destruct (isRevealed cell || isFlagged cell) eqn:Hclosed; [by apply IH|].
  intros Hrun Hx.
  assert (∃ x1, at2 (set2 withRevealed board cr cc) r c = Some x1 ∧
                (x1 = x ∨ (x1 = withRevealed x ∧ isClosed x = false)))
    as (x1 & Hx1 & Hrel1).
  { destruct (decide ((cr, cc) = (r, c))) as [Heq|Hne].
    - injection Heq as <- <-. exists (withRevealed cell).
      rewrite (at2_set2_eq _ _ _ _ _ Hcell). split; [done|].
      assert (x = cell) as -> by congruence. by right.
    - exists x. apply at2_Some in Hcell as Hpos.
      destruct Hpos as (? & ? & _). rewrite at2_set2_ne by done. auto. }
  assert (∃ y, at2 board' r c = Some y ∧
               (y = x1 ∨ (y = withRevealed x1 ∧ isClosed x1 = false)))
    as (y & Hy & Hrel).
  { destruct ((adjacentMines cell =? 0) && negb (isMine cell));
      by apply (IH _ _ _ _ Hrun). }
  exists y. split; [done|].
  destruct Hrel1 as [-> | [-> Hx0]]; [done|]. right.
  destruct Hrel as [-> | [-> Hbad]]; [done|]. discriminate Hbad.
Qed.

(** X2: on a rows by cols board floodReveal returns a board of the same
    shape in which every cell is the cell it was or that cell revealed; it
    reveals no cell that was flagged, takes no reveal back, changes no mine,
    flag or number, and an unflagged cell at the origin is revealed
    afterwards. *)
Theorem floodReveal_only_reveals (board : Board) r c rows cols :
  hasDims rows cols board →
  ∃ board',
    floodReveal board r c rows cols = Ok board' ∧
    hasDims rows cols board' ∧
    (∀ r0 c0 x, at2 board r0 c0 = Some x →
       ∃ y, at2 board' r0 c0 = Some y ∧
            (y = x ∨ (y = withRevealed x ∧
                      isRevealed x = false ∧ isFlagged x = false))) ∧
    (∀ x, at2 board r c = Some x → isFlagged x = false →
          ∃ y, at2 board' r c = Some y ∧ isRevealed y = true).
Proof.
  intros Hd. destruct (floodReveal_runs board r c rows cols Hd)
    as (board' & Hrun & Hd').
  exists board'. split; [done|]. split; [done|].
  assert (∀ r0 c0 x, at2 board r0 c0 = Some x →
            ∃ y, at2 board' r0 c0 = Some y ∧
                 (y = x ∨ (y = withRevealed x ∧ isClosed x = false)))
    as Hrel.
  { intros r0 c0 x Hx. unfold floodReveal, freshVisited in Hrun.
    destruct ((0 <? rows) && (cols <? 0)); [done|]. res_simpl.
    by eapply floodLoop_reveals. }
  split.
  - intros r0 c0 x Hx. destruct (Hrel _ _ _ Hx) as (y & Hy & Hy').
    exists y. split; [done|]. destruct Hy' as [->|[-> Hc]]; [by left|].
    right. unfold isClosed in Hc. apply orb_false_elim in Hc. tauto.
  - intros x Hx Hflag. destruct (Hrel _ _ _ Hx) as (y & Hy & Hy').
    exists y. split; [done|]. destruct Hy' as [->|[-> _]]; [|done].
    destruct (isRevealed x) eqn:Hrev; [done|]. exfalso.
    unfold floodReveal, freshVisited in Hrun.
    destruct Hd as (Hr & Hc & Hlen).
    replace ((0 <? rows) && (cols <? 0)) with false in Hrun
      by (symmetry; apply andb_false_intro2; lia).
    res_simpl_in Hrun. unfold floodFuel in Hrun.
    rewrite floodLoop_step in Hrun.
    pose proof (at2_hasDims _ _ _ _ _ _ Hd' Hy) as Hin.
    unfold inBounds in Hin. repeat (apply andb_prop in Hin as [Hin ?]).
    replace ((r <? 0) || (rows <=? r) || (c <? 0) || (cols <=? c)) with false
      in Hrun by (symmetry; repeat (apply orb_false_intro); lia).
    destruct (at2 (replicate _ _) r c) as [seen|] eqn:Hseen;
      res_simpl_in Hrun; [|done].
    apply at2_replicate in Hseen as ->.
    rewrite Hx in Hrun. res_simpl_in Hrun. rewrite Hrev, Hflag in Hrun.
    cbn [orb] in Hrun.
    assert (∃ z, at2 board' r c = Some z ∧
              (z = withRevealed x ∨
               (z = withRevealed (withRevealed x) ∧
                isClosed (withRevealed x) = false)))
      as (z & Hz & Hz').
    { destruct ((adjacentMines x =? 0) && negb (isMine x));
        apply (floodLoop_reveals _ _ _ _ _ _ _ r c (withRevealed x) Hrun);
        by apply at2_set2_eq. }
    rewrite Hy in Hz. injection Hz as <-.
    destruct Hz' as [Hz'|[Hz' _]]; apply (f_equal isRevealed) in Hz';
      cbn in Hz'; congruence.
Qed.

Lemma floodReveal_only_reveals_witness :
  ∃ board',
    floodReveal tinyBoard 1 1 2 2 = Ok board' ∧
    hasDims 2 2 board' ∧
    (∀ r0 c0 x, at2 tinyBoard r0 c0 = Some x →
       ∃ y, at2 board' r0 c0 = Some y ∧
            (y = x ∨ (y = withRevealed x ∧
                      isRevealed x = false ∧ isFlagged x = false))) ∧
    (∀ x, at2 tinyBoard 1 1 = Some x → isFlagged x = false →
          ∃ y, at2 board' 1 1 = Some y ∧ isRevealed y = true).
Proof.
  apply (floodReveal_only_reveals tinyBoard 1 1 2 2).
  apply (bool_decide_unpack _). vm_compute. exact I.
Defined.

(** ** The first cell of a reveal *)
Lemma floodReveal_first (board : Board) r c rows cols :
  hasDims rows cols board →
  floodReveal board r c rows cols
  = match at2 board r c with
    | None => Ok board
    | Some cell =>
        if isRevealed cell || isFlagged cell then Ok board
        else if isZeroSafe cell
             then floodLoop (S (8 * (Z.to_nat rows * Z.to_nat cols))) rows cols
                    (pushNeighbours r c [])
                    (set2 (λ _, true)
                       (replicate (Z.to_nat rows)
                          (replicate (Z.to_nat cols) false)) r c)
                    (set2 withRevealed board r c)
             else Ok (set2 withRevealed board r c)
    end.
Proof.
  intros Hd. pose proof Hd as (Hr & Hc & _).
  unfold floodReveal, freshVisited.
  replace ((0 <? rows) && (cols <? 0)) with false
    by (symmetry; apply andb_false_intro2; lia).
  res_simpl. unfold floodFuel. rewrite floodLoop_step.
  destruct ((r <? 0) || (rows <=? r) || (c <? 0) || (cols <=? c)) eqn:Hout.
  { rewrite floodLoop_nil.
    destruct (at2 board r c) as [cell|] eqn:Hcell; [|done].
    apply (at2_hasDims _ _ _ _ _ _ Hd) in Hcell. unfold inBounds in Hcell.
    repeat (apply andb_prop in Hcell as [Hcell ?]).
    repeat (apply orb_false_elim in Hout || apply orb_prop in Hout as [Hout|Hout]);
      lia. }
  apply flood_bounds in Hout.
  destruct (hasDims_at2 rows cols
              (replicate (Z.to_nat rows) (replicate (Z.to_nat cols) false))
              r c) as [seen Hseen]; [by apply hasDims_replicate|done|].
  rewrite Hseen. apply at2_replicate in Hseen as ->. res_simpl.
  destruct (hasDims_at2 _ _ _ _ _ Hd Hout) as [cell Hcell].
  rewrite Hcell. res_simpl.
  destruct (isRevealed cell || isFlagged cell); [apply floodLoop_nil|].
  unfold isZeroSafe.
  destruct ((adjacentMines cell =? 0) && negb (isMine cell));
    [done|apply floodLoop_nil].
Qed.

(** X3: where a reveal stops at once.  On a rows by cols board, floodReveal
    from a position outside the board, or from a cell that is revealed or
    flagged, returns the board unchanged; from a hidden unflagged cell that
    is a mine or shows a number other than 0 it reveals that one cell and
    nothing else. *)
Theorem floodReveal_stops_at_origin (board : Board) r c rows cols :
  hasDims rows cols board →
  (inBounds rows cols r c = false →
   floodReveal board r c rows cols = Ok board) ∧
  (∀ cell, at2 board r c = Some cell →
     isRevealed cell = true ∨ isFlagged cell = true →
     floodReveal board r c rows cols = Ok board) ∧
  (∀ cell, at2 board r c = Some cell →
     isRevealed cell = false → isFlagged cell = false →
     isMine cell = true ∨ adjacentMines cell ≠ 0 →
     floodReveal board r c rows cols = Ok (set2 withRevealed board r c) ∧
     at2 (set2 withRevealed board r c) r c = Some (withRevealed cell) ∧
     ∀ r0 c0, (r0, c0) ≠ (r, c) →
       at2 (set2 withRevealed board r c) r0 c0 = at2 board r0 c0).
Proof.
  intros Hd. rewrite (floodReveal_first _ _ _ _ _ Hd).
  split; [|split].
  - intros Hout. by rewrite (at2_out_of_bounds _ _ _ _ _ Hd Hout).
  - intros cell -> Hclosed.
    replace (isRevealed cell || isFlagged cell) with true; [done|].
    symmetry. apply orb_true_iff. done.
  - intros cell Hcell Hrev Hflag Hnum.
    split; [|split].
    + rewrite Hcell, Hrev, Hflag. cbn [orb]. unfold isZeroSafe.
      replace ((adjacentMines cell =? 0) && negb (isMine cell)) with false;
        [done|].
      symmetry. apply andb_false_iff. destruct Hnum as [->|Hne]; [by right|].
      left. by apply Z.eqb_neq.
    + by apply at2_set2_eq.
    + intros r0 c0 Hne. apply at2_Some in Hcell as (? & ? & _).
      by apply at2_set2_ne.
Qed.

Lemma floodReveal_stops_at_origin_witness :
  (inBounds 2 2 1 1 = false →
   floodReveal tinyBoard 1 1 2 2 = Ok tinyBoard) ∧
  (∀ cell, at2 tinyBoard 1 1 = Some cell →
     isRevealed cell = true ∨ isFlagged cell = true →
     floodReveal tinyBoard 1 1 2 2 = Ok tinyBoard) ∧
  (∀ cell, at2 tinyBoard 1 1 = Some cell →
     isRevealed cell = false → isFlagged cell = false →
     isMine cell = true ∨ adjacentMines cell ≠ 0 →
     floodReveal tinyBoard 1 1 2 2 = Ok (set2 withRevealed tinyBoard 1 1) ∧
     at2 (set2 withRevealed tinyBoard 1 1) 1 1 = Some (withRevealed cell) ∧
     ∀ r0 c0, (r0, c0) ≠ (1, 1) →
       at2 (set2 withRevealed tinyBoard 1 1) r0 c0 = at2 tinyBoard r0 c0).
Proof.
  apply (floodReveal_stops_at_origin tinyBoard 1 1 2 2).
  apply (bool_decide_unpack _). vm_compute. exact I.
Defined.

(** ** A reveal from a safe cell never opens a mine *)
Lemma adjacencyCorrect_cells rows cols (board : Board) :
  hasDims rows cols board →
  forallb (adjacencyOk board) (cells rows cols) = true →
  adjacencyCorrect board.
Proof.
  intros Hd Hall r c cell Hcell.
  pose proof (at2_hasDims _ _ _ _ _ _ Hd Hcell) as Hin.
  apply elem_of_cells in Hin. rewrite forallb_forall in Hall.
  apply list_elem_of_In in Hin. specialize (Hall _ Hin).
  unfold adjacencyOk in Hall. cbn [fst snd] in Hall. rewrite Hcell in Hall.
  by apply bool_decide_eq_true in Hall.
Qed.

(** Two facts carried along the loop: a zero cell that is no mine has no
    mine around it, and no position on the stack holds a mine. *)
Lemma floodLoop_no_mine fuel rows cols stack visited (board board' : Board) :
  (∀ r c cell d, at2 board r c = Some cell → isZeroSafe cell = true →
     d ∈ offsets8 → mineAt board (r + d.1) (c + d.2) = false) →
  (∀ p, p ∈ stack → mineAt board p.1 p.2 = false) →
  floodLoop fuel rows cols stack visited board = Ok board' →
  ∀ r c x y, at2 board r c = Some x → at2 board' r c = Some y →
    isMine x = true → y = x.
Proof.
  revert stack visited board.
  induction fuel as [|fuel IH]; intros [|[cr cc] stack] visited board Hzero Hst;
    try (rewrite floodLoop_nil; intros [= <-] r c x y Hx Hy; congruence);
    [done|]. rewrite floodLoop_step.
  assert (∀ p, p ∈ stack → mineAt board p.1 p.2 = false) as Hst'
    by (intros p Hp; apply Hst; by right).
  destruct ((cr <? 0) || (rows <=? cr) || (cc <? 0) || (cols <=? cc));
    [by apply IH|].
  destruct (at2 visited cr cc) as [[|]|]; res_simpl; [by apply IH| |done].
  destruct (at2 board cr cc) as [cell|] eqn:Hcell; res_simpl; [|done].
  destruct (isRevealed cell || isFlagged cell) eqn:Hclosed; [by apply IH|].
  assert (isMine cell = false) as Hsafe.
  { specialize (Hst (cr, cc)). unfold mineAt in Hst. cbn [fst snd] in Hst.
    rewrite Hcell in Hst. apply Hst. by left. }
  set (board1 := set2 withRevealed board cr cc).
  assert (∀ r c, mineAt board1 r c = mineAt board r c) as Hsame
    by (intros r c; by apply (mineAt_reveal _ _ _ cell)).
  assert (∀ r c cell1 d, at2 board1 r c = Some cell1 →
            isZeroSafe cell1 = true → d ∈ offsets8 →
            mineAt board1 (r + d.1) (c + d.2) = false) as Hzero1.
  { intros r c cell1 d Hc1 Hz Hd. rewrite Hsame.
    destruct (at2_reveal_inv _ _ _ _ _ _ _ Hcell Hc1) as (x & Hx & Hrel).
    apply (Hzero r c x d Hx); [|done].
    destruct Hrel as [<-|(_ & -> & ->)]; done. }
  assert ((∀ r c x y, at2 board1 r c = Some x → at2 board' r c = Some y →
             isMine x = true → y = x) →
          ∀ r c x y, at2 board r c = Some x → at2 board' r c = Some y →
             isMine x = true → y = x) as Hback.
  { intros Hnext r c x y Hx Hy Hmine.
    destruct (decide ((cr, cc) = (r, c))) as [Heq|Hne].
    - injection Heq as <- <-. congruence.
    - apply (Hnext r c x y); [|done|done]. unfold board1.
      apply at2_Some in Hcell as Hpos. destruct Hpos as (? & ? & _).
      by rewrite at2_set2_ne. }
  destruct ((adjacentMines cell =? 0) && negb (isMine cell)) eqn:Hz.
  - intros Hrun. apply Hback. refine (IH _ _ _ Hzero1 _ Hrun).
    intros p Hp. rewrite Hsame.
    apply elem_of_pushNeighbours in Hp as [Hp|(d & Hd & ->)]; [by apply Hst'|].
    cbn [fst snd]. by apply (Hzero cr cc cell d).
  - intros Hrun. apply Hback. refine (IH _ _ _ Hzero1 _ Hrun).
    intros p Hp. rewrite Hsame. by apply Hst'.
Qed.

(** X4: on a board whose numbers are right (every cell that is no mine
    carries the count of mines around it), a reveal that starts on a cell
    that is no mine leaves every mine exactly as it was: no mine is revealed
    by the flood, so a click on a safe cell can never lose the game. *)
Theorem floodReveal_never_opens_mine (board : Board) r c rows cols :
  hasDims rows cols board → adjacencyCorrect board →
  mineAt board r c = false →
  ∃ board',
    floodReveal board r c rows cols = Ok board' ∧
    ∀ r0 c0 x, at2 board r0 c0 = Some x → isMine x = true →
      at2 board' r0 c0 = Some x.
Proof.
  intros Hd Hadj Hsafe.
  destruct (floodReveal_runs board r c rows cols Hd) as (board' & Hrun & Hd').
  exists board'. split; [done|]. intros r0 c0 x Hx Hmine.
  pose proof (at2_hasDims _ _ _ _ _ _ Hd Hx) as Hin.
  destruct (hasDims_at2 _ _ _ _ _ Hd' Hin) as [y Hy]. rewrite Hy. f_equal.
  unfold floodReveal, freshVisited in Hrun.
  destruct ((0 <? rows) && (cols <? 0)); [done|]. res_simpl_in Hrun.
  refine (floodLoop_no_mine _ _ _ _ _ _ _ _ _ Hrun r0 c0 x y Hx Hy Hmine).
  - intros r1 c1 cell d Hcell Hz Hdin. unfold isZeroSafe in Hz.
    apply andb_prop in Hz as [Hnum Hnomine]. apply Z.eqb_eq in Hnum.
    apply negb_true_iff in Hnomine.
    pose proof (Hadj _ _ _ Hcell) as Hcount. rewrite Hnomine, Hnum in Hcount.
    symmetry in Hcount. by apply neighbourMines_zero with (d := d) in Hcount.
  - intros p Hp. apply list_elem_of_singleton in Hp as ->. done.
Qed.

Lemma floodReveal_never_opens_mine_witness :
  ∃ board',
    floodReveal cornerMineBoard 0 0 3 3 = Ok board' ∧
    ∀ r0 c0 x, at2 cornerMineBoard r0 c0 = Some x → isMine x = true →
      at2 board' r0 c0 = Some x.
Proof.
  apply (floodReveal_never_opens_mine cornerMineBoard 0 0 3 3).
  - apply (bool_decide_unpack _). vm_compute. exact I.
  - apply (adjacencyCorrect_cells 3 3).
    + apply (bool_decide_unpack _). vm_compute. exact I.
    + vm_compute. reflexivity.
  - vm_compute. reflexivity.
Defined.

(** ** A reveal opens whole regions *)
Lemma floodLoop_dims fuel rows cols stack visited (board board' : Board) :
  floodLoop fuel rows cols stack visited board = Ok board' →
  hasDims rows cols board → hasDims rows cols board'.
Proof.
  revert stack visited board.
  induction fuel as [|fuel IH]; intros [|[cr cc] stack] visited board;
    try (rewrite floodLoop_nil; by intros [= <-]); [done|].
  rewrite floodLoop_step.
  destruct ((cr <? 0) || (rows <=? cr) || (cc <? 0) || (cols <=? cc));
    [by apply IH|].
  destruct (at2 visited cr cc) as [[|]|]; res_simpl; [by apply IH| |done].
  destruct (at2 board cr cc) as [cell|]; res_simpl; [|done].
  destruct (isRevealed cell || isFlagged cell); [by apply IH|].
  destruct ((adjacentMines cell =? 0) && negb (isMine cell));
    intros Hrun Hd; apply (IH _ _ _ Hrun); by apply hasDims_set2.
Qed.

Lemma isClosed_kept fuel rows cols stack visited (board board' : Board) r c x y :
  floodLoop fuel rows cols stack visited board = Ok board' →
  at2 board r c = Some x → at2 board' r c = Some y →
  isClosed x = true → isClosed y = true.
Proof.
  intros Hrun Hx Hy Hclosed.
  destruct (floodLoop_reveals _ _ _ _ _ _ _ _ _ _ Hrun Hx) as (y' & Hy' & Hrel).
  assert (y' = y) as -> by congruence.
  destruct Hrel as [->|[-> _]]; done.
Qed.

(** Every position left on the stack ends up revealed or flagged, and
    every zero cell opened by the loop has all its neighbours revealed or
    flagged at the end. *)
Lemma floodLoop_closure fuel rows cols stack visited (board board' : Board) :
  hasDims rows cols visited → hasDims rows cols board →
  (∀ r c x, at2 visited r c = Some true → at2 board r c = Some x →
            isClosed x = true) →
  floodLoop fuel rows cols stack visited board = Ok board' →
  (∀ p z, p ∈ stack → at2 board' p.1 p.2 = Some z → isClosed z = true) ∧
  (∀ r c x y, at2 board r c = Some x → isRevealed x = false →
     at2 board' r c = Some y → isRevealed y = true → isZeroSafe y = true →
     ∀ d z, d ∈ offsets8 → at2 board' (r + d.1) (c + d.2) = Some z →
            isClosed z = true).
Proof.
  revert stack visited board.
  induction fuel as [|fuel IH]; intros [|[cr cc] stack] visited board Hdv Hd Hvis;
    try (rewrite floodLoop_nil; intros [= <-]; split;
         [intros p z Hp; by apply elem_of_nil in Hp
         |intros r c x y Hx Hrev Hy; congruence]);
    [done|].
  intros Hrun. pose proof Hrun as Hstep. rewrite floodLoop_step in Hstep.
  pose proof (floodLoop_dims _ _ _ _ _ _ _ Hrun Hd) as Hd'.
  (* the cases in which the position is dropped *)
  assert (floodLoop fuel rows cols stack visited board = Ok board' →
          (∀ z, at2 board' cr cc = Some z → isClosed z = true) →
          (∀ p z, p ∈ (cr, cc) :: stack → at2 board' p.1 p.2 = Some z →
                  isClosed z = true) ∧
          (∀ r c x y, at2 board r c = Some x → isRevealed x = false →
             at2 board' r c = Some y → isRevealed y = true →
             isZeroSafe y = true →
             ∀ d z, d ∈ offsets8 → at2 board' (r + d.1) (c + d.2) = Some z →
                    isClosed z = true)) as Hskip.
  { intros Hnext Hhere.
    destruct (IH _ _ _ Hdv Hd Hvis Hnext) as [HA HB]. split; [|done].
    intros p z Hp Hz. apply elem_of_cons in Hp as [->|Hp]; [by apply Hhere|].
    by apply (HA p). }
  destruct ((cr <? 0) || (rows <=? cr) || (cc <? 0) || (cols <=? cc)) eqn:Hout.
  { apply Hskip; [done|]. intros z Hz.
    apply (at2_hasDims _ _ _ _ _ _ Hd') in Hz. unfold inBounds in Hz.
    repeat (apply andb_prop in Hz as [Hz ?]).
    repeat (apply orb_false_elim in Hout || apply orb_prop in Hout as [Hout|Hout]);
      lia. }
  destruct (at2 visited cr cc) as [seen|] eqn:Hseen; res_simpl_in Hstep;
    [|done].
  destruct (at2 board cr cc) as [cell|] eqn:Hcell.
  2:{ destruct seen; [|done]. apply flood_bounds in Hout.
      destruct (hasDims_at2 _ _ _ _ _ Hd Hout) as [? ?]. congruence. }
  destruct seen.
  { apply Hskip; [done|]. intros z Hz.
    apply (isClosed_kept _ _ _ _ _ _ _ _ _ _ _ Hstep Hcell Hz).
    by apply (Hvis cr cc). }
  res_simpl_in Hstep.
  destruct (isRevealed cell || isFlagged cell) eqn:Hclosed.
  { apply Hskip; [done|]. intros z Hz.
    by apply (isClosed_kept _ _ _ _ _ _ _ _ _ _ _ Hstep Hcell Hz). }
  apply orb_false_elim in Hclosed as [Hrev Hflag].
  set (board1 := set2 withRevealed board cr cc) in *.
  set (visited1 := set2 (λ _ : bool, true) visited cr cc) in *.
  assert (at2 board1 cr cc = Some (withRevealed cell)) as Hcell1
    by (by apply at2_set2_eq).
  assert (hasDims rows cols board1) as Hd1 by (by apply hasDims_set2).
  assert (hasDims rows cols visited1) as Hdv1 by (by apply hasDims_set2).
  assert (0 ≤ cr ∧ 0 ≤ cc) as [Hcr Hcc]
    by (apply at2_Some in Hcell as (? & ? & _); done).
  assert (∀ r c x, at2 visited1 r c = Some true → at2 board1 r c = Some x →
                   isClosed x = true) as Hvis1.
  { intros r c x Hv Hx. destruct (decide ((cr, cc) = (r, c))) as [Heq|Hne].
    - injection Heq as <- <-. rewrite Hcell1 in Hx. by injection Hx as <-.
    - unfold visited1, board1 in Hv, Hx.
      rewrite at2_set2_ne in Hv by done. rewrite at2_set2_ne in Hx by done.
      by apply (Hvis r c). }
  assert (∀ stack1,
            floodLoop fuel rows cols stack1 visited1 board1 = Ok board' →
            (∀ p, p ∈ stack → p ∈ stack1) →
            (isZeroSafe cell = true →
             ∀ d, d ∈ offsets8 → (cr + d.1, cc + d.2) ∈ stack1) →
            (∀ p z, p ∈ (cr, cc) :: stack → at2 board' p.1 p.2 = Some z →
                    isClosed z = true) ∧
            (∀ r c x y, at2 board r c = Some x → isRevealed x = false →
               at2 board' r c = Some y → isRevealed y = true →
               isZeroSafe y = true →
               ∀ d z, d ∈ offsets8 → at2 board' (r + d.1) (c + d.2) = Some z →
                      isClosed z = true)) as Hvisit.
  { intros stack1 Hnext Hsub Hpushed.
    destruct (IH _ _ _ Hdv1 Hd1 Hvis1 Hnext) as [HA HB]. split.
    - intros p z Hp Hz. apply elem_of_cons in Hp as [->|Hp].
      + by apply (isClosed_kept _ _ _ _ _ _ _ _ _ _ _ Hnext Hcell1 Hz).
      + apply (HA p); [by apply Hsub|done].
    - intros r c x y Hx Hxrev Hy Hyrev Hzero d z Hdin Hz.
      destruct (decide ((cr, cc) = (r, c))) as [Heq|Hne].
      + injection Heq as <- <-.
        apply (HA (cr + d.1, cc + d.2)); [|done]. apply Hpushed; [|done].
        destruct (floodLoop_grows _ _ _ _ _ _ _ _ _ _ Hnext Hcell1)
          as (y' & Hy' & Hmine & _ & Hnum & _).
        assert (y' = y) as -> by congruence.
        unfold isZeroSafe in *. rewrite Hmine, Hnum in Hzero. done.
      + apply (HB r c x y) with (d := d); try done. unfold board1.
        by rewrite at2_set2_ne. }
  fold (isZeroSafe cell) in Hstep.
  destruct (isZeroSafe cell) eqn:Hz.
  - apply (Hvisit _ Hstep).
    + intros p Hp. apply elem_of_pushNeighbours. by left.
    + intros _ d Hdin. apply elem_of_pushNeighbours. right. eauto.
  - apply (Hvisit _ Hstep); [done|]. intros Hbad. discriminate Hbad.
Qed.

(** X5: a reveal opens whole regions.  After floodReveal on a rows by cols
    board, every cell that this call revealed, is no mine and shows the
    number 0 has all its neighbours on the board revealed or flagged, so the
    flood only ever stops at numbered cells, flags and the edge of the
    board. *)
Theorem floodReveal_opens_region (board : Board) r c rows cols :
  hasDims rows cols board →
  ∃ board',
    floodReveal board r c rows cols = Ok board' ∧
    ∀ r0 c0 x y,
      at2 board r0 c0 = Some x → isRevealed x = false →
      at2 board' r0 c0 = Some y → isRevealed y = true →
      isMine y = false → adjacentMines y = 0 →
      ∀ d z, d ∈ offsets8 → at2 board' (r0 + d.1) (c0 + d.2) = Some z →
             isRevealed z = true ∨ isFlagged z = true.
Proof.
  intros Hd.
  destruct (floodReveal_runs board r c rows cols Hd) as (board' & Hrun & Hd').
  exists board'. split; [done|].
  intros r0 c0 x y Hx Hxrev Hy Hyrev Hmine Hnum d z Hdin Hz.
  unfold floodReveal, freshVisited in Hrun. pose proof Hd as (Hr & Hc & _).
  replace ((0 <? rows) && (cols <? 0)) with false in Hrun
    by (symmetry; apply andb_false_intro2; lia).
  res_simpl_in Hrun.
  apply floodLoop_closure in Hrun as [_ HB];
    [|by apply hasDims_replicate|done|].
  - apply orb_true_iff. apply (HB r0 c0 x y Hx Hxrev Hy Hyrev) with (d := d);
      [|done|done].
    unfold isZeroSafe. rewrite Hmine, Hnum. done.
  - intros r1 c1 x1 Hv. apply at2_replicate in Hv. discriminate Hv.
Qed.

Lemma floodReveal_opens_region_witness :
  ∃ board',
    floodReveal cornerMineBoard 0 0 3 3 = Ok board' ∧
    ∀ r0 c0 x y,
      at2 cornerMineBoard r0 c0 = Some x → isRevealed x = false →
      at2 board' r0 c0 = Some y → isRevealed y = true →
      isMine y = false → adjacentMines y = 0 →
      ∀ d z, d ∈ offsets8 → at2 board' (r0 + d.1) (c0 + d.2) = Some z →
             isRevealed z = true ∨ isFlagged z = true.
Proof.
  apply (floodReveal_opens_region cornerMineBoard 0 0 3 3).
  apply (bool_decide_unpack _). vm_compute. exact I.
Defined.

(** ** What every board the generator returns has *)
Lemma placeMines_count unitDraw fuel seed rows cols mines safeZone counter
    placed (board board' : Board) :
  0 ≤ placed ≤ mines →
  countCells isMine board = Z.to_nat placed →
  (∀ r c cell, at2 board r c = Some cell → isMine cell = true →
               (r, c) ∉ safeZone) →
  placeMines unitDraw fuel seed rows cols mines safeZone counter placed board
  = Ok board' →
  countCells isMine board' = Z.to_nat mines ∧
  (∀ r c cell, at2 board' r c = Some cell → isMine cell = true →
               (r, c) ∉ safeZone).
Proof.
  revert counter placed board.
  induction fuel as [|fuel IH]; intros counter placed board Hp Hcount Hzone.
  - cbn [placeMines]. destruct (Z.ltb_spec placed mines); [done|].
    intros [= <-]. split; [|done]. rewrite Hcount. f_equal. lia.
  - destruct (Z.ltb_spec placed mines) as [Hlt|Hge].
    2:{ rewrite placeMines_done by done. intros [= <-]. split; [|done].
        rewrite Hcount. f_equal. lia. }
    rewrite placeMines_step by done. cbn zeta.
    destruct (at2 board _ _) as [cell|] eqn:Hcell; res_simpl; [|done].
    destruct (negb (isMine cell) && negb _) eqn:Hok.
    + apply andb_prop in Hok as [Hnomine Hout].
      apply negb_true_iff in Hnomine, Hout.
      apply bool_decide_eq_false in Hout.
      apply IH; [lia| |].
      * pose proof (countCells_set2 isMine withMine _ _ _ _ Hcell) as Hc.
        rewrite Hnomine in Hc. cbn in Hc. lia.
      * intros r c y Hy Hmine.
        destruct (decide ((random unitDraw seed counter 0 (rows - 1),
                           random unitDraw seed (counter + 1) 0 (cols - 1))
                          = (r, c))) as [Heq|Hne].
        -- by rewrite <- Heq.
        -- apply at2_Some in Hcell as Hpos. destruct Hpos as (? & ? & _).
           rewrite at2_set2_ne in Hy by done. by apply (Hzone _ _ y).
    + by apply IH.
Qed.

Lemma safeCell_in_safeZone rows cols safeR safeC :
  (safeR, safeC) ∈ safeZoneOf rows cols safeR safeC.
Proof.
  unfold safeZoneOf. generalize offsets8. intros l.
  assert (∀ zone : gset (Z * Z), (safeR, safeC) ∈ zone →
            (safeR, safeC) ∈
              foldl (λ (zone : gset (Z * Z)) d,
                       let nr := safeR + d.1 in
                       let nc := safeC + d.2 in
                       if (0 <=? nr) && (nr <? rows) && (0 <=? nc) && (nc <? cols)
                       then zone ∪ {[ (nr, nc) ]} else zone) zone l) as H.
  { induction l as [|d l IH]; intros zone Hin; [done|]. cbn [foldl].
    apply IH. cbn zeta. destruct (_ && _); set_solver. }
  apply H. set_solver.
Qed.

(** Whatever board a run of the generator returns has the shape asked for,
    exactly [mines] mines, the right numbers, no revealed or flagged cell,
    and no mine on the safe cell. *)
Lemma generateBoardWithSeed_sound unitDraw fuel seed rows cols mines
    safeR safeC (board : Board) :
  0 ≤ rows → 0 ≤ cols → 0 ≤ mines →
  generateBoardWithSeed unitDraw fuel seed rows cols mines safeR safeC
  = Ok board →
  hasDims rows cols board ∧
  countCells isMine board = Z.to_nat mines ∧
  adjacencyCorrect board ∧ untouched board ∧
  mineAt board safeR safeC = false.
Proof.
  intros Hr Hc Hm Hrun.
  destruct (generateBoardWithSeed_numbers _ _ _ _ _ _ _ _ _ Hr Hc Hrun)
    as [Hadj Hfresh].
  unfold generateBoardWithSeed in Hrun. cbn zeta in Hrun.
  apply bindRes_Ok in Hrun as (placed & Hplaced & Hfill).
  pose proof (hasDims_replicate rows cols blankCell Hr Hc) as Hblank.
  fold (blankBoard rows cols) in Hblank.
  pose proof (placeMines_dims _ _ _ _ _ _ _ _ _ _ _ Hblank Hplaced) as Hd.
  destruct (placeMines_count _ _ _ _ _ _ _ _ _ _ _
              (conj (Z.le_refl 0) Hm) (blankBoard_no_mines rows cols)
              ltac:(intros r c cell Hcell Hmine;
                    apply at2_replicate in Hcell as ->; discriminate Hmine)
              Hplaced) as [Hcount Hzone].
  destruct (fillAdjacent_runs placed rows cols Hd)
    as (board' & Hfill' & Hd' & Hn & Hsame).
  assert (board' = board) as -> by congruence.
  split; [done|]. split; [by rewrite Hn|]. split; [done|]. split; [done|].
  unfold mineAt. destruct (at2 board safeR safeC) as [cell|] eqn:Hcell; [|done].
  destruct (Hsame _ _ _ Hcell) as (x & Hx & ->).
  destruct (isMine x) eqn:Hmine; [|done]. exfalso.
  apply (Hzone _ _ _ Hx Hmine). apply safeCell_in_safeZone.
Qed.

(** ** Changes that keep a board sound *)
Lemma mineAt_layout rows cols (board board' : Board) :
  hasDims rows cols board →
  hasDims rows cols board' →
  (∀ r c x, at2 board r c = Some x →
     ∃ y, at2 board' r c = Some y ∧ isMine y = isMine x) →
  ∀ r c, mineAt board' r c = mineAt board r c.
Proof.
  intros Hd Hd' Hrel r c. unfold mineAt.
  destruct (at2 board r c) as [x|] eqn:Hx.
  - destruct (Hrel _ _ _ Hx) as (y & -> & ->). done.
  - destruct (at2 board' r c) as [y|] eqn:Hy; [|done].
    apply (at2_hasDims _ _ _ _ _ _ Hd') in Hy.
    destruct (hasDims_at2 _ _ _ _ _ Hd Hy) as [x Hx']. congruence.
Qed.

Lemma neighbourMines_layout (board board' : Board) r c :
  (∀ r c, mineAt board' r c = mineAt board r c) →
  neighbourMines board' r c = neighbourMines board r c.
Proof.
  intros Hsame. unfold neighbourMines. f_equal. f_equal.
  apply list_filter_iff. intros d. by rewrite Hsame.
Qed.

Lemma adjacencyCorrect_layout rows cols (board board' : Board) :
  hasDims rows cols board →
  hasDims rows cols board' →
  (∀ r c x, at2 board r c = Some x →
     ∃ y, at2 board' r c = Some y ∧ isMine y = isMine x ∧
          adjacentMines y = adjacentMines x) →
  adjacencyCorrect board → adjacencyCorrect board'.
Proof.
  intros Hd Hd' Hrel Hadj r c y Hy.
  pose proof (at2_hasDims _ _ _ _ _ _ Hd' Hy) as Hin.
  destruct (hasDims_at2 _ _ _ _ _ Hd Hin) as [x Hx].
  destruct (Hrel _ _ _ Hx) as (y' & Hy' & Hmine & Hnum).
  assert (y' = y) as -> by congruence.
  rewrite Hmine, Hnum, (Hadj _ _ _ Hx).
  rewrite (neighbourMines_layout board board'); [done|].
  apply (mineAt_layout rows cols); [done|done|].
  intros r0 c0 x0 Hx0. destruct (Hrel _ _ _ Hx0) as (y0 & ? & ? & _). eauto.
Qed.

Lemma floodLoop_mines_count fuel rows cols stack visited (board board' : Board) :
  floodLoop fuel rows cols stack visited board = Ok board' →
  countCells isMine board' = countCells isMine board.
Proof.
  revert stack visited board.
  induction fuel as [|fuel IH]; intros [|[cr cc] stack] visited board;
    try (rewrite floodLoop_nil; by intros [= <-]); [done|].
  rewrite floodLoop_step.
  destruct ((cr <? 0) || (rows <=? cr) || (cc <? 0) || (cols <=? cc));
    [by apply IH|].
  destruct (at2 visited cr cc) as [[|]|]; res_simpl; [by apply IH| |done].
  destruct (at2 board cr cc) as [cell|] eqn:Hcell; res_simpl; [|done].
  destruct (isRevealed cell || isFlagged cell); [by apply IH|].
  pose proof (countCells_set2 isMine withRevealed _ _ _ _ Hcell) as Hc.
  change (isMine (withRevealed cell)) with (isMine cell) in Hc.
  destruct ((adjacentMines cell =? 0) && negb (isMine cell));
    intros Hrun; rewrite (IH _ _ _ Hrun); lia.
Qed.

Lemma floodReveal_sound st (board board' : Board) r c :
  boardSound st board →
  floodReveal board r c (rows st) (cols st) = Ok board' →
  boardSound st board'.
Proof.
  intros (Hd & Hcount & Hadj) Hrun.
  destruct (floodReveal_runs board r c _ _ Hd) as (b & Hb & Hd').
  assert (b = board') as -> by congruence.
  unfold floodReveal, freshVisited in Hrun.
  destruct ((0 <? rows st) && (cols st <? 0)); [done|]. res_simpl_in Hrun.
  split; [done|]. split.
  - by rewrite (floodLoop_mines_count _ _ _ _ _ _ _ Hrun).
  - apply (adjacencyCorrect_layout (rows st) (cols st) board); [done|done| |done].
    intros r0 c0 x Hx.
    destruct (floodLoop_grows _ _ _ _ _ _ _ _ _ _ Hrun Hx)
      as (y & Hy & Hmine & _ & Hnum & _). eauto.
Qed.

(** A reveal that starts off a mine shows no mine that was hidden. *)
Lemma floodReveal_noMineShown st (board board' : Board) r c :
  boardSound st board → mineAt board r c = false →
  floodReveal board r c (rows st) (cols st) = Ok board' →
  noMineShown board → noMineShown board'.
Proof.
  intros (Hd & _ & Hadj) Hsafe Hrun Hhidden r0 c0 y Hy Hmine.
  destruct (floodReveal_runs board r c _ _ Hd) as (b & Hb & Hd').
  assert (b = board') as -> by congruence.
  pose proof (at2_hasDims _ _ _ _ _ _ Hd' Hy) as Hin.
  destruct (hasDims_at2 _ _ _ _ _ Hd Hin) as [x Hx].
  unfold floodReveal, freshVisited in Hrun.
  destruct ((0 <? rows st) && (cols st <? 0)); [done|]. res_simpl_in Hrun.
  destruct (floodLoop_grows _ _ _ _ _ _ _ _ _ _ Hrun Hx)
    as (y' & Hy' & Hm & _).
  assert (y' = y) as -> by congruence. rewrite Hmine in Hm. symmetry in Hm.
  assert (y = x) as ->; [|by apply (Hhidden _ _ _ Hx)].
  refine (floodLoop_no_mine _ _ _ _ _ _ _ _ _ Hrun r0 c0 x y Hx Hy Hm).
  - intros r1 c1 cell d Hcell Hz Hdin. unfold isZeroSafe in Hz.
    apply andb_prop in Hz as [Hnum Hnomine]. apply Z.eqb_eq in Hnum.
    apply negb_true_iff in Hnomine.
    pose proof (Hadj _ _ _ Hcell) as Hcount. rewrite Hnomine, Hnum in Hcount.
    symmetry in Hcount. by apply neighbourMines_zero with (d := d) in Hcount.
  - intros p Hp. apply list_elem_of_singleton in Hp as ->. done.
Qed.

Lemma at2_revealMines (board : Board) r c :
  at2 (revealMines board) r c
  = (λ cell, if isMine cell then withRevealed cell else cell) <$> at2 board r c.
Proof. unfold revealMines. apply at2_map. Qed.

Lemma hasDims_map {A B} (f : A → B) rows cols (m : list (list A)) :
  hasDims rows cols m → hasDims rows cols (map (map f) m).
Proof.
  intros (Hr & Hc & Hlen & Hall). split; [done|]. split; [done|]. split.
  - by rewrite length_map.
  - apply Forall_map. eapply Forall_impl; [exact Hall|].
    intros row Hrow. cbn. by rewrite length_map.
Qed.

Lemma countCells_map {A} (p : A → bool) (f : A → A) (m : list (list A)) :
  (∀ x, p (f x) = p x) →
  countCells p (map (map f) m) = countCells p m.
Proof.
  intros Hp. unfold countCells.
  induction m as [|row m IH]; [done|]. cbn [map sumOver foldr].
  fold (sumOver (sumOver (λ x : A, if p x then 1%nat else 0%nat)) (map (map f) m)).
  fold (sumOver (sumOver (λ x : A, if p x then 1%nat else 0%nat)) m).
  rewrite IH. f_equal.
  induction row as [|x row IHr]; [done|]. cbn. rewrite Hp.
  unfold sumOver in IHr. by rewrite IHr.
Qed.

Lemma revealMines_sound st (board : Board) :
  boardSound st board → boardSound st (revealMines board).
Proof.
  intros (Hd & Hcount & Hadj).
  assert (hasDims (rows st) (cols st) (revealMines board)) as Hd'
    by (by apply hasDims_map).
  split; [done|]. split.
  - unfold revealMines. rewrite countCells_map; [done|].
    intros x. destruct (isMine x) eqn:E; cbn; congruence.
  - apply (adjacencyCorrect_layout (rows st) (cols st) board); [done|done| |done].
    intros r c x Hx. rewrite at2_revealMines, Hx. cbn.
    eexists. split; [done|]. destruct (isMine x) eqn:E; cbn; auto.
Qed.

Lemma toggleFlag_sound st (board : Board) r c cell :
  at2 board r c = Some cell →
  boardSound st board → boardSound st (set2 toggleFlag board r c).
Proof.
  intros Hcell (Hd & Hcount & Hadj).
  assert (hasDims (rows st) (cols st) (set2 toggleFlag board r c)) as Hd'
    by (by apply hasDims_set2).
  split; [done|]. split.
  - pose proof (countCells_set2 isMine toggleFlag _ _ _ _ Hcell) as Hc.
    change (isMine (toggleFlag cell)) with (isMine cell) in Hc. lia.
  - apply (adjacencyCorrect_layout (rows st) (cols st) board);
      [done|done| |done].
    intros r0 c0 x Hx.
    destruct (at2_set2_obs (λ x, (isMine x, adjacentMines x)) toggleFlag
                board r c r0 c0 cell x) as (y & Hy & Hobs); try done.
    injection Hobs as Hm Hn. eauto.
Qed.

(** ** The registry as a map *)
Lemma NoDup_mapSet {V} k (v : V) (m : list (string * V)) :
  NoDup m.*1 → NoDup (mapSet k v m).*1.
Proof.
  induction m as [|[k0 v0] m IH]; cbn.
  - intros _. apply NoDup_singleton.
  - intros Hnd. apply NoDup_cons in Hnd as [Hnotin Hnd].
    destruct (decide (k0 = k)) as [->|Hne].
    + rewrite bool_decide_eq_true_2 by done. cbn. by apply NoDup_cons.
    + rewrite bool_decide_eq_false_2 by done. cbn. apply NoDup_cons.
      split; [|by apply IH]. intros Hin.
      apply list_elem_of_fmap in Hin as ([k1 v1] & Hk & Hin). cbn in Hk.
      subst k1.
      apply elem_of_mapSet in Hin as [Heq|Hin]; [congruence|].
      apply Hnotin. apply list_elem_of_fmap. by exists (k0, v1).
Qed.

Lemma NoDup_mapDelete {V} k (m : list (string * V)) :
  NoDup m.*1 → NoDup (mapDelete k m).*1.
Proof.
  unfold mapDelete. induction m as [|[k0 v0] m IH]; [done|].
  cbn [fmap list_fmap fst]. intros Hnd.
  apply NoDup_cons in Hnd as [Hnotin Hnd].
  destruct (decide (k0 ≠ k)) as [Hne|Heq].
  - rewrite filter_cons_True by done. cbn. apply NoDup_cons.
    split; [|by apply IH]. intros Hin. apply Hnotin.
    apply list_elem_of_fmap in Hin as (kv & -> & Hin).
    apply list_elem_of_filter in Hin as [_ Hin].
    by apply list_elem_of_fmap_2.
  - rewrite filter_cons_False by done. by apply IH.
Qed.

Lemma mapGet_NoDup {V} k (v : V) (m : list (string * V)) :
  NoDup m.*1 → (k, v) ∈ m → mapGet k m = Some v.
Proof.
  unfold mapGet. induction m as [|[k0 v0] m IH]; intros Hnd Hin.
  - by apply elem_of_nil in Hin.
  - cbn in Hnd. apply NoDup_cons in Hnd as [Hnotin Hnd]. cbn.
    apply elem_of_cons in Hin as [Heq|Hin].
    + injection Heq as <- <-. by rewrite bool_decide_eq_true_2.
    + rewrite bool_decide_eq_false_2; [by apply IH|].
      intros ->. apply Hnotin. apply list_elem_of_fmap. by exists (k, v).
Qed.

Lemma mapGet_mapDelete {V} k k' (v : V) (m : list (string * V)) :
  mapGet k' (mapDelete k m) = Some v → k' ≠ k ∧ mapGet k' m = Some v.
Proof.
  unfold mapGet, mapDelete. induction m as [|[k0 v0] m IH]; [done|].
  destruct (decide (k0 ≠ k)) as [Hne|Heq].
  - rewrite filter_cons_True by done. cbn.
    destruct (decide (k0 = k')) as [->|Hne'].
    + rewrite bool_decide_eq_true_2 by done. cbn. by intros [= <-].
    + rewrite bool_decide_eq_false_2 by done. exact IH.
  - rewrite filter_cons_False by done. intros H.
    destruct (IH H) as [Hk Hget]. split; [done|]. cbn.
    rewrite bool_decide_eq_false_2; [done|]. intros ->. apply Heq.
    intros ->. done.
Qed.

Lemma mapDelete_mapSet {V} k (v : V) (m : list (string * V)) :
  mapDelete k (mapSet k v m) = mapDelete k m.
Proof.
  unfold mapDelete. induction m as [|[k0 v0] m IH]; cbn [mapSet fst].
  - by rewrite filter_cons_False by (cbn; auto).
  - destruct (decide (k0 = k)) as [->|Hne].
    + rewrite bool_decide_eq_true_2 by done.
      by rewrite !filter_cons_False by (cbn; auto).
    + rewrite bool_decide_eq_false_2 by done.
      rewrite !filter_cons_True by done. by rewrite IH.
Qed.

Lemma mapSet_id {V} k (v : V) (m : list (string * V)) :
  mapGet k m = Some v → mapSet k v m = m.
Proof.
  unfold mapGet. induction m as [|[k0 v0] m IH]; [done|]. cbn.
  destruct (decide (k0 = k)) as [->|Hne].
  - rewrite bool_decide_eq_true_2 by done. cbn. by intros [= ->].
  - rewrite bool_decide_eq_false_2 by done. intros H. by rewrite IH.
Qed.

(** ** Players *)
Lemma elem_of_removePlayer id ps p :
  p ∈ ps → playerId p ≠ id → p ∈ removePlayer id ps.
Proof.
  induction ps as [|q ps IH]; intros Hin Hne;
    [by apply elem_of_nil in Hin|]. cbn.
  apply elem_of_cons in Hin as [->|Hin].
  - rewrite bool_decide_eq_false_2 by done. by left.
  - destruct (bool_decide (playerId q = id)); [done|]. right. by apply IH.
Qed.

Lemma elem_of_updatePlayer id f ps sock :
  (∀ p, playerId (f p) = playerId p) →
  (∃ p, p ∈ ps ∧ playerId p = sock) →
  ∃ p, p ∈ updatePlayer id f ps ∧ playerId p = sock.
Proof.
  intros Hf (p & Hin & Hid).
  induction ps as [|q ps IH]; [by apply elem_of_nil in Hin|]. cbn.
  destruct (bool_decide (playerId q = id)).
  - apply elem_of_cons in Hin as [->|Hin].
    + exists (f q). split; [by left|]. by rewrite Hf.
    + exists p. split; [by right|done].
  - apply elem_of_cons in Hin as [->|Hin].
    + exists q. split; [by left|done].
    + destruct (IH Hin) as (p' & Hin' & Hid'). exists p'. split; [by right|done].
Qed.

(** ** Rooms and their boards *)
Lemma roomBoardsOk_empty room : roomBoardsOk room ∅.
Proof. intros sock board H. by rewrite lookup_empty in H. Qed.

Lemma roomBoardsOk_room room room' (boards : gmap string Board) :
  roomBoardsOk room boards →
  difficulty room' = difficulty room →
  (∀ sock, (∃ p, p ∈ players room ∧ playerId p = sock) →
           ∃ p, p ∈ players room' ∧ playerId p = sock) →
  (gameState room' = Playing → gameState room = Playing) →
  roomBoardsOk room' boards.
Proof.
  intros Hok Hdiff Hps Hstate sock board Hboard.
  destruct (Hok _ _ Hboard) as (Hp & st & Hst & Hsound & Hshown).
  split; [by apply Hps|]. exists st. rewrite Hdiff. auto.
Qed.

Lemma roomBoardsOk_insert room (boards : gmap string Board) sock board st :
  roomBoardsOk room boards →
  (∃ p, p ∈ players room ∧ playerId p = sock) →
  getDifficultySettings (difficulty room) = Own st →
  boardSound st board →
  (gameState room = Playing → noMineShown board) →
  roomBoardsOk room (<[sock := board]> boards).
Proof.
  intros Hok Hp Hst Hsound Hshown sock' board' Hboard.
  apply lookup_insert_Some in Hboard as [[<- <-]|[_ Hboard]]; [|by apply Hok].
  split; [done|]. eauto.
Qed.

Lemma roomBoardsOk_remove room (boards : gmap string Board) sock :
  roomBoardsOk room boards →
  roomBoardsOk (setPlayers (removePlayer sock (players room)) room)
    (delete sock boards).
Proof.
  intros Hok sock' board Hboard.
  apply lookup_delete_Some in Hboard as [Hne Hboard].
  destruct (Hok _ _ Hboard) as ((p & Hin & Hid) & Hrest).
  split; [|done]. exists p. split; [|done]. cbn.
  apply elem_of_removePlayer; [done|]. congruence.
Qed.

Lemma serverWf_get s id room :
  serverWf s → mapGet id (rooms s) = Some room →
  roomId room = id ∧ gameState room ≠ PostGame ∧
  (1 ≤ length (players room) ≤ 2)%nat ∧
  ∃ boards, playerBoards s !! id = Some boards ∧ roomBoardsOk room boards.
Proof.
  intros (Hnd & Hall & Hboards) Hget.
  pose proof (mapGet_elem_of _ _ _ Hget) as Hin.
  destruct (proj1 (Forall_forall _ _) Hall _ Hin) as (Hid & Hstate & Hlen).
  cbn [fst snd] in *. auto using Hboards.
Qed.

(** A handler that rewrites one room and its board table. *)
Lemma serverWf_put s s' id room' (boards' : gmap string Board) :
  serverWf s →
  rooms s' = mapSet id room' (rooms s) →
  playerBoards s' !! id = Some boards' →
  (∀ id', id' ≠ id → playerBoards s' !! id' = playerBoards s !! id') →
  roomId room' = id → gameState room' ≠ PostGame →
  (1 ≤ length (players room') ≤ 2)%nat →
  roomBoardsOk room' boards' →
  serverWf s'.
Proof.
  intros (Hnd & Hall & Hboards) Hrooms Hhere Hother Hid Hstate Hlen Hok.
  unfold serverWf. rewrite Hrooms. split; [by apply NoDup_mapSet|]. split.
  - apply Forall_mapSet; [done|]. done.
  - intros id' room Hget. destruct (decide (id = id')) as [<-|Hne].
    + rewrite mapGet_mapSet_eq in Hget. injection Hget as <-. eauto.
    + rewrite mapGet_mapSet_ne in Hget by done.
      rewrite Hother by done. by apply Hboards.
Qed.

(** A handler that drops one room and its board table. *)
Lemma serverWf_remove s s' id :
  serverWf s →
  rooms s' = mapDelete id (rooms s) →
  (∀ id', id' ≠ id → playerBoards s' !! id' = playerBoards s !! id') →
  serverWf s'.
Proof.
  intros (Hnd & Hall & Hboards) Hrooms Hother.
  unfold serverWf. rewrite Hrooms. split; [by apply NoDup_mapDelete|]. split.
  - by apply Forall_mapDelete.
  - intros id' room Hget. apply mapGet_mapDelete in Hget as [Hne Hget].
    rewrite Hother by done. by apply Hboards.
Qed.

Lemma serverWf_same s s' :
  serverWf s → rooms s' = rooms s → playerBoards s' = playerBoards s →
  serverWf s'.
Proof. unfold serverWf. by intros H -> ->. Qed.

(** A handler that rewrites one room and keeps its board table. *)
Lemma serverWf_putRoom s id room room' :
  serverWf s → mapGet id (rooms s) = Some room →
  roomId room' = roomId room → difficulty room' = difficulty room →
  gameState room' ≠ PostGame →
  (1 ≤ length (players room') ≤ 2)%nat →
  (∀ sock, (∃ p, p ∈ players room ∧ playerId p = sock) →
           ∃ p, p ∈ players room' ∧ playerId p = sock) →
  (gameState room' = Playing → gameState room = Playing) →
  serverWf (putRoom id room' s).
Proof.
  intros Hwf Hget Hid Hdiff Hstate Hlen Hps Hplaying.
  destruct (serverWf_get _ _ _ Hwf Hget) as (Hid0 & _ & _ & boards & Hb & Hok).
  apply (serverWf_put s _ id room' boards); try done.
  - congruence.
  - by apply (roomBoardsOk_room room).
Qed.

(** ** Every handler keeps the server well formed *)
Lemma initialServer_wf : serverWf initialServer.
Proof.
  split; [apply NoDup_nil_2|]. split; [constructor|]. intros id room H.
  discriminate H.
Qed.

Lemma createRoom_wf o socketId diff playerName s step :
  serverWf s →
  createRoom o socketId diff playerName s = Ok step → serverWf step.1.
Proof.
  intros Hwf [= <-]. cbn [fst].
  eapply (serverWf_put s _ (generateRoomId (idPick o)) _ ∅);
    [done|reflexivity|apply lookup_insert_eq| |done|done|cbn; lia
    |apply roomBoardsOk_empty].
  intros id' Hne. cbn. by rewrite lookup_insert_ne.
Qed.

Lemma joinRoom_wf socketId id playerName s step :
  serverWf s →
  joinRoom socketId id playerName s = Ok step → serverWf step.1.
Proof.
  intros Hwf. unfold joinRoom.
  destruct (mapGet id (rooms s)) as [room|] eqn:Hroom; [|by intros [= <-]].
  destruct (serverWf_get _ _ _ Hwf Hroom) as (_ & Hstate & Hlen & _).
  destruct (Nat.leb_spec 2 (length (players room))); intros [= <-]; [done|].
  cbn [fst]. apply (serverWf_putRoom s id room); try done.
  - cbn. rewrite length_app. cbn. lia.
  - intros sock (p & Hin & Hid). exists p. split; [|done]. cbn.
    apply elem_of_app. by left.
Qed.

Lemma playerReady_wf socketId id s step :
  serverWf s →
  playerReady socketId id s = Ok step → serverWf step.1.
Proof.
  intros Hwf. unfold playerReady.
  destruct (mapGet id (rooms s)) as [room|] eqn:Hroom; [|by intros [= <-]].
  destruct (serverWf_get _ _ _ Hwf Hroom) as (_ & Hstate & Hlen & _).
  destruct (findPlayer socketId (players room)); [|by intros [= <-]].
  cbn [players setPlayers gameState].
  assert (∀ sock, (∃ p, p ∈ players room ∧ playerId p = sock) →
            ∃ p, p ∈ updatePlayer socketId (λ p, setReady (negb (ready p)) p)
                       (players room) ∧ playerId p = sock) as Hps
    by (intros sock; by apply elem_of_updatePlayer).
  destruct (_ && _); [|destruct (bool_decide _)]; intros [= <-]; cbn [fst];
    apply (serverWf_putRoom s id room); try done;
    cbn; by rewrite length_updatePlayer.
Qed.

Lemma tick_wf o i s step :
  serverWf s → tick o i s = Ok step → serverWf step.1.
Proof.
  intros Hwf. unfold tick.
  destruct (timers s !! i) as [t|]; [|by intros [= <-]].
  destruct (_ <=? _); [|by intros [= <-]].
  intros H. res_inv H. by injection H as <-.
Qed.

Lemma dealBoards_lookup_ne (board : Board) ps (m : gmap string Board) k :
  (∀ p, p ∈ ps → playerId p ≠ k) →
  dealBoards board ps m !! k = m !! k.
Proof.
  unfold dealBoards. revert m. induction ps as [|p ps IH]; intros m Hall; [done|].
  cbn [foldl]. rewrite IH by (intros q Hq; apply Hall; by right).
  apply lookup_insert_ne. apply Hall. by left.
Qed.

Lemma dealBoards_lookup_Some (board : Board) ps (m : gmap string Board) k b :
  dealBoards board ps m !! k = Some b →
  (b = board ∧ ∃ p, p ∈ ps ∧ playerId p = k) ∨
  (m !! k = Some b ∧ ∀ p, p ∈ ps → playerId p ≠ k).
Proof.
  intros H. destruct (findPlayer k ps) as [p|] eqn:Hfind.
  - apply findPlayer_Some in Hfind as [Hin <-]. left.
    rewrite (dealBoards_lookup board ps m p Hin) in H. injection H as <-.
    eauto.
  - right. assert (∀ p, p ∈ ps → playerId p ≠ k) as Hall
      by (intros p Hp; by apply (findPlayer_None k ps)).
    rewrite dealBoards_lookup_ne in H by done. done.
Qed.

Lemma untouched_noMineShown (board : Board) :
  untouched board → noMineShown board.
Proof. intros H r c cell Hcell _. by destruct (H _ _ _ Hcell). Qed.

Lemma settings_nonneg key st :
  getDifficultySettings key = Own st → 0 ≤ rows st ∧ 0 ≤ cols st ∧ 0 ≤ mines st.
Proof.
  intros H. apply getDifficultySettings_Own in H as [-> | [-> | ->]]; cbn; lia.
Qed.

Lemma startGame_wf unitDraw fuel o socketId id s step :
  serverWf s →
  startGame unitDraw fuel o socketId id s = Ok step → serverWf step.1.
Proof.
  intros Hwf. unfold startGame.
  destruct (mapGet id (rooms s)) as [room|] eqn:Hroom; [|by intros [= <-]].
  destruct (serverWf_get _ _ _ Hwf Hroom)
    as (Hid & Hstate & Hlen & boards & Hboards & Hok).
  destruct (_ <? _)%nat; [by intros [= <-]|].
  destruct (findPlayer socketId (players room)) as [player|];
    [|by intros [= <-]].
  destruct (negb (isAdmin player)); [by intros [= <-]|].
  destruct (getDifficultySettings (difficulty room)) as [st|key] eqn:Hst;
    [|done].
  destruct (settings_nonneg _ _ Hst) as (Hr & Hc & Hm).
  intros H. apply bindRes_Ok in H as (roomBoard & Hgen & H).
  rewrite Hboards in H. res_simpl_in H.
  apply bindRes_Ok in H as (revealedBoard & Hflood & H).
  injection H as <-. cbn [fst].
  destruct (generateBoardWithSeed_sound _ _ _ _ _ _ _ _ _ Hr Hc Hm Hgen)
    as (Hd & Hcount & Hadj & Hfresh & Hsafe).
  assert (boardSound st roomBoard) as Hsound by done.
  pose proof (floodReveal_sound _ _ _ _ _ Hsound Hflood) as Hsound'.
  pose proof (floodReveal_noMineShown _ _ _ _ _ Hsound Hsafe Hflood
                (untouched_noMineShown _ Hfresh)) as Hshown.
  eapply (serverWf_put s _ id); [done|reflexivity|apply lookup_insert_eq
                                  | |done|done|done|].
  { intros id' Hne. cbn. by rewrite lookup_insert_ne. }
  intros sock board Hboard.
  apply dealBoards_lookup_Some in Hboard as [[-> Hp] | [Hboard Hnone]].
  { split; [done|]. exists st. cbn. auto. }
  exfalso.
  apply dealBoards_lookup_Some in Hboard as [[_ (p & Hp & Hpid)] | [Hboard _]].
  { by apply (Hnone p). }
  destruct (Hok _ _ Hboard) as ((p & Hp & Hpid) & _). by apply (Hnone p).
Qed.

Lemma revealMines_lookup (board : Board) r c cell :
  at2 board r c = Some cell →
  at2 (revealMines board) r c
  = Some (if isMine cell then withRevealed cell else cell).
Proof. intros H. by rewrite at2_revealMines, H. Qed.

Lemma cellClick_wf socketId id row col s step :
  serverWf s →
  cellClick socketId id row col s = Ok step → serverWf step.1.
Proof.
  intros Hwf. unfold cellClick.
  destruct (mapGet id (rooms s)) as [room|] eqn:Hroom; [|by intros [= <-]].
  destruct (serverWf_get _ _ _ Hwf Hroom)
    as (Hid & Hstate & Hlen & boards0 & Hboards0 & Hok).
  destruct (bool_decide (gameState room = Playing)) eqn:Hplaying;
    cbn [negb]; [|by intros [= <-]].
  apply bool_decide_eq_true in Hplaying.
  rewrite Hboards0.
  destruct (boards0 !! socketId) as [board|] eqn:Hboard; [|by intros [= <-]].
  destruct (Hok _ _ Hboard) as (Hp & st & Hst & Hsound & Hshown).
  specialize (Hshown Hplaying).
  destruct (at2 board row col) as [cell|] eqn:Hcell; res_simpl; [|done].
  destruct (isFlagged cell); [by intros [= <-]|].
  destruct (isMine cell) eqn:Hmine.
  { intros [= <-]. cbn [fst].
    eapply (serverWf_put s _ id); [done|reflexivity|apply lookup_insert_eq
                                    | |done|done|done|].
    { intros id' Hne. cbn. by rewrite lookup_insert_ne. }
    apply (roomBoardsOk_insert _ _ _ _ st); [|done|done| |done].
    - by apply (roomBoardsOk_room room).
    - by apply revealMines_sound. }
  rewrite Hst.
  intros H. apply bindRes_Ok in H as (board' & Hflood & H).
  apply bindRes_Ok in H as (won & Hwon & H).
  pose proof (floodReveal_sound _ _ _ _ _ Hsound Hflood) as Hsound'.
  assert (mineAt board row col = false) as Hsafe
    by (unfold mineAt; by rewrite Hcell).
  pose proof (floodReveal_noMineShown _ _ _ _ _ Hsound Hsafe Hflood Hshown)
    as Hshown'.
  assert (roomBoardsOk room (<[socketId := board']> boards0)) as Hok'
    by (by apply (roomBoardsOk_insert _ _ _ _ st)).
  destruct won.
  - injection H as <-. cbn [fst].
    eapply (serverWf_put s _ id); [done|reflexivity|apply lookup_insert_eq
                                    | |done|done|done|].
    { intros id' Hne. cbn. by rewrite lookup_insert_ne. }
    by apply (roomBoardsOk_room room).
  - apply bindRes_Ok in H as (progress & _ & H).
    apply bindRes_Ok in H as (table & _ & H). injection H as <-. cbn [fst].
    eapply (serverWf_put s _ id room); [done| |apply lookup_insert_eq
                                         | |done|done|done|done].
    + cbn. symmetry. by apply mapSet_id.
    + intros id' Hne. cbn. by rewrite lookup_insert_ne.
Qed.

Lemma cellFlag_wf socketId id row col s step :
  serverWf s →
  cellFlag socketId id row col s = Ok step → serverWf step.1.
Proof.
  intros Hwf. unfold cellFlag.
  destruct (mapGet id (rooms s)) as [room|] eqn:Hroom; [|by intros [= <-]].
  destruct (serverWf_get _ _ _ Hwf Hroom)
    as (Hid & Hstate & Hlen & boards0 & Hboards0 & Hok).
  destruct (negb _); [by intros [= <-]|].
  rewrite Hboards0.
  destruct (boards0 !! socketId) as [board|] eqn:Hboard; [|by intros [= <-]].
  destruct (Hok _ _ Hboard) as (Hp & st & Hst & Hsound & Hshown).
  destruct (at2 board row col) as [cell|] eqn:Hcell; res_simpl; [|done].
  destruct (isRevealed cell) eqn:Hrev; [by intros [= <-]|].
  intros H. apply bindRes_Ok in H as (progress & _ & H).
  injection H as <-. cbn [fst].
  eapply (serverWf_put s _ id room); [done| |apply lookup_insert_eq
                                       | |done|done|done|].
  - cbn. symmetry. by apply mapSet_id.
  - intros id' Hne. cbn. by rewrite lookup_insert_ne.
  - apply (roomBoardsOk_insert _ _ _ _ st); [done|done|done| |].
    + by apply (toggleFlag_sound _ _ _ _ cell).
    + intros Hplaying r c y Hy Hm.
      destruct (decide ((row, col) = (r, c))) as [Heq|Hne].
      * injection Heq as <- <-.
        rewrite (at2_set2_eq _ _ _ _ _ Hcell) in Hy. injection Hy as <-.
        exact Hrev.
      * apply at2_Some in Hcell as Hpos. destruct Hpos as (? & ? & _).
        rewrite at2_set2_ne in Hy by done.
        by apply (Hshown Hplaying r c).
Qed.

Lemma playAgain_wf o socketId id s step :
  serverWf s →
  playAgain o socketId id s = Ok step → serverWf step.1.
Proof.
  intros Hwf. unfold playAgain.
  destruct (mapGet id (rooms s)) as [room|] eqn:Hroom; [|by intros [= <-]].
  destruct (serverWf_get _ _ _ Hwf Hroom)
    as (Hid & Hstate & Hlen & boards0 & Hboards0 & Hok).
  destruct (findPlayer socketId (players room)); [|by intros [= <-]].
  cbn zeta. cbn [players setPlayers].
  destruct (allWantToPlayAgain _); intros [= <-]; cbn [fst].
  - eapply (serverWf_put s _ id _ ∅);
      [done|reflexivity| | |done|done| |apply roomBoardsOk_empty].
    + cbn. by rewrite lookup_alter_eq, Hboards0.
    + intros id' Hne. cbn. by rewrite lookup_alter_ne.
    + cbn. by rewrite length_map, length_updatePlayer.
  - apply (serverWf_putRoom s id room); try done.
    + cbn. by rewrite length_updatePlayer.
    + intros sock. cbn. by apply elem_of_updatePlayer.
Qed.

(** Taking a player out of a registered room. *)
Lemma leaveRoom_wf socketId id room s :
  serverWf s → mapGet id (rooms s) = Some room →
  serverWf (leaveRoom true socketId id room s).1.
Proof.
  intros Hwf Hroom. unfold leaveRoom.
  destruct (serverWf_get _ _ _ Hwf Hroom)
    as (Hid & Hstate & Hlen & boards0 & Hboards0 & Hok).
  destruct (findPlayer socketId (players room)); [|done].
  pose proof (length_removePlayer socketId (players room)) as Hle.
  cbn [players setPlayers].
  destruct (bool_decide (removePlayer socketId (players room) = []))
    eqn:Hempty; cbn [fst].
  - apply (serverWf_remove s _ id); [done| |].
    + cbn. apply mapDelete_mapSet.
    + intros id' Hne. cbn.
      rewrite lookup_delete_ne, lookup_alter_ne by done. done.
  - apply bool_decide_eq_false in Hempty.
    eapply (serverWf_put s _ id _ (delete socketId boards0));
      [done|reflexivity| | |done|done| |by apply roomBoardsOk_remove].
    + cbn. by rewrite lookup_alter_eq, Hboards0.
    + intros id' Hne. cbn. by rewrite lookup_alter_ne.
    + cbn. destruct (removePlayer socketId (players room)); [done|].
      cbn in *. lia.
Qed.

Lemma returnToLobby_wf o socketId id s step :
  serverWf s →
  returnToLobby o socketId id s = Ok step → serverWf step.1.
Proof.
  intros Hwf. unfold returnToLobby.
  destruct (mapGet id (rooms s)) as [room|] eqn:Hroom; [|by intros [= <-]].
  destruct (serverWf_get _ _ _ Hwf Hroom) as (_ & Hstate & _).
  destruct (findPlayer socketId (players room)) as [p|]; [|by intros [= <-]].
  rewrite (bool_decide_eq_false_2 (gameState room = PostGame)) by done.
  rewrite andb_false_r.
  destruct (leaveRoom _ _ _ _ _) as [s1 sent] eqn:Hleave.
  intros [= <-]. cbn [fst].
  change s1 with (s1, sent).1. rewrite <- Hleave.
  by apply leaveRoom_wf.
Qed.

Lemma disconnect_wf o socketId s step :
  serverWf s →
  disconnect o socketId s = Ok step → serverWf step.1.
Proof.
  intros Hwf. unfold disconnect.
  destruct (find _ (rooms s)) as [[id room]|] eqn:Hfind; [|by intros [= <-]].
  intros [= <-].
  apply find_some in Hfind as [Hin _]. apply list_elem_of_In in Hin.
  assert (mapGet id (rooms s) = Some room) as Hroom
    by (apply mapGet_NoDup; [apply Hwf|done]).
  destruct (serverWf_get _ _ _ Hwf Hroom)
    as (Hid & Hstate & Hlen & boards0 & Hboards0 & Hok).
  pose proof (length_removePlayer socketId (players room)) as Hle.
  unfold disconnectFrom. cbn [players setPlayers gameState].
  destruct (bool_decide (removePlayer socketId (players room) = []))
    eqn:Hempty; cbn [fst].
  { apply (serverWf_remove s _ id); [done| |].
    + cbn. apply mapDelete_mapSet.
    + intros id' Hne. cbn.
      rewrite lookup_delete_ne, lookup_alter_ne by done. done. }
  apply bool_decide_eq_false in Hempty.
  assert (1 ≤ length (removePlayer socketId (players room)) ≤ 2)%nat as Hlen'.
  { destruct (removePlayer socketId (players room)); [done|]. cbn in *. lia. }
  pose proof (roomBoardsOk_remove _ _ socketId Hok) as Hok'.
  assert (serverWf
            (setPlayerBoards
               (alter (delete socketId) id (playerBoards s))
               (putRoom id
                  (setPlayers (removePlayer socketId (players room)) room) s)))
    as Hwf1.
  { eapply (serverWf_put s _ id _ (delete socketId boards0));
      [done|reflexivity| | |done|done|done|done].
    + cbn. by rewrite lookup_alter_eq, Hboards0.
    + intros id' Hne. cbn. by rewrite lookup_alter_ne. }
  destruct (bool_decide (gameState room = Playing)); cbn [fst].
  { apply (serverWf_putRoom _ id
             (setPlayers (removePlayer socketId (players room)) room));
      try done.
    cbn. apply mapGet_mapSet_eq. }
  rewrite (bool_decide_eq_false_2 (gameState room = PostGame)) by done.
  done.
Qed.

Lemma handle_wf unitDraw o i s step :
  serverWf s → handle unitDraw o i s = Ok step → serverWf step.1.
Proof.
  destruct i; cbn [handle];
    eauto using createRoom_wf, joinRoom_wf, playerReady_wf, startGame_wf,
      cellClick_wf, cellFlag_wf, playAgain_wf, returnToLobby_wf,
      disconnect_wf, tick_wf.
Qed.

Lemma run_wf unitDraw inputs :
  ∀ s s', serverWf s → run unitDraw inputs s = Ok s' → serverWf s'.
Proof.
  induction inputs as [|[o i] inputs IH]; intros s s' Hwf; cbn [run].
  - by intros [= <-].
  - intros H. apply bindRes_Ok in H as (step & Hstep & H).
    eapply IH; [|exact H]. by eapply handle_wf.
Qed.

Lemma reachable_wf unitDraw s : reachable unitDraw s → serverWf s.
Proof.
  intros [inputs Hrun]. eapply run_wf; [|exact Hrun]. apply initialServer_wf.
Qed.

(** ** Reachable states *)
Lemma stateAfter_reachable inputs s :
  run sampleDraw inputs initialServer = Ok s →
  reachable sampleDraw (stateAfter inputs).
Proof. intros H. exists inputs. unfold stateAfter. by rewrite H. Qed.

(** X6: the registry of every reachable server is well formed: no two
    entries share a key, every room is stored under its own id, has one or
    two players (a room that loses its last player is deleted), is never in
    state post_game, and has a board table. *)
Theorem reachable_registry_wellformed unitDraw (s : Server) :
  reachable unitDraw s →
  NoDup (rooms s).*1 ∧
  ∀ id room, mapGet id (rooms s) = Some room →
    roomId room = id ∧
    (1 ≤ length (players room) ≤ 2)%nat ∧
    gameState room ≠ PostGame ∧
    is_Some (playerBoards s !! id).
Proof.
  intros Hreach. apply reachable_wf in Hreach. split; [apply Hreach|].
  intros id room Hroom.
  destruct (serverWf_get _ _ _ Hreach Hroom)
    as (Hid & Hstate & Hlen & boards & Hboards & _).
  rewrite Hboards. eauto.
Qed.

Lemma reachable_registry_wellformed_witness :
  NoDup (rooms (stateAfter rematchTrace)).*1 ∧
  ∀ id room, mapGet id (rooms (stateAfter rematchTrace)) = Some room →
    roomId room = id ∧
    (1 ≤ length (players room) ≤ 2)%nat ∧
    gameState room ≠ PostGame ∧
    is_Some (playerBoards (stateAfter rematchTrace) !! id).
Proof.
  apply (reachable_registry_wellformed sampleDraw).
  eapply stateAfter_reachable. vm_compute. reflexivity.
Defined.

(** X7: every board a reachable server holds belongs to a player listed in
    its room, has the rows and columns of the room's difficulty, holds
    exactly that difficulty's number of mines, shows on every safe cell the
    number of mines around it, and, while the room is playing, has no mine
    revealed. *)
Theorem reachable_boards_sound unitDraw (s : Server) id room
    (boards : gmap string Board) sock (board : Board) :
  reachable unitDraw s →
  mapGet id (rooms s) = Some room →
  playerBoards s !! id = Some boards →
  boards !! sock = Some board →
  (∃ p, p ∈ players room ∧ playerId p = sock) ∧
  ∃ st, getDifficultySettings (difficulty room) = Own st ∧
        hasDims (rows st) (cols st) board ∧
        Z.of_nat (countCells isMine board) = mines st ∧
        adjacencyCorrect board ∧
        (gameState room = Playing → noMineShown board).
Proof.
  intros Hreach Hroom Hboards Hboard. apply reachable_wf in Hreach.
  destruct (serverWf_get _ _ _ Hreach Hroom)
    as (_ & _ & _ & boards0 & Hboards0 & Hok).
  assert (boards0 = boards) as -> by congruence.
  destruct (Hok _ _ Hboard) as (Hp & st & Hst & (Hd & Hcount & Hadj) & Hshown).
  split; [done|]. exists st. repeat (split; [done|]). split; [|done].
  rewrite Hcount. destruct (settings_nonneg _ _ Hst) as (_ & _ & Hm). lia.
Qed.

Lemma reachable_boards_sound_witness :
  (∃ p, p ∈ [mkPlayer "alice" "Alice" true true false;
             mkPlayer "bob" "Bob" true false false] ∧ playerId p = "bob") ∧
  ∃ st, getDifficultySettings "easy" = Own st ∧
        hasDims (rows st) (cols st)
          (default [] (default ∅ (playerBoards (stateAfter (startTrace "easy"))
                                    !! "aaaa") !! "bob")) ∧
        Z.of_nat (countCells isMine
          (default [] (default ∅ (playerBoards (stateAfter (startTrace "easy"))
                                    !! "aaaa") !! "bob"))) = mines st ∧
        adjacencyCorrect
          (default [] (default ∅ (playerBoards (stateAfter (startTrace "easy"))
                                    !! "aaaa") !! "bob")) ∧
        (Playing = Playing →
         noMineShown
           (default [] (default ∅ (playerBoards (stateAfter (startTrace "easy"))
                                     !! "aaaa") !! "bob"))).
Proof.
  apply (reachable_boards_sound sampleDraw (stateAfter (startTrace "easy"))
           "aaaa"
           (mkRoom "aaaa" "easy"
              [mkPlayer "alice" "Alice" true true false;
               mkPlayer "bob" "Bob" true false false]
              Playing 7 (Some 1000) None)
           (default ∅ (playerBoards (stateAfter (startTrace "easy")) !! "aaaa"))
           "bob").
  - eapply stateAfter_reachable. vm_compute. reflexivity.
  - vm_compute. reflexivity.
  - vm_compute. reflexivity.
  - vm_compute. reflexivity.
Defined.

Lemma roomBoardsOk_dims room (boards : gmap string Board) st :
  roomBoardsOk room boards →
  getDifficultySettings (difficulty room) = Own st →
  map_Forall (λ _ b, hasDims (rows st) (cols st) b) boards.
Proof.
  intros Hok Hst sock board Hboard.
  destruct (Hok _ _ Hboard) as (_ & st' & Hst' & (Hd & _) & _).
  assert (st' = st) as -> by congruence. done.
Qed.

(** X8: on a reachable server cellClick and cellFlag never run out of
    steps, and they throw in one case only: the room is playing, the sender
    holds a board, and the coordinates lie outside the rows and columns of
    the room's difficulty.  In every other case they complete. *)
Theorem reachable_cell_handlers_throw_only_out_of_bounds unitDraw (s : Server)
    (h : string → string → Z → Z → Server → Res Step) socketId id row col :
  reachable unitDraw s →
  h = cellClick ∨ h = cellFlag →
  (∃ step, h socketId id row col s = Ok step) ∨
  (h socketId id row col s = Thrown ∧
   ∃ room boards st,
     mapGet id (rooms s) = Some room ∧ gameState room = Playing ∧
     playerBoards s !! id = Some boards ∧ is_Some (boards !! socketId) ∧
     getDifficultySettings (difficulty room) = Own st ∧
     inBounds (rows st) (cols st) row col = false).
Proof.
  intros Hreach Hh. apply reachable_wf in Hreach.
  destruct (mapGet id (rooms s)) as [room|] eqn:Hroom.
  2:{ left. destruct Hh as [-> | ->]; unfold cellClick, cellFlag;
        rewrite Hroom; eauto. }
  destruct (serverWf_get _ _ _ Hreach Hroom)
    as (_ & _ & _ & boards & Hboards & Hok).
  destruct (decide (gameState room = Playing)) as [Hplaying|Hother].
  2:{ left. destruct Hh as [-> | ->]; unfold cellClick, cellFlag;
        rewrite Hroom, (bool_decide_eq_false_2 _ Hother); cbn [negb]; eauto. }
  destruct (boards !! socketId) as [board|] eqn:Hboard.
  2:{ left. destruct Hh as [-> | ->]; unfold cellClick, cellFlag;
        rewrite Hroom, (bool_decide_eq_true_2 _ Hplaying), Hboards, Hboard;
        cbn [negb]; eauto. }
  destruct (Hok _ _ Hboard) as (_ & st & Hst & (Hd & _) & _).
  pose proof (roomBoardsOk_dims _ _ _ Hok Hst) as Hall.
  destruct (at2 board row col) as [cell|] eqn:Hcell.
  - left. destruct Hh as [-> | ->]; unfold cellClick, cellFlag;
      rewrite Hroom, (bool_decide_eq_true_2 _ Hplaying), Hboards, Hboard,
        Hcell, Hst; cbn [negb]; res_simpl.
    + destruct (isFlagged cell); [eauto|].
      destruct (isMine cell); [eauto|].
      destruct (floodReveal_runs board row col _ _ Hd)
        as (board' & Hflood & Hd').
      rewrite Hflood. res_simpl.
      rewrite (checkWin_scan board') by done. res_simpl.
      destruct (forallb _ (mjoin board')); [eauto|].
      rewrite (getPlayerProgress_scan board') by done. res_simpl.
      destruct (progressTable_runs (players room)
                  (<[socketId := board']> boards) st) as [table Htable].
      { intros p b _.
        apply (map_Forall_insert_2
                 (λ (_ : string) b, hasDims (rows st) (cols st) b)
                 boards socketId board' Hd' Hall). }
      rewrite Htable. res_simpl. eauto.
    + destruct (isRevealed cell); [eauto|].
      rewrite (getPlayerProgress_scan (set2 toggleFlag board row col))
        by (by apply hasDims_set2).
      res_simpl. eauto.
  - right. split.
    + destruct Hh as [-> | ->]; unfold cellClick, cellFlag;
        by rewrite Hroom, (bool_decide_eq_true_2 _ Hplaying), Hboards, Hboard,
          Hcell.
    + exists room, boards, st. repeat (split; [done|]).
      destruct (inBounds (rows st) (cols st) row col) eqn:Hin; [|done].
      destruct (hasDims_at2 _ _ _ _ _ Hd Hin) as [cell Hcell'].
      congruence.
Qed.

Lemma reachable_cell_handlers_throw_only_out_of_bounds_witness :
  (∃ step, cellClick "bob" "aaaa" 0 0 (stateAfter (startTrace "easy"))
           = Ok step) ∨
  (cellClick "bob" "aaaa" 0 0 (stateAfter (startTrace "easy")) = Thrown ∧
   ∃ room boards st,
     mapGet "aaaa" (rooms (stateAfter (startTrace "easy"))) = Some room ∧
     gameState room = Playing ∧
     playerBoards (stateAfter (startTrace "easy")) !! "aaaa" = Some boards ∧
     is_Some (boards !! "bob") ∧
     getDifficultySettings (difficulty room) = Own st ∧
     inBounds (rows st) (cols st) 0 0 = false).
Proof.
  apply (reachable_cell_handlers_throw_only_out_of_bounds sampleDraw
           (stateAfter (startTrace "easy")) cellClick "bob" "aaaa" 0 0).
  - eapply stateAfter_reachable. vm_compute. reflexivity.
  - by left.
Defined.

(** ** startGame on a reachable server *)
Lemma placeMines_not_thrown unitDraw fuel seed rows cols mines safeZone counter
    placed (board : Board) :
  inUnitInterval unitDraw → 0 < rows → 0 < cols →
  hasDims rows cols board →
  placeMines unitDraw fuel seed rows cols mines safeZone counter placed board
  ≠ Thrown.
Proof.
  intros Hunit Hr Hc. revert counter placed board.
  induction fuel as [|fuel IH]; intros counter placed board Hd.
  - cbn [placeMines]. by destruct (placed <? mines).
  - destruct (Z.ltb_spec placed mines) as [Hlt|Hge];
      [|by rewrite placeMines_done].
    rewrite placeMines_step by done. cbn zeta.
    destruct (hasDims_at2 rows cols board
                (random unitDraw seed counter 0 (rows - 1))
                (random unitDraw seed (counter + 1) 0 (cols - 1)) Hd)
      as [cell Hcell].
    { pose proof (random_range unitDraw seed counter 0 (rows - 1) Hunit).
      pose proof (random_range unitDraw seed (counter + 1) 0 (cols - 1) Hunit).
      unfold inBounds. repeat (apply andb_true_intro; split); lia. }
    rewrite Hcell. res_simpl.
    destruct (negb (isMine cell) && negb _); apply IH; [|done].
    by apply hasDims_set2.
Qed.

Lemma settings_positive key st :
  getDifficultySettings key = Own st → 0 < rows st ∧ 0 < cols st.
Proof.
  intros H. apply getDifficultySettings_Own in H as [-> | [-> | ->]]; cbn; lia.
Qed.

(** X9: on a reachable server startGame throws for one reason only, a
    difficulty that names an inherited member of the settings object: with
    draws in the unit interval and one of the three difficulty tables in
    force it never throws, whoever sends it and whatever the state of the
    room. *)
Theorem reachable_startGame_throws_only_inherited unitDraw0 unitDraw fuel o
    socketId id (s : Server) :
  reachable unitDraw0 s → inUnitInterval unitDraw →
  startGame unitDraw fuel o socketId id s = Thrown →
  ∃ room key,
    mapGet id (rooms s) = Some room ∧
    getDifficultySettings (difficulty room) = Inherited key.
Proof.
  intros Hreach Hunit. apply reachable_wf in Hreach. unfold startGame.
  destruct (mapGet id (rooms s)) as [room|] eqn:Hroom; [|done].
  destruct (serverWf_get _ _ _ Hreach Hroom)
    as (_ & _ & _ & boards & Hboards & _).
  destruct (_ <? _)%nat; [done|].
  destruct (findPlayer socketId (players room)) as [player|]; [|done].
  destruct (negb (isAdmin player)); [done|].
  destruct (getDifficultySettings (difficulty room)) as [st|key] eqn:Hst;
    [|eauto].
  destruct (settings_positive _ _ Hst) as [Hr Hc].
  destruct (settings_nonneg _ _ Hst) as (_ & _ & Hm).
  destruct (generateBoardWithSeed unitDraw fuel (seed room) (rows st) (cols st)
              (mines st) _ _) as [roomBoard| |] eqn:Hgen; res_simpl.
  - rewrite Hboards. res_simpl.
    destruct (generateBoardWithSeed_sound _ _ _ _ _ _ _ _ _
                (Z.lt_le_incl _ _ Hr) (Z.lt_le_incl _ _ Hc) Hm Hgen) as (Hd & _).
    destruct (floodReveal_runs roomBoard
                (random unitDraw (seed room) 0 0 (rows st - 1))
                (random unitDraw (seed room) 1 0 (cols st - 1)) _ _ Hd)
      as (revealed & -> & _).
    res_simpl. done.
  - exfalso. unfold generateBoardWithSeed in Hgen. cbn zeta in Hgen.
    destruct (placeMines unitDraw fuel (seed room) (rows st) (cols st)
                (mines st) _ 0 0 (blankBoard (rows st) (cols st)))
      as [placed| |] eqn:Hplaced; res_simpl_in Hgen.
    + assert (hasDims (rows st) (cols st) placed) as Hd.
      { refine (placeMines_dims _ _ _ _ _ _ _ _ _ _ _ _ Hplaced).
        apply hasDims_replicate; lia. }
      destruct (fillAdjacent_runs placed _ _ Hd) as (b & Hb & _). congruence.
    + revert Hplaced. apply placeMines_not_thrown; try done.
      apply hasDims_replicate; lia.
    + done.
  - done.
Qed.

Lemma reachable_startGame_throws_only_inherited_witness :
  ∃ room key,
    mapGet "aaaa" (rooms (stateAfter (lobbyTrace "constructor"))) = Some room ∧
    getDifficultySettings (difficulty room) = Inherited key.
Proof.
  apply (reachable_startGame_throws_only_inherited sampleDraw sampleDraw 400
           sampleOracle "alice" "aaaa").
  - eapply stateAfter_reachable. vm_compute. reflexivity.
  - apply sampleDraw_unit.
  - vm_compute. reflexivity.
Defined.

(** ** The opening of a game *)

(** On a board with right numbers and a mine-free safe zone the safe cell
    shows 0. *)
Lemma safeCell_zero (board : Board) rows cols safeR safeC cell :
  hasDims rows cols board → adjacencyCorrect board →
  (∀ r c x, at2 board r c = Some x →
            (r, c) ∈ safeZoneOf rows cols safeR safeC → isMine x = false) →
  at2 board safeR safeC = Some cell →
  isZeroSafe cell = true.
Proof.
  intros Hd Hadj Hsafe Hcell.
  assert (isMine cell = false) as Hmine.
  { apply (Hsafe _ _ _ Hcell). apply elem_of_safeZoneOf. by left. }
  unfold isZeroSafe. rewrite Hmine, andb_true_r. apply Z.eqb_eq.
  rewrite (Hadj _ _ _ Hcell), Hmine.
  apply neighbourMines_zero. intros [dr dc] Hdin. cbn [fst snd]. unfold mineAt.
  destruct (at2 board (safeR + dr) (safeC + dc)) as [y|] eqn:Hy; [|done].
  apply (Hsafe _ _ _ Hy). apply elem_of_safeZoneOf. right.
  apply elem_of_offsets8 in Hdin as (? & ? & _).
  split; [by eapply at2_hasDims|]. lia.
Qed.

(** A reveal from a hidden zero cell of an untouched board opens the cell
    and the cells around it. *)
Lemma floodReveal_opens_around (board board' : Board) rows cols r c cell :
  hasDims rows cols board → untouched board →
  at2 board r c = Some cell → isZeroSafe cell = true →
  floodReveal board r c rows cols = Ok board' →
  ∀ r' c' y, at2 board' r' c' = Some y →
    Z.abs (r' - r) ≤ 1 → Z.abs (c' - c) ≤ 1 →
    isRevealed y = true.
Proof.
  intros Hd Hfresh Hcell Hzero Hrun r' c' y Hy Hr Hc.
  destruct (Hfresh _ _ _ Hcell) as [Hrev Hflag].
  rewrite (floodReveal_first _ _ _ _ _ Hd), Hcell, Hrev, Hflag, Hzero in Hrun.
  cbn [orb] in Hrun.
  pose proof (floodLoop_dims _ _ _ _ _ _ _ Hrun
                (hasDims_set2 withRevealed _ _ _ r c Hd)) as Hd'.
  pose proof (at2_hasDims _ _ _ _ _ _ Hd' Hy) as Hin.
  destruct (hasDims_at2 _ _ _ _ _ Hd Hin) as [x Hx].
  destruct (Hfresh _ _ _ Hx) as [_ Hxflag].
  assert (isClosed y = true) as Hclosed.
  { destruct (decide ((r', c') = (r, c))) as [Heq|Hne].
    - injection Heq as -> ->.
      apply (isClosed_kept _ _ _ _ _ _ _ r c (withRevealed cell) y Hrun);
        [by apply at2_set2_eq|done|done].
    - destruct Hd as (Hrows & Hcols & Hlen).
      apply floodLoop_closure in Hrun as [HA _].
      + apply (HA (r', c') y); [|done].
        apply elem_of_pushNeighbours. right. exists (r' - r, c' - c).
        cbn [fst snd]. split; [|f_equal; lia].
        apply elem_of_offsets8. split; [done|]. split; [done|].
        intros [= H1 H2]. apply Hne. f_equal; lia.
      + apply hasDims_set2. by apply hasDims_replicate.
      + by apply hasDims_set2.
      + intros r0 c0 x0 Hv Hx0.
        destruct (decide ((r, c) = (r0, c0))) as [Heq|Hne0].
        * injection Heq as <- <-.
          rewrite (at2_set2_eq _ _ _ _ _ Hcell) in Hx0. by injection Hx0 as <-.
        * apply at2_Some in Hcell as Hpos. destruct Hpos as (? & ? & _).
          rewrite at2_set2_ne in Hv by done.
          apply at2_replicate in Hv. discriminate Hv. }
  assert (isFlagged y = false) as Hyflag.
  { assert (at2 (set2 withRevealed board r c) r' c' = Some x ∨
            at2 (set2 withRevealed board r c) r' c' = Some (withRevealed x))
      as Hx1.
    { destruct (decide ((r, c) = (r', c'))) as [Heq|Hne].
      - injection Heq as <- <-. right.
        rewrite (at2_set2_eq _ _ _ _ _ Hcell). congruence.
      - left. apply at2_Some in Hcell as Hpos. destruct Hpos as (? & ? & _).
        by rewrite at2_set2_ne. }
    destruct Hx1 as [Hx1|Hx1];
      destruct (floodLoop_grows _ _ _ _ _ _ _ _ _ _ Hrun Hx1)
        as (y' & Hy' & _ & Hf & _);
      assert (y' = y) as -> by congruence; rewrite Hf; done. }
  unfold isClosed in Hclosed. rewrite Hyflag, orb_false_r in Hclosed. done.
Qed.

(** X10: what startGame deals.  When the admin of a room with two players
    starts a game under one of the difficulty tables, and the mine placement
    terminates within n rounds, startGame completes and announces the
    countdown with a first click that lies on the board; every player of the
    room then holds one and the same board, of the shape of the difficulty,
    on which the first-click cell and every cell next to it are revealed
    and free of mines, no mine is revealed and no cell is flagged. *)
Theorem startGame_deals_opened_board unitDraw (n fuel : nat) o socketId id
    (s : Server) room player st (boards : gmap string Board) :
  inUnitInterval unitDraw →
  mapGet id (rooms s) = Some room →
  (2 ≤ length (players room))%nat →
  findPlayer socketId (players room) = Some player → isAdmin player = true →
  getDifficultySettings (difficulty room) = Own st →
  playerBoards s !! id = Some boards →
  (Z.to_nat (mines st)
   ≤ size (drawnCells unitDraw (seed room) (rows st) (cols st) 0 n
           ∖ safeZoneOf (rows st) (cols st)
               (firstClickOf unitDraw room st).1
               (firstClickOf unitDraw room st).2))%nat →
  (n ≤ fuel)%nat →
  ∃ (s' : Server) (boards' : gmap string Board) (board : Board),
    startGame unitDraw fuel o socketId id s
    = Ok (s', [(toRoom id,
                countdownStarted 5 (firstClickOf unitDraw room st))]) ∧
    inBounds (rows st) (cols st) (firstClickOf unitDraw room st).1
      (firstClickOf unitDraw room st).2 = true ∧
    playerBoards s' !! id = Some boards' ∧
    (∀ p, p ∈ players room → boards' !! playerId p = Some board) ∧
    hasDims (rows st) (cols st) board ∧
    (∀ r c cell, at2 board r c = Some cell →
       (Z.abs (r - (firstClickOf unitDraw room st).1) ≤ 1 →
        Z.abs (c - (firstClickOf unitDraw room st).2) ≤ 1 →
        isRevealed cell = true ∧ isMine cell = false) ∧
       (isMine cell = true → isRevealed cell = false) ∧
       isFlagged cell = false).
Proof.
  intros Hunit Hroom Hlen Hplayer Hadmin Hst Hboards Hsize Hfuel.
  destruct (settings_positive _ _ Hst) as [Hr Hc].
  destruct (settings_nonneg _ _ Hst) as (_ & _ & Hm).
  unfold firstClickOf in *. cbn [fst snd] in *.
  set (fr := random unitDraw (seed room) 0 0 (rows st - 1)) in *.
  set (fc := random unitDraw (seed room) 1 0 (cols st - 1)) in *.
  assert (inBounds (rows st) (cols st) fr fc = true) as Hin.
  { pose proof (random_range unitDraw (seed room) 0 0 (rows st - 1) Hunit).
    pose proof (random_range unitDraw (seed room) 1 0 (cols st - 1) Hunit).
    unfold inBounds, fr, fc. repeat (apply andb_true_intro; split); lia. }
  destruct (generateBoardWithSeed_runs unitDraw (seed room) (rows st) (cols st)
              (mines st) fr fc n Hunit Hr Hc Hm Hsize)
    as (roomBoard & Hgen & Hd & _ & Hzone).
  specialize (Hgen fuel Hfuel).
  destruct (generateBoardWithSeed_sound _ _ _ _ _ _ _ _ _
              (Z.lt_le_incl _ _ Hr) (Z.lt_le_incl _ _ Hc) Hm Hgen)
    as (_ & Hcount & Hadj & Hfresh & Hsafe).
  destruct (floodReveal_runs roomBoard fr fc _ _ Hd) as (board & Hflood & Hd').
  destruct (hasDims_at2 _ _ _ _ _ Hd Hin) as [origin Horigin].
  pose proof (safeCell_zero _ _ _ _ _ _ Hd Hadj Hzone Horigin) as Hzero.
  eexists _, _, board. split; [|split; [done|split; [|split; [|split]]]].
  - unfold startGame. rewrite Hroom.
    destruct (Nat.ltb_spec (length (players room)) 2) as [Hlt|_]; [lia|].
    rewrite Hplayer, Hadmin, Hst. cbn [negb].
    fold fr. fold fc. rewrite Hgen. res_simpl. rewrite Hboards. res_simpl.
    rewrite Hflood. res_simpl. reflexivity.
  - cbn. apply lookup_insert_eq.
  - intros p Hp. by apply dealBoards_lookup.
  - done.
  - intros r c cell Hcell.
    pose proof (at2_hasDims _ _ _ _ _ _ Hd' Hcell) as Hcin.
    destruct (hasDims_at2 _ _ _ _ _ Hd Hcin) as [x Hx].
    unfold floodReveal, freshVisited in Hflood.
    destruct ((0 <? rows st) && (cols st <? 0)) eqn:Hguard.
    { apply andb_prop in Hguard as [_ Hguard]. lia. }
    destruct (floodLoop_grows _ _ _ _ _ _ _ _ _ _ Hflood Hx)
      as (y & Hy & Hmine & Hflag & _).
    assert (y = cell) as -> by congruence.
    split; [|split].
    + intros Hnr Hnc. split.
      * refine (floodReveal_opens_around roomBoard board _ _ fr fc origin
                  Hd Hfresh Horigin Hzero _ r c cell Hcell Hnr Hnc).
        unfold floodReveal, freshVisited. by rewrite Hguard.
      * rewrite Hmine. apply (Hzone _ _ _ Hx). apply elem_of_safeZoneOf.
        right. done.
    + assert (boardSound st roomBoard) as Hsound by done.
      refine (floodReveal_noMineShown st roomBoard board fr fc Hsound Hsafe _
                (untouched_noMineShown _ Hfresh) r c cell Hcell).
      unfold floodReveal, freshVisited. by rewrite Hguard.
    + rewrite Hflag. by destruct (Hfresh _ _ _ Hx).
Qed.

Lemma startGame_deals_opened_board_witness :
  ∃ (s' : Server) (boards' : gmap string Board) (board : Board),
    startGame sampleDraw 40 sampleOracle "alice" "aaaa"
      (stateAfter (lobbyTrace "easy"))
    = Ok (s', [(toRoom "aaaa",
                countdownStarted 5 (firstClickOf sampleDraw readyRoom easy))]) ∧
    inBounds (rows easy) (cols easy) (firstClickOf sampleDraw readyRoom easy).1
      (firstClickOf sampleDraw readyRoom easy).2 = true ∧
    playerBoards s' !! "aaaa" = Some boards' ∧
    (∀ p, p ∈ players readyRoom → boards' !! playerId p = Some board) ∧
    hasDims (rows easy) (cols easy) board ∧
    (∀ r c cell, at2 board r c = Some cell →
       (Z.abs (r - (firstClickOf sampleDraw readyRoom easy).1) ≤ 1 →
        Z.abs (c - (firstClickOf sampleDraw readyRoom easy).2) ≤ 1 →
        isRevealed cell = true ∧ isMine cell = false) ∧
       (isMine cell = true → isRevealed cell = false) ∧
       isFlagged cell = false).
Proof.
  apply (startGame_deals_opened_board sampleDraw 40 40 sampleOracle "alice"
           "aaaa" (stateAfter (lobbyTrace "easy")) readyRoom
           (mkPlayer "alice" "Alice" true true false) easy ∅).
  - exact sampleDraw_unit.
  - vm_compute. reflexivity.
  - cbn. lia.
  - vm_compute. reflexivity.
  - reflexivity.
  - vm_compute. reflexivity.
  - vm_compute. reflexivity.
  - vm_compute. lia.
  - lia.
Defined.

(** ** Flags *)
Lemma alter_twice {A} (f g : A → A) (l : list A) i :
  alter f i (alter g i l) = alter (λ x, f (g x)) i l.
Proof.
  revert i. induction l as [|x l IH]; intros [|i]; cbn; try done.
  f_equal. apply IH.
Qed.

Lemma set2_toggleFlag_twice (board : Board) r c :
  set2 toggleFlag (set2 toggleFlag board r c) r c = board.
Proof.
  unfold set2. rewrite alter_twice. apply list_alter_id. intros row.
  rewrite alter_twice. apply list_alter_id. intros [m rv fl n]. cbn.
  unfold toggleFlag. cbn. by rewrite negb_involutive.
Qed.

Lemma countCells_toggleFlag (board : Board) r c cell :
  at2 board r c = Some cell →
  countCells isSafeRevealed (set2 toggleFlag board r c)
  = countCells isSafeRevealed board.
Proof.
  intros Hcell.
  pose proof (countCells_set2 isSafeRevealed toggleFlag _ _ _ _ Hcell) as Hc.
  change (isSafeRevealed (toggleFlag cell)) with (isSafeRevealed cell) in Hc.
  lia.
Qed.

(** X11: cellFlag in a playing room, on a hidden cell of the sender's
    board: it toggles the flag of that cell, leaves the rooms as they are,
    and tells the sender alone, with the progress the board had before (a
    flag never changes the progress); a second cellFlag on the same cell
    puts the server back in exactly the state it was in. *)
Theorem cellFlag_twice_restores (s : Server) socketId id row col room
    (boards : gmap string Board) (board : Board) cell st :
  mapGet id (rooms s) = Some room →
  gameState room = Playing →
  playerBoards s !! id = Some boards →
  boards !! socketId = Some board →
  getDifficultySettings (difficulty room) = Own st →
  hasDims (rows st) (cols st) board →
  at2 board row col = Some cell →
  isRevealed cell = false →
  ∃ progress (s1 : Server),
    getPlayerProgress board (rows st) (cols st) (mines st) = Ok progress ∧
    cellFlag socketId id row col s
    = Ok (s1, [(toSocket socketId,
                boardUpdate (set2 toggleFlag board row col) (row, col)
                  progress)]) ∧
    rooms s1 = rooms s ∧
    (∃ boards1, playerBoards s1 !! id = Some boards1 ∧
       boards1 !! socketId = Some (set2 toggleFlag board row col) ∧
       ∀ other, other ≠ socketId → boards1 !! other = boards !! other) ∧
    at2 (set2 toggleFlag board row col) row col = Some (toggleFlag cell) ∧
    (∀ r c, (r, c) ≠ (row, col) →
       at2 (set2 toggleFlag board row col) r c = at2 board r c) ∧
    cellFlag socketId id row col s1
    = Ok (s, [(toSocket socketId, boardUpdate board (row, col) progress)]).
Proof.
  intros Hroom Hplaying Hboards Hboard Hst Hd Hcell Hrev.
  set (board1 := set2 toggleFlag board row col).
  assert (hasDims (rows st) (cols st) board1) as Hd1 by (by apply hasDims_set2).
  assert (at2 board1 row col = Some (toggleFlag cell)) as Hcell1
    by (by apply at2_set2_eq).
  eexists _, _. split; [by apply getPlayerProgress_scan|].
  split; [|split; [|split; [|split; [|split]]]].
  - unfold cellFlag. rewrite Hroom, Hplaying.
    rewrite bool_decide_eq_true_2 by done. cbn [negb].
    rewrite Hboards, Hboard, Hcell. res_simpl. rewrite Hrev, Hst.
    rewrite (getPlayerProgress_scan board1) by done. res_simpl.
    unfold board1. rewrite (countCells_toggleFlag _ _ _ _ Hcell). reflexivity.
  - reflexivity.
  - eexists. split; [cbn; apply lookup_insert_eq|]. split.
    + apply lookup_insert_eq.
    + intros other Hne. by rewrite lookup_insert_ne.
  - done.
  - intros r c Hne. apply at2_Some in Hcell as (? & ? & _).
    by apply at2_set2_ne.
  - unfold cellFlag. cbn [rooms putBoards setPlayerBoards playerBoards].
    rewrite Hroom, Hplaying.
    rewrite bool_decide_eq_true_2 by done. cbn [negb].
    rewrite !lookup_insert_eq. unfold board1 in Hcell1. rewrite Hcell1.
    res_simpl.
    change (isRevealed (toggleFlag cell)) with (isRevealed cell).
    rewrite Hrev, Hst, set2_toggleFlag_twice.
    rewrite (getPlayerProgress_scan board) by done. res_simpl.
    unfold putBoards, setPlayerBoards. cbn [playerBoards rooms timers].
    rewrite !insert_insert_eq, (insert_id boards), (insert_id (playerBoards s))
      by done.
    by destruct s.
Qed.

Lemma cellFlag_twice_restores_witness :
  ∃ progress (s1 : Server),
    getPlayerProgress sampleBoard (rows easy) (cols easy) (mines easy)
    = Ok progress ∧
    cellFlag "bob" "aaaa" 5 6 sampleGame
    = Ok (s1, [(toSocket "bob",
                boardUpdate (set2 toggleFlag sampleBoard 5 6) (5, 6)
                  progress)]) ∧
    rooms s1 = rooms sampleGame ∧
    (∃ boards1, playerBoards s1 !! "aaaa" = Some boards1 ∧
       boards1 !! "bob" = Some (set2 toggleFlag sampleBoard 5 6) ∧
       ∀ other, other ≠ "bob" → boards1 !! other = sampleBoards !! other) ∧
    at2 (set2 toggleFlag sampleBoard 5 6) 5 6
    = Some (toggleFlag (mkCell true false false 0)) ∧
    (∀ r c, (r, c) ≠ (5, 6) →
       at2 (set2 toggleFlag sampleBoard 5 6) r c = at2 sampleBoard r c) ∧
    cellFlag "bob" "aaaa" 5 6 s1
    = Ok (sampleGame,
          [(toSocket "bob", boardUpdate sampleBoard (5, 6) progress)]).
Proof.
  apply (cellFlag_twice_restores sampleGame "bob" "aaaa" 5 6 playingRoom
           sampleBoards sampleBoard (mkCell true false false 0) easy).
  - vm_compute. reflexivity.
  - reflexivity.
  - vm_compute. reflexivity.
  - vm_compute. reflexivity.
  - vm_compute. reflexivity.
  - apply (bool_decide_unpack _). vm_compute. exact I.
  - vm_compute. reflexivity.
  - reflexivity.
Defined.

(** X12: a click on a hidden safe cell.  In a playing room, on a cell of
    the sender's board that is neither flagged nor a mine, cellClick stores
    the flood-revealed board for the sender and leaves every other board
    alone.  If that board has every safe cell revealed, the room becomes
    finished with the sender as winner and gameWon is the one event sent;
    otherwise the room stays as it is, the sender gets boardUpdate with the
    new progress, and the room gets the progress table, one entry for each
    listed player who holds a board, sent twice over. *)
Theorem cellClick_safe_cell (s : Server) socketId id row col room player
    (boards : gmap string Board) (board : Board) cell st :
  mapGet id (rooms s) = Some room →
  gameState room = Playing →
  findPlayer socketId (players room) = Some player →
  playerBoards s !! id = Some boards →
  boards !! socketId = Some board →
  getDifficultySettings (difficulty room) = Own st →
  map_Forall (λ _ b, hasDims (rows st) (cols st) b) boards →
  at2 board row col = Some cell →
  isFlagged cell = false → isMine cell = false →
  ∃ (board' : Board) (s' : Server) sent,
    floodReveal board row col (rows st) (cols st) = Ok board' ∧
    cellClick socketId id row col s = Ok (s', sent) ∧
    playerBoards s' = <[id := <[socketId := board']> boards]> (playerBoards s) ∧
    timers s' = timers s ∧
    (allSafeRevealed board' →
     rooms s'
     = mapSet id (setWinner (Some (nameOrUnknown (Some player)))
                    (setGameState Finished room)) (rooms s) ∧
     sent = [(toRoom id, gameWon (nameOrUnknown (Some player)) socketId)]) ∧
    (¬ allSafeRevealed board' →
     rooms s' = rooms s ∧
     ∃ table,
       sent = [(toSocket socketId,
                boardUpdate board' (row, col) (progressOf st board'));
               (toRoom id, progressUpdate table);
               (toRoom id, progressUpdate table)] ∧
       table !! socketId = Some (progressOf st board') ∧
       ∀ k, k ≠ socketId →
            table !! k = match findPlayer k (players room) with
                         | Some _ => progressOf st <$> boards !! k
                         | None => None
                         end).
Proof.
  intros Hroom Hplaying Hplayer Hboards Hboard Hst Hall Hcell Hflag Hmine.
  pose proof (Hall _ _ Hboard) as Hd. cbn beta in Hd.
  destruct (floodReveal_runs board row col _ _ Hd) as (board' & Hflood & Hd').
  assert (map_Forall (λ _ b, hasDims (rows st) (cols st) b)
            (<[socketId := board']> boards)) as Hall'
    by (by apply map_Forall_insert_2).
  destruct (progressTable_lookup (players room) _ st Hall')
    as (table & Htable & Hlookup).
  unfold cellClick. rewrite Hroom, Hplaying.
  rewrite bool_decide_eq_true_2 by done. cbn [negb].
  rewrite Hboards, Hboard, Hcell. res_simpl. rewrite Hflag, Hmine, Hst, Hflood.
  res_simpl. rewrite (checkWin_scan board') by done. res_simpl.
  destruct (forallb _ (mjoin board')) eqn:Hwon.
  - apply forallb_allSafeRevealed in Hwon.
    eexists board', _, _. split; [done|]. split; [reflexivity|].
    split; [done|]. split; [done|]. split; [|done].
    intros _. rewrite Hplayer. done.
  - assert (¬ allSafeRevealed board') as Hnot.
    { intros H. apply forallb_allSafeRevealed in H. congruence. }
    rewrite (getPlayerProgress_scan board') by done. res_simpl.
    rewrite Htable. res_simpl.
    assert (table !! socketId = Some (progressOf st board')) as Hmine'.
    { rewrite Hlookup, Hplayer. by rewrite lookup_insert_eq. }
    rewrite bool_decide_eq_false_2
      by (intros ->; by rewrite lookup_empty in Hmine').
    eexists board', _, _. split; [done|]. split; [reflexivity|].
    split; [done|]. split; [done|]. split; [done|].
    intros _. split; [done|]. exists table. split; [done|]. split; [done|].
    intros k Hne. rewrite Hlookup. by rewrite lookup_insert_ne.
Qed.

Lemma cellClick_safe_cell_witness :
  ∃ (board' : Board) (s' : Server) sent,
    floodReveal sampleBoard 0 0 (rows easy) (cols easy) = Ok board' ∧
    cellClick "bob" "aaaa" 0 0 sampleGame = Ok (s', sent) ∧
    playerBoards s'
    = <["aaaa" := <["bob" := board']> sampleBoards]> (playerBoards sampleGame) ∧
    timers s' = timers sampleGame ∧
    (allSafeRevealed board' →
     rooms s'
     = mapSet "aaaa"
         (setWinner
            (Some (nameOrUnknown (Some (mkPlayer "bob" "Bob" true false false))))
            (setGameState Finished playingRoom)) (rooms sampleGame) ∧
     sent = [(toRoom "aaaa",
              gameWon
                (nameOrUnknown (Some (mkPlayer "bob" "Bob" true false false)))
                "bob")]) ∧
    (¬ allSafeRevealed board' →
     rooms s' = rooms sampleGame ∧
     ∃ table,
       sent = [(toSocket "bob",
                boardUpdate board' (0, 0) (progressOf easy board'));
               (toRoom "aaaa", progressUpdate table);
               (toRoom "aaaa", progressUpdate table)] ∧
       table !! "bob" = Some (progressOf easy board') ∧
       ∀ k, k ≠ "bob" →
            table !! k = match findPlayer k (players playingRoom) with
                         | Some _ => progressOf easy <$> sampleBoards !! k
                         | None => None
                         end).
Proof.
  eapply (cellClick_safe_cell sampleGame "bob" "aaaa" 0 0 playingRoom
            (mkPlayer "bob" "Bob" true false false) sampleBoards sampleBoard
            _ easy).
  - vm_compute. reflexivity.
  - reflexivity.
  - vm_compute. reflexivity.
  - vm_compute. reflexivity.
  - vm_compute. reflexivity.
  - vm_compute. reflexivity.
  - apply (bool_decide_unpack _). vm_compute. exact I.
  - vm_compute. reflexivity.
  - reflexivity.
  - reflexivity.
Defined.

Ltac state_simpl :=
  cbn [rooms playerBoards timers putRoom putBoards setRooms setPlayerBoards
       setTimers fst snd].

(** ** Leaving a room *)
Lemma mapGet_mapDelete_eq {V} k (m : list (string * V)) :
  mapGet k (mapDelete k m) = None.
Proof.
  destruct (mapGet k (mapDelete k m)) as [v|] eqn:H; [|done].
  by apply mapGet_mapDelete in H as [Hne _].
Qed.

Lemma mapGet_mapDelete_ne {V} k k' (m : list (string * V)) :
  k' ≠ k → mapGet k' (mapDelete k m) = mapGet k' m.
Proof.
  intros Hne. unfold mapGet, mapDelete.
  induction m as [|[k0 v0] m IH]; [done|].
  destruct (decide (k0 ≠ k)) as [Hk|Hk].
  - rewrite filter_cons_True by done. cbn.
    destruct (bool_decide (k0 = k')); [done|exact IH].
  - rewrite filter_cons_False by done. cbn.
    rewrite bool_decide_eq_false_2; [exact IH|].
    intros ->. apply Hk. intros ->. done.
Qed.

Lemma mapGet_app_first {V} k (v : V) (pre post : list (string * V)) :
  k ∉ pre.*1 → mapGet k (pre ++ (k, v) :: post)%list = Some v.
Proof.
  unfold mapGet. induction pre as [|[k0 v0] pre IH]; intros Hnotin; cbn.
  - by rewrite bool_decide_eq_true_2.
  - cbn in Hnotin. apply not_elem_of_cons in Hnotin as [Hne Hnotin].
    rewrite bool_decide_eq_false_2 by done. by apply IH.
Qed.

Lemma find_app_first {A} (P : A → bool) (pre post : list A) x :
  (∀ y, y ∈ pre → P y = false) → P x = true →
  find P (pre ++ x :: post)%list = Some x.
Proof.
  induction pre as [|y pre IH]; intros Hpre Hx; cbn.
  - by rewrite Hx.
  - rewrite (Hpre y) by (by left). apply IH; [|done].
    intros z Hz. apply Hpre. by right.
Qed.

(** X13: returnToLobby by a listed player of a room that is not in state
    post_game (no reachable room is): the player is taken out of the room
    and loses the board, the others in the room are told playerLeft and the
    sender returnedToLobby; no other room or board table changes.  A room
    left without players is deleted together with its board table; a room
    that keeps a player keeps its gameState, so leaving through
    returnToLobby in the middle of a game does not end the game. *)
Theorem returnToLobby_leaves o (s : Server) socketId id room player :
  mapGet id (rooms s) = Some room →
  findPlayer socketId (players room) = Some player →
  gameState room ≠ PostGame →
  ∃ s',
    returnToLobby o socketId id s
    = Ok (s', [(toOthers id socketId, playerLeft socketId);
               (toSocket socketId, returnedToLobby)]) ∧
    timers s' = timers s ∧
    (∀ id', id' ≠ id →
       mapGet id' (rooms s') = mapGet id' (rooms s) ∧
       playerBoards s' !! id' = playerBoards s !! id') ∧
    (removePlayer socketId (players room) = [] →
     mapGet id (rooms s') = None ∧ playerBoards s' !! id = None) ∧
    (removePlayer socketId (players room) ≠ [] →
     mapGet id (rooms s')
     = Some (setPlayers (removePlayer socketId (players room)) room) ∧
     playerBoards s' !! id = delete socketId <$> playerBoards s !! id).
Proof.
  intros Hroom Hplayer Hstate. unfold returnToLobby.
  rewrite Hroom, Hplayer.
  rewrite (bool_decide_eq_false_2 (gameState room = PostGame)) by done.
  rewrite andb_false_r. unfold leaveRoom. rewrite Hplayer.
  cbn [players setPlayers].
  destruct (decide (removePlayer socketId (players room) = [])) as [Hempty|Hne].
  - rewrite bool_decide_eq_true_2 by done. eexists. split; [reflexivity|].
    split; [reflexivity|]. split; [|split; [|done]].
    + intros id' Hid. state_simpl. split.
      * rewrite mapGet_mapDelete_ne, mapGet_mapSet_ne by done. done.
      * by rewrite lookup_delete_ne, lookup_alter_ne.
    + intros _. state_simpl. split; [apply mapGet_mapDelete_eq|].
      apply lookup_delete_eq.
  - rewrite bool_decide_eq_false_2 by done. eexists. split; [reflexivity|].
    split; [reflexivity|]. split; [|split; [done|]].
    + intros id' Hid. state_simpl. split.
      * by rewrite mapGet_mapSet_ne.
      * by rewrite lookup_alter_ne.
    + intros _. state_simpl. split; [apply mapGet_mapSet_eq|].
      apply lookup_alter_eq.
Qed.

Lemma returnToLobby_leaves_witness :
  ∃ s',
    returnToLobby sampleOracle "bob" "aaaa" sampleGame
    = Ok (s', [(toOthers "aaaa" "bob", playerLeft "bob");
               (toSocket "bob", returnedToLobby)]) ∧
    timers s' = timers sampleGame ∧
    (∀ id', id' ≠ "aaaa" →
       mapGet id' (rooms s') = mapGet id' (rooms sampleGame) ∧
       playerBoards s' !! id' = playerBoards sampleGame !! id') ∧
    (removePlayer "bob" (players playingRoom) = [] →
     mapGet "aaaa" (rooms s') = None ∧ playerBoards s' !! "aaaa" = None) ∧
    (removePlayer "bob" (players playingRoom) ≠ [] →
     mapGet "aaaa" (rooms s')
     = Some (setPlayers (removePlayer "bob" (players playingRoom)) playingRoom) ∧
     playerBoards s' !! "aaaa"
     = delete "bob" <$> playerBoards sampleGame !! "aaaa").
Proof.
  apply (returnToLobby_leaves sampleOracle sampleGame "bob" "aaaa" playingRoom
           (mkPlayer "bob" "Bob" true false false)).
  - vm_compute. reflexivity.
  - vm_compute. reflexivity.
  - intros H. discriminate H.
Defined.

(** X14: disconnect takes the socket out of one room only, the first room
    in insertion order that lists it, and drops its board there; every other
    room and board table stays as it is, also a later room that lists the
    same socket.  A room left empty is deleted with its board table; a room
    that was playing becomes finished with the first remaining player as
    winner and the room is sent gameOver with reason disconnected; in any
    other state (post_game is never reached) the room only loses the
    player. *)
Theorem disconnect_leaves_first_room o (s : Server) socketId id room player
    (pre post : list (string * Room)) :
  rooms s = (pre ++ (id, room) :: post)%list →
  id ∉ pre.*1 →
  (∀ kv, kv ∈ pre → findPlayer socketId (players kv.2) = None) →
  findPlayer socketId (players room) = Some player →
  gameState room ≠ PostGame →
  ∃ s' sent,
    disconnect o socketId s = Ok (s', sent) ∧
    timers s' = timers s ∧
    (∀ id', id' ≠ id →
       mapGet id' (rooms s') = mapGet id' (rooms s) ∧
       playerBoards s' !! id' = playerBoards s !! id') ∧
    (removePlayer socketId (players room) = [] →
     mapGet id (rooms s') = None ∧ playerBoards s' !! id = None ∧
     sent = [(toOthers id socketId, playerLeft socketId)]) ∧
    (removePlayer socketId (players room) ≠ [] →
     playerBoards s' !! id = delete socketId <$> playerBoards s !! id ∧
     (gameState room = Playing →
      mapGet id (rooms s')
      = Some (setWinner
                (Some (nameOrUnknown
                         (head (removePlayer socketId (players room)))))
                (setGameState Finished
                   (setPlayers (removePlayer socketId (players room)) room))) ∧
      sent = [(toOthers id socketId, playerLeft socketId);
              (toRoom id,
               gameOverDisconnected
                 (nameOrUnknown
                    (head (removePlayer socketId (players room)))))]) ∧
     (gameState room ≠ Playing →
      mapGet id (rooms s')
      = Some (setPlayers (removePlayer socketId (players room)) room) ∧
      sent = [(toOthers id socketId, playerLeft socketId)])).
Proof.
  intros Hrooms Hid Hpre Hplayer Hstate. unfold disconnect.
  rewrite Hrooms, (find_app_first _ pre post (id, room)).
  2:{ intros kv Hkv. rewrite (Hpre kv Hkv). apply bool_decide_eq_false_2.
      by intros [? ?]. }
  2:{ cbn. rewrite Hplayer. by apply bool_decide_eq_true_2. }
  rewrite <- Hrooms. unfold disconnectFrom. cbn [players setPlayers gameState].
  destruct (decide (removePlayer socketId (players room) = [])) as [Hempty|Hne].
  { rewrite bool_decide_eq_true_2 by done. eexists _, _.
    split; [reflexivity|]. split; [reflexivity|]. split; [|split; [|done]].
    + intros id' Hid'. state_simpl. split.
      * rewrite mapGet_mapDelete_ne, mapGet_mapSet_ne by done. done.
      * by rewrite lookup_delete_ne, lookup_alter_ne.
    + intros _. state_simpl. split; [apply mapGet_mapDelete_eq|].
      split; [apply lookup_delete_eq|done]. }
  rewrite bool_decide_eq_false_2 by done.
  destruct (decide (gameState room = Playing)) as [Hplaying|Hother].
  { rewrite bool_decide_eq_true_2 by done. eexists _, _.
    split; [reflexivity|]. split; [reflexivity|]. split; [|split; [done|]].
    + intros id' Hid'. state_simpl. split.
      * rewrite !mapGet_mapSet_ne by done. done.
      * by rewrite lookup_alter_ne.
    + intros _. state_simpl. split; [apply lookup_alter_eq|]. split; [|done].
      intros _. split; [apply mapGet_mapSet_eq|done]. }
  rewrite bool_decide_eq_false_2 by done.
  rewrite (bool_decide_eq_false_2 (gameState room = PostGame)) by done.
  eexists _, _.
  split; [reflexivity|]. split; [reflexivity|]. split; [|split; [done|]].
  + intros id' Hid'. state_simpl. split.
    * by rewrite mapGet_mapSet_ne.
    * by rewrite lookup_alter_ne.
  + intros _. state_simpl. split; [apply lookup_alter_eq|]. split; [done|].
    intros _. split; [apply mapGet_mapSet_eq|done].
Qed.

Lemma disconnect_leaves_first_room_witness :
  ∃ s' sent,
    disconnect sampleOracle "bob" sampleGame = Ok (s', sent) ∧
    timers s' = timers sampleGame ∧
    (∀ id', id' ≠ "aaaa" →
       mapGet id' (rooms s') = mapGet id' (rooms sampleGame) ∧
       playerBoards s' !! id' = playerBoards sampleGame !! id') ∧
    (removePlayer "bob" (players playingRoom) = [] →
     mapGet "aaaa" (rooms s') = None ∧ playerBoards s' !! "aaaa" = None ∧
     sent = [(toOthers "aaaa" "bob", playerLeft "bob")]) ∧
    (removePlayer "bob" (players playingRoom) ≠ [] →
     playerBoards s' !! "aaaa"
     = delete "bob" <$> playerBoards sampleGame !! "aaaa" ∧
     (gameState playingRoom = Playing →
      mapGet "aaaa" (rooms s')
      = Some (setWinner
                (Some (nameOrUnknown
                         (head (removePlayer "bob" (players playingRoom)))))
                (setGameState Finished
                   (setPlayers (removePlayer "bob" (players playingRoom))
                      playingRoom))) ∧
      sent = [(toOthers "aaaa" "bob", playerLeft "bob");
              (toRoom "aaaa",
               gameOverDisconnected
                 (nameOrUnknown
                    (head (removePlayer "bob" (players playingRoom)))))]) ∧
     (gameState playingRoom ≠ Playing →
      mapGet "aaaa" (rooms s')
      = Some (setPlayers (removePlayer "bob" (players playingRoom)) playingRoom) ∧
      sent = [(toOthers "aaaa" "bob", playerLeft "bob")])).
Proof.
  apply (disconnect_leaves_first_room sampleOracle sampleGame "bob" "aaaa"
           playingRoom (mkPlayer "bob" "Bob" true false false) [] []).
  - vm_compute. reflexivity.
  - apply not_elem_of_nil.
  - intros kv Hkv. by apply elem_of_nil in Hkv.
  - vm_compute. reflexivity.
  - intros H. discriminate H.
Defined.

(** ** Rematch *)

(** X15: a rematch takes both players.  In a room with two players of
    different ids, whatever its gameState, the first playAgain only records
    the wish and reports that not all want to play again; the second one, by
    the other player, resets the room: state waiting, nobody ready, no
    wishes pending, a fresh seed, no winner, no start time, and an empty
    board table, announced by gameReset.  No other room is touched. *)
Theorem playAgain_by_both_resets o1 o2 (s : Server) id room p1 p2 :
  mapGet id (rooms s) = Some room →
  players room = [p1; p2] →
  playerId p1 ≠ playerId p2 →
  wantsToPlayAgain p2 = false →
  ∃ s1 s2,
    playAgain o1 (playerId p1) id s
    = Ok (s1, [(toRoom id, playAgainStatus (playerId p1) false)]) ∧
    mapGet id (rooms s1)
    = Some (setPlayers [setWantsToPlayAgain true p1; p2] room) ∧
    playerBoards s1 = playerBoards s ∧
    playAgain o2 (playerId p2) id s1
    = Ok (s2,
          [(toRoom id, playAgainStatus (playerId p2) true);
           (toRoom id,
            gameReset (mkRoom (roomId room) (difficulty room)
                         [rematchPlayer p1; rematchPlayer p2]
                         Waiting (freshSeed o2) None None))]) ∧
    mapGet id (rooms s2)
    = Some (mkRoom (roomId room) (difficulty room)
              [rematchPlayer p1; rematchPlayer p2]
              Waiting (freshSeed o2) None None) ∧
    playerBoards s2 !! id = (λ _, ∅) <$> playerBoards s !! id ∧
    (∀ id', id' ≠ id →
       mapGet id' (rooms s2) = mapGet id' (rooms s) ∧
       playerBoards s2 !! id' = playerBoards s !! id').
Proof.
  intros Hroom Hplayers Hne Hwant2.
  assert (playAgain o1 (playerId p1) id s
          = Ok (putRoom id (setPlayers [setWantsToPlayAgain true p1; p2] room) s,
                [(toRoom id, playAgainStatus (playerId p1) false)])) as Hfirst.
  { unfold playAgain. rewrite Hroom, Hplayers. unfold findPlayer. cbn [find].
    rewrite bool_decide_eq_true_2 by done. cbn zeta.
    cbn [players setPlayers updatePlayer].
    rewrite bool_decide_eq_true_2 by done.
    unfold allWantToPlayAgain. cbn [forallb]. rewrite Hwant2.
    cbn [wantsToPlayAgain setWantsToPlayAgain andb]. reflexivity. }
  eexists _, _. split; [exact Hfirst|].
  split; [apply mapGet_mapSet_eq|]. split; [reflexivity|].
  assert (playAgain o2 (playerId p2) id
            (putRoom id (setPlayers [setWantsToPlayAgain true p1; p2] room) s)
          = Ok (putRoom id
                  (mkRoom (roomId room) (difficulty room)
                     [rematchPlayer p1; rematchPlayer p2]
                     Waiting (freshSeed o2) None None)
                  (setPlayerBoards (alter (λ _, ∅) id (playerBoards s))
                     (putRoom id
                        (setPlayers [setWantsToPlayAgain true p1; p2] room) s)),
                [(toRoom id, playAgainStatus (playerId p2) true);
                 (toRoom id,
                  gameReset (mkRoom (roomId room) (difficulty room)
                               [rematchPlayer p1; rematchPlayer p2]
                               Waiting (freshSeed o2) None None))])) as Hsecond.
  { unfold playAgain. state_simpl. rewrite mapGet_mapSet_eq.
    cbn [players setPlayers]. unfold findPlayer. cbn [find].
    cbn [playerId setWantsToPlayAgain].
    rewrite (bool_decide_eq_false_2 (playerId p1 = playerId p2)) by done.
    rewrite bool_decide_eq_true_2 by done. cbn zeta.
    cbn [players setPlayers updatePlayer playerId setWantsToPlayAgain].
    rewrite (bool_decide_eq_false_2 (playerId p1 = playerId p2)) by done.
    rewrite bool_decide_eq_true_2 by done.
    unfold allWantToPlayAgain.
    cbn [forallb wantsToPlayAgain setWantsToPlayAgain andb].
    reflexivity. }
  split; [exact Hsecond|]. state_simpl.
  split; [apply mapGet_mapSet_eq|]. split; [apply lookup_alter_eq|].
  intros id' Hid. split.
  - by rewrite !mapGet_mapSet_ne.
  - by rewrite lookup_alter_ne.
Qed.

Lemma playAgain_by_both_resets_witness :
  ∃ s1 s2,
    playAgain sampleOracle "alice" "aaaa" sampleGame
    = Ok (s1, [(toRoom "aaaa", playAgainStatus "alice" false)]) ∧
    mapGet "aaaa" (rooms s1)
    = Some (setPlayers
              [setWantsToPlayAgain true (mkPlayer "alice" "Alice" true true false);
               mkPlayer "bob" "Bob" true false false] playingRoom) ∧
    playerBoards s1 = playerBoards sampleGame ∧
    playAgain laterOracle "bob" "aaaa" s1
    = Ok (s2,
          [(toRoom "aaaa", playAgainStatus "bob" true);
           (toRoom "aaaa",
            gameReset (mkRoom (roomId playingRoom) (difficulty playingRoom)
                         [rematchPlayer (mkPlayer "alice" "Alice" true true false);
                          rematchPlayer (mkPlayer "bob" "Bob" true false false)]
                         Waiting (freshSeed laterOracle) None None))]) ∧
    mapGet "aaaa" (rooms s2)
    = Some (mkRoom (roomId playingRoom) (difficulty playingRoom)
              [rematchPlayer (mkPlayer "alice" "Alice" true true false);
               rematchPlayer (mkPlayer "bob" "Bob" true false false)]
              Waiting (freshSeed laterOracle) None None) ∧
    playerBoards s2 !! "aaaa" = (λ _, ∅) <$> playerBoards sampleGame !! "aaaa" ∧
    (∀ id', id' ≠ "aaaa" →
       mapGet id' (rooms s2) = mapGet id' (rooms sampleGame) ∧
       playerBoards s2 !! id' = playerBoards sampleGame !! id').
Proof.
  apply (playAgain_by_both_resets sampleOracle laterOracle sampleGame "aaaa"
           playingRoom (mkPlayer "alice" "Alice" true true false)
           (mkPlayer "bob" "Bob" true false false)).
  - vm_compute. reflexivity.
  - reflexivity.
  - intros H. discriminate H.
  - reflexivity.
Defined.

(** ** From an empty lobby to a room that is ready *)

(** X16: the lobby, step by step.  createRoom stores a waiting room under
    the generated id (replacing whatever was stored there) with the creator
    as its admin; a second socket joins it; once both have sent playerReady
    the room is ready and gameReady goes to the room.  In that room a third
    joinRoom is refused with Room is full, and startGame by the player who
    is not the admin is refused with an error; neither changes the
    server. *)
Theorem lobby_reaches_ready unitDraw (fuel : nat) o (s : Server)
    a b c diff nameA nameB nameC :
  a ≠ b →
  ∃ s1 s2 s3 s4,
    createRoom o a diff nameA s
    = Ok (s1, [(toSocket a,
                roomCreated (generateRoomId (idPick o))
                  (mkRoom (generateRoomId (idPick o)) diff
                     [mkPlayer a nameA false true false]
                     Waiting (freshSeed o) None None))]) ∧
    joinRoom b (generateRoomId (idPick o)) nameB s1
    = Ok (s2, [(toSocket b,
                roomJoined
                  (mkRoom (generateRoomId (idPick o)) diff
                     [mkPlayer a nameA false true false;
                      mkPlayer b nameB false false false]
                     Waiting (freshSeed o) None None));
               (toOthers (generateRoomId (idPick o)) b,
                playerJoined (mkPlayer b nameB false false false))]) ∧
    playerReady a (generateRoomId (idPick o)) s2
    = Ok (s3, [(toOthers (generateRoomId (idPick o)) a, playerReadyEvent a)]) ∧
    playerReady b (generateRoomId (idPick o)) s3
    = Ok (s4, [(toOthers (generateRoomId (idPick o)) b, playerReadyEvent b);
               (toRoom (generateRoomId (idPick o)), gameReady)]) ∧
    mapGet (generateRoomId (idPick o)) (rooms s4)
    = Some (mkRoom (generateRoomId (idPick o)) diff
              [mkPlayer a nameA true true false;
               mkPlayer b nameB true false false]
              Ready (freshSeed o) None None) ∧
    playerBoards s4 !! generateRoomId (idPick o) = Some ∅ ∧
    (∀ id', id' ≠ generateRoomId (idPick o) →
       mapGet id' (rooms s4) = mapGet id' (rooms s) ∧
       playerBoards s4 !! id' = playerBoards s !! id') ∧
    joinRoom c (generateRoomId (idPick o)) nameC s4
    = Ok (s4, [(toSocket c, error "Room is full")]) ∧
    startGame unitDraw fuel o b (generateRoomId (idPick o)) s4
    = Ok (s4, [(toSocket b, error "Only the room admin can start the game")]).
Proof.
  intros Hab. set (id := generateRoomId (idPick o)).
  eexists _, _, _, _. split; [reflexivity|].
  split.
  { unfold joinRoom. cbn [rooms]. rewrite mapGet_mapSet_eq.
    cbn [players length Nat.leb]. reflexivity. }
  split.
  { unfold playerReady. state_simpl. rewrite mapGet_mapSet_eq.
    cbn [players setPlayers app]. unfold findPlayer. cbn [find playerId].
    rewrite bool_decide_eq_true_2 by done.
    cbn [players setPlayers updatePlayer playerId].
    rewrite bool_decide_eq_true_2 by done.
    cbn [length Nat.leb allReady forallb ready setReady negb andb gameState
         setGameState].
    rewrite (bool_decide_eq_false_2 (Waiting = Ready)) by done. reflexivity. }
  split.
  { unfold playerReady. state_simpl. rewrite mapGet_mapSet_eq.
    cbn [players setPlayers app]. unfold findPlayer. cbn [find playerId setReady].
    rewrite (bool_decide_eq_false_2 (a = b)) by done.
    rewrite bool_decide_eq_true_2 by done.
    cbn [players setPlayers updatePlayer playerId setReady].
    rewrite (bool_decide_eq_false_2 (a = b)) by done.
    rewrite bool_decide_eq_true_2 by done.
    cbn [length Nat.leb allReady forallb ready setReady negb andb].
    reflexivity. }
  state_simpl. split; [by rewrite mapGet_mapSet_eq|].
  split; [apply lookup_insert_eq|]. split.
  { intros id' Hid. split.
    - by rewrite !mapGet_mapSet_ne.
    - by rewrite lookup_insert_ne. }
  split.
  { unfold joinRoom. state_simpl. rewrite mapGet_mapSet_eq. reflexivity. }
  unfold startGame. state_simpl. rewrite mapGet_mapSet_eq.
  cbn [players setPlayers setGameState length Nat.ltb Nat.leb].
  unfold findPlayer. cbn [find playerId].
  rewrite (bool_decide_eq_false_2 (a = b)) by done.
  rewrite bool_decide_eq_true_2 by done. reflexivity.
Qed.

Lemma lobby_reaches_ready_witness :
  ∃ s1 s2 s3 s4,
    createRoom sampleOracle "alice" "easy" "Alice" initialServer
    = Ok (s1, [(toSocket "alice",
                roomCreated (generateRoomId (idPick sampleOracle))
                  (mkRoom (generateRoomId (idPick sampleOracle)) "easy"
                     [mkPlayer "alice" "Alice" false true false]
                     Waiting (freshSeed sampleOracle) None None))]) ∧
    joinRoom "bob" (generateRoomId (idPick sampleOracle)) "Bob" s1
    = Ok (s2, [(toSocket "bob",
                roomJoined
                  (mkRoom (generateRoomId (idPick sampleOracle)) "easy"
                     [mkPlayer "alice" "Alice" false true false;
                      mkPlayer "bob" "Bob" false false false]
                     Waiting (freshSeed sampleOracle) None None));
               (toOthers (generateRoomId (idPick sampleOracle)) "bob",
                playerJoined (mkPlayer "bob" "Bob" false false false))]) ∧
    playerReady "alice" (generateRoomId (idPick sampleOracle)) s2
    = Ok (s3, [(toOthers (generateRoomId (idPick sampleOracle)) "alice",
                playerReadyEvent "alice")]) ∧
    playerReady "bob" (generateRoomId (idPick sampleOracle)) s3
    = Ok (s4, [(toOthers (generateRoomId (idPick sampleOracle)) "bob",
                playerReadyEvent "bob");
               (toRoom (generateRoomId (idPick sampleOracle)), gameReady)]) ∧
    mapGet (generateRoomId (idPick sampleOracle)) (rooms s4)
    = Some (mkRoom (generateRoomId (idPick sampleOracle)) "easy"
              [mkPlayer "alice" "Alice" true true false;
               mkPlayer "bob" "Bob" true false false]
              Ready (freshSeed sampleOracle) None None) ∧
    playerBoards s4 !! generateRoomId (idPick sampleOracle) = Some ∅ ∧
    (∀ id', id' ≠ generateRoomId (idPick sampleOracle) →
       mapGet id' (rooms s4) = mapGet id' (rooms initialServer) ∧
       playerBoards s4 !! id' = playerBoards initialServer !! id') ∧
    joinRoom "carol" (generateRoomId (idPick sampleOracle)) "Carol" s4
    = Ok (s4, [(toSocket "carol", error "Room is full")]) ∧
    startGame sampleDraw 40 sampleOracle "bob"
      (generateRoomId (idPick sampleOracle)) s4
    = Ok (s4, [(toSocket "bob",
                error "Only the room admin can start the game")]).
Proof.
  apply (lobby_reaches_ready sampleDraw 40 sampleOracle initialServer
           "alice" "bob" "carol" "easy" "Alice" "Bob" "Carol").
  intros H. discriminate H.
Defined.

(** ** Room ids *)
Lemma string_get_lt (str : string) (n : nat) :
  (n < String.length str)%nat → ∃ ch, String.get n str = Some ch.
Proof.
  revert n. induction str as [|ch0 str IH]; intros n Hn; cbn in Hn; [lia|].
  destruct n as [|n]; cbn; [eauto|]. apply IH. lia.
Qed.

Lemma string_get_in (str : string) (n : nat) ch :
  String.get n str = Some ch → In ch (list_ascii_of_string str).
Proof.
  revert n. induction str as [|ch0 str IH]; intros n; [done|].
  destruct n as [|n]; cbn.
  - intros [= ->]. by left.
  - intros H. right. by apply (IH n).
Qed.

(** X17: a room id has four characters, each a lower-case letter or a
    digit: when every value of Math.floor(Math.random() * 36) lies in
    0..35, generateRoomId returns the four characters that the four draws
    pick from the alphabet, in the order drawn. *)
Theorem generateRoomId_four_alphanumerics (pick : Z → Z) :
  (∀ i, 0 ≤ pick i < 36) →
  ∃ c0 c1 c2 c3,
    generateRoomId pick
    = String c0 (String c1 (String c2 (String c3 EmptyString))) ∧
    String.length (generateRoomId pick) = 4%nat ∧
    String.get (Z.to_nat (pick 0)) chars = Some c0 ∧
    String.get (Z.to_nat (pick 1)) chars = Some c1 ∧
    String.get (Z.to_nat (pick 2)) chars = Some c2 ∧
    String.get (Z.to_nat (pick 3)) chars = Some c3 ∧
    Forall (λ ch, In ch (list_ascii_of_string chars)) [c0; c1; c2; c3].
Proof.
  intros Hpick.
  assert (∀ i, ∃ ch, String.get (Z.to_nat (pick i)) chars = Some ch ∧
                     charAt chars (pick i) = String ch EmptyString) as Hchar.
  { intros i. destruct (string_get_lt chars (Z.to_nat (pick i))) as [ch Hch].
    - change (String.length chars) with 36%nat. specialize (Hpick i). lia.
    - exists ch. split; [done|]. unfold charAt.
      destruct (decide (0 ≤ pick i)) as [_|Hneg]; [by rewrite Hch|].
      specialize (Hpick i). lia. }
  destruct (Hchar 0) as (c0 & H0 & E0). destruct (Hchar 1) as (c1 & H1 & E1).
  destruct (Hchar 2) as (c2 & H2 & E2). destruct (Hchar 3) as (c3 & H3 & E3).
  exists c0, c1, c2, c3.
  assert (generateRoomId pick
          = String c0 (String c1 (String c2 (String c3 EmptyString)))) as Hid.
  { unfold generateRoomId.
    change (seqZ 0 4) with [0; 1; 2; 3]. cbn [foldl].
    rewrite E0, E1, E2, E3. reflexivity. }
  split; [exact Hid|]. split; [by rewrite Hid|].
  repeat (split; [done|]).
  repeat (apply Forall_cons; split; [by eapply string_get_in|]).
  apply Forall_nil_2.
Qed.

Lemma generateRoomId_four_alphanumerics_witness :
  ∃ c0 c1 c2 c3,
    generateRoomId (idPick laterOracle)
    = String c0 (String c1 (String c2 (String c3 EmptyString))) ∧
    String.length (generateRoomId (idPick laterOracle)) = 4%nat ∧
    String.get (Z.to_nat (idPick laterOracle 0)) chars = Some c0 ∧
    String.get (Z.to_nat (idPick laterOracle 1)) chars = Some c1 ∧
    String.get (Z.to_nat (idPick laterOracle 2)) chars = Some c2 ∧
    String.get (Z.to_nat (idPick laterOracle 3)) chars = Some c3 ∧
    Forall (λ ch, In ch (list_ascii_of_string chars)) [c0; c1; c2; c3].
Proof.
  apply (generateRoomId_four_alphanumerics (idPick laterOracle)).
  intros i. cbn. lia.
Defined.

(** ** Progress on the boards in play *)

(** X18: every board a reachable server holds has a progress that is a
    whole number of percent from 0 to 100, never NaN or Infinity, and it is
    100 when every safe cell of the board is revealed. *)
Theorem reachable_progress_in_range unitDraw (s : Server) id room
    (boards : gmap string Board) sock (board : Board) st :
  reachable unitDraw s →
  mapGet id (rooms s) = Some room →
  playerBoards s !! id = Some boards →
  boards !! sock = Some board →
  getDifficultySettings (difficulty room) = Own st →
  ∃ n,
    getPlayerProgress board (rows st) (cols st) (mines st) = Ok (Pct n) ∧
    0 ≤ n ≤ 100 ∧
    (allSafeRevealed board → n = 100).
Proof.
  intros Hreach Hroom Hboards Hboard Hst. apply reachable_wf in Hreach.
  destruct (serverWf_get _ _ _ Hreach Hroom)
    as (_ & _ & _ & boards0 & Hboards0 & Hok).
  assert (boards0 = boards) as -> by congruence.
  destruct (Hok _ _ Hboard) as (_ & st' & Hst' & (Hd & Hcount & _) & _).
  assert (st' = st) as -> by congruence.
  pose proof (board_partition board _ _ Hd) as Hsum.
  assert (0 < rows st * cols st - mines st ∧ 0 ≤ mines st) as [Hpos Hm].
  { clear Hsum Hcount Hd Hst'.
    destruct (getDifficultySettings_Own _ _ Hst) as [-> | [-> | ->]];
      (split; [reflexivity|intros H; discriminate H]). }
  rewrite Hcount, Z2Nat.id in Hsum by done.
  set (a := Z.of_nat (countCells isSafeRevealed board)) in *.
  set (b := rows st * cols st - mines st) in *.
  exists ((200 * a + b) `div` (2 * b)).
  split.
  { rewrite (getPlayerProgress_table board st) by
      (done || exact (getDifficultySettings_Own _ _ Hst)).
    reflexivity. }
  assert (0 ≤ a ≤ b) as Hab by (unfold a, b; lia).
  split.
  - split.
    + apply Z.div_pos; lia.
    + assert ((200 * a + b) `div` (2 * b) < 101); [|lia].
      apply Z.div_lt_upper_bound; lia.
  - intros Hall.
    apply forallb_allSafeRevealed, won_iff_no_hidden in Hall.
    assert (a = b) as -> by (unfold a, b; lia).
    replace (200 * b + b) with (100 * (2 * b) + b) by lia.
    rewrite Z.div_add_l by lia. rewrite Z.div_small by lia. lia.
Qed.

Lemma reachable_progress_in_range_witness :
  ∃ n,
    getPlayerProgress sampleBoard (rows easy) (cols easy) (mines easy)
    = Ok (Pct n) ∧
    0 ≤ n ≤ 100 ∧
    (allSafeRevealed sampleBoard → n = 100).
Proof.
  apply (reachable_progress_in_range sampleDraw sampleGame "aaaa" playingRoom
           sampleBoards "bob" sampleBoard easy).
  - eapply stateAfter_reachable. vm_compute. reflexivity.
  - vm_compute. reflexivity.
  - vm_compute. reflexivity.
  - vm_compute. reflexivity.
  - vm_compute. reflexivity.
Defined.

(** ** The branch of disconnect that never runs *)

(** X19: on a reachable server disconnect always completes, never sends
    movedToNewRoom and never registers a room: every room stored afterwards
    was stored before under the same id.  The branch that would move the
    remaining player to a room of their own tests the state post_game,
    which no reachable room is in. *)
Theorem reachable_disconnect_never_moves unitDraw o (s : Server) socketId :
  reachable unitDraw s →
  ∃ s' sent,
    disconnect o socketId s = Ok (s', sent) ∧
    existsb isMovedToNewRoom sent = false ∧
    ∀ id room', mapGet id (rooms s') = Some room' →
      ∃ room, mapGet id (rooms s) = Some room ∧
              roomId room' = roomId room ∧
              difficulty room' = difficulty room.
Proof.
  intros Hreach. apply reachable_wf in Hreach. unfold disconnect.
  destruct (find _ (rooms s)) as [[id room]|] eqn:Hfind.
  2:{ eexists _, _. split; [reflexivity|]. split; [done|]. eauto. }
  apply find_some in Hfind as [Hin _]. apply list_elem_of_In in Hin.
  assert (mapGet id (rooms s) = Some room) as Hroom
    by (apply mapGet_NoDup; [apply Hreach|done]).
  destruct (serverWf_get _ _ _ Hreach Hroom) as (_ & Hstate & _).
  assert (∀ (room1 : Room) (rs : list (string * Room)) id' room',
            roomId room1 = roomId room → difficulty room1 = difficulty room →
            (∀ k r, k ≠ id → mapGet k rs = Some r → mapGet k (rooms s) = Some r) →
            mapGet id' (mapSet id room1 rs) = Some room' →
            ∃ room0, mapGet id' (rooms s) = Some room0 ∧
                     roomId room' = roomId room0 ∧
                     difficulty room' = difficulty room0) as Hset.
  { intros room1 rs id' room' Hrid Hdiff Hrs Hget.
    destruct (decide (id = id')) as [<-|Hne].
    - rewrite mapGet_mapSet_eq in Hget. injection Hget as <-. eauto.
    - rewrite mapGet_mapSet_ne in Hget by done. eauto. }
  unfold disconnectFrom. cbn [players setPlayers gameState].
  destruct (bool_decide (removePlayer socketId (players room) = [])).
  { eexists _, _. split; [reflexivity|]. split; [done|]. state_simpl.
    intros id' room' Hget. apply mapGet_mapDelete in Hget as [Hne Hget].
    rewrite mapGet_mapSet_ne in Hget by done. eauto. }
  destruct (bool_decide (gameState room = Playing)).
  { eexists _, _. split; [reflexivity|]. split; [done|]. state_simpl.
    intros id' room'. apply Hset; [done|done|].
    intros k r Hk Hget. by rewrite mapGet_mapSet_ne in Hget. }
  rewrite (bool_decide_eq_false_2 (gameState room = PostGame)) by done.
  eexists _, _. split; [reflexivity|]. split; [done|]. state_simpl.
  intros id' room'. apply Hset; [done|done|]. auto.
Qed.

Lemma reachable_disconnect_never_moves_witness :
  ∃ s' sent,
    disconnect sampleOracle "alice" (stateAfter rematchTrace) = Ok (s', sent) ∧
    existsb isMovedToNewRoom sent = false ∧
    ∀ id room', mapGet id (rooms s') = Some room' →
      ∃ room, mapGet id (rooms (stateAfter rematchTrace)) = Some room ∧
              roomId room' = roomId room ∧
              difficulty room' = difficulty room.
Proof.
  apply (reachable_disconnect_never_moves sampleDraw sampleOracle
           (stateAfter rematchTrace) "alice").
  eapply stateAfter_reachable. vm_compute. reflexivity.
Defined.
